(** * ww-resources-downloader: a shallow embedding of [main.py]

    The development follows the source file top to bottom and then
    states and proves the properties of its specification.

    - Python integers are unbounded, so they are [Z]; [//] is floor
      division, which is [Z.div].
    - Exceptions are an explicit [result] type.  The program has no
      [try] statement, so the monad below has no handler either.
    - The file system, the requests sent to the server, the files opened
      and the shared [failed_resources] list live in one [State] record
      that every operation threads through.  Paths are keys as the
      program spells them, which is exact for absolute paths in normal
      form on a file system without links; properties that tell files
      apart by their paths ask for that form.
    - The server is a function of the requests seen so far.  Status codes
      are never inspected by the program and are not modelled; a
      [content-length] header is modelled by its integer value.
    - MD5 is implemented after RFC 1321 and checked on its test vectors.
    - [print] and the [tqdm] progress bars only write to the terminal and
      are left out.
    - A thread pool runs its tasks one after the other in submission
      order; the chunk workers of one file are studied a second time
      under every interleaving of their file operations. *)

From Stdlib Require Import ZArith List Ascii String.
From Stdlib.Strings Require Import Byte.
From stdpp Require Import base tactics option list gmap strings pretty.

Open Scope Z_scope.

(** ** Exceptions and results *)

Inductive exn : Type :=
  | ZeroDivisionError
  | IndexError
  | ValueError (msg : string)
  | RequestException
  | JSONDecodeError
  | FileNotFoundError
  | IsADirectoryError
  | NotADirectoryError
  | FileExistsError
  | OSError.

(** The exceptions that an [except ValueError] clause catches:
    [ValueError] itself and [json.JSONDecodeError], which is a subclass
    of it.  ([RequestException] is the base class of what [requests]
    raises and is not a [ValueError], although its subclasses for
    malformed URLs are; the model does not tell those apart, so nothing
    is concluded from the answer [false].) *)
Definition is_ValueError (e : exn) : bool :=
  match e with
  | ValueError _ | JSONDecodeError => true
  | _ => false
  end.

Inductive result (A : Type) : Type :=
  | Ok (a : A)
  | Raise (e : exn).
Arguments Ok {A} a.
Arguments Raise {A} e.

(** ** Byte ranges: [download_file_multi_connection], lines 28-30 *)

(** [range(n)]: the integers [0, 1, ..., n-1]; empty when [n <= 0]. *)
Definition range (n : Z) : list Z := map Z.of_nat (seq 0 (Z.to_nat n)).

(** [chunks[-1] = v] on a Python list: replaces the last element and
    raises [IndexError] on the empty list.  [chunks[-1][0]] is read from
    the same element. *)
Fixpoint set_last_end (chunks : list (Z * Z)) (e : Z) : option (list (Z * Z)) :=
  match chunks with
  | [] => None
  | [c] => Some [(fst c, e)]
  | c :: rest => option_map (cons c) (set_last_end rest e)
  end.

Definition make_chunks (total_size num_connections : Z) : result (list (Z * Z)) :=
  if num_connections =? 0 then Raise ZeroDivisionError
  else
    let chunk_size := total_size / num_connections in
    let chunks :=
      map (fun i => (i * chunk_size, (i + 1) * chunk_size - 1))
          (range num_connections) in
    match set_last_end chunks (total_size - 1) with
    | None => Raise IndexError
    | Some chunks' => Ok chunks'
    end.

(** A byte offset [b] lies in the inclusive range [c]. *)
Definition in_range (b : Z) (c : Z * Z) : Prop := fst c <= b <= snd c.

(** Consecutive ranges touch: each one starts right after its
    predecessor ends. *)
Fixpoint contiguous (cs : list (Z * Z)) : Prop :=
  match cs with
  | c1 :: ((c2 :: _) as rest) => fst c2 = snd c1 + 1 /\ contiguous rest
  | _ => True
  end.

Definition pairwise_disjoint (cs : list (Z * Z)) : Prop :=
  forall i j c1 c2 b,
    cs !! i = Some c1 -> cs !! j = Some c2 -> i <> j ->
    in_range b c1 -> in_range b c2 -> False.

Definition covers (cs : list (Z * Z)) (lo hi : Z) : Prop :=
  forall b, lo <= b <= hi <-> exists c, c ∈ cs /\ in_range b c.

(** A range may be empty ([end = start - 1]) but never "negative". *)
Definition well_formed (c : Z * Z) : Prop := fst c <= snd c + 1.

(** ** Strings and paths ([str.lstrip], [os.path]) *)

Definition is_slash (c : ascii) : bool := Ascii.eqb c "/"%char.

(** [s.lstrip('/')] *)
Fixpoint lstrip_slash (s : string) : string :=
  match s with
  | String c s' => if is_slash c then lstrip_slash s' else s
  | EmptyString => EmptyString
  end.

(** [s.rstrip('/')] *)
Fixpoint rstrip_slash (s : string) : string :=
  match s with
  | EmptyString => EmptyString
  | String c s' =>
      match rstrip_slash s' with
      | EmptyString => if is_slash c then EmptyString else String c EmptyString
      | r => String c r
      end
  end.

Fixpoint all_slashes (s : string) : bool :=
  match s with
  | EmptyString => true
  | String c s' => is_slash c && all_slashes s'
  end.

Definition starts_with_slash (s : string) : bool :=
  match s with
  | String c _ => is_slash c
  | EmptyString => false
  end.

Fixpoint ends_with_slash (s : string) : bool :=
  match s with
  | EmptyString => false
  | String c EmptyString => is_slash c
  | String _ s' => ends_with_slash s'
  end.

(** [posixpath.split] before its head is stripped: the text up to and
    including the last slash, and the text after it. *)
Fixpoint rsplit_slash (s : string) : string * string :=
  match s with
  | EmptyString => (EmptyString, EmptyString)
  | String c s' =>
      let (h, t) := rsplit_slash s' in
      if is_slash c then (String c h, t)
      else match h with
           | EmptyString => (EmptyString, String c t)
           | _ => (String c h, t)
           end
  end.

(** [os.path.basename] *)
Definition basename (p : string) : string := snd (rsplit_slash p).

(** [os.path.dirname] *)
Definition dirname (p : string) : string :=
  let h := fst (rsplit_slash p) in
  if all_slashes h then h else rstrip_slash h.

(** [os.path.join(a, b)] *)
Definition path_join (a b : string) : string :=
  if starts_with_slash b then b
  else if (if a is EmptyString then true else ends_with_slash a) then a ++ b
  else a ++ "/" ++ b.

(** ** Byte strings *)

Definition zero_byte : byte := x00.

(** The read loop of [calculate_md5] and [response.iter_content(n)]: the
    content in pieces of [n] bytes, the last one possibly shorter.  The
    fuel is the length of the content, which is enough for [n >= 1]. *)
Fixpoint pieces_fuel (fuel n : nat) (l : list byte) : list (list byte) :=
  match fuel with
  | O => []
  | S fuel' =>
      match l with
      | [] => []
      | _ => take n l :: pieces_fuel fuel' n (drop n l)
      end
  end.

Definition pieces (n : nat) (l : list byte) : list (list byte) :=
  pieces_fuel (length l) n l.

(** Writing [data] at offset [pos] of a file with content [old]: a gap
    past the end is filled with zero bytes, bytes under [data] are
    overwritten, the rest is kept. *)
Definition write_at (old : list byte) (pos : nat) (data : list byte) : list byte :=
  take pos old ++ replicate (pos - length old) zero_byte ++ data
    ++ drop (pos + length data) old.

(** [f.truncate(size)]: cut or extend with zero bytes. *)
Definition resize (old : list byte) (size : nat) : list byte :=
  take size old ++ replicate (size - length old) zero_byte.

(** ** MD5 ([hashlib.md5], RFC 1321)

    Words are 32-bit, kept in [Z] and reduced with [mod 2^32]. *)

Definition w32 (x : Z) : Z := x mod 4294967296.

Definition rotl32 (x c : Z) : Z :=
  w32 (Z.lor (Z.shiftl x c) (Z.shiftr x (32 - c))).

Definition not32 (x : Z) : Z := Z.lxor x 4294967295.

Definition md5_shift : list Z :=
  [
   7; 12; 17; 22; 7; 12; 17; 22;
   7; 12; 17; 22; 7; 12; 17; 22;
   5; 9; 14; 20; 5; 9; 14; 20;
   5; 9; 14; 20; 5; 9; 14; 20;
   4; 11; 16; 23; 4; 11; 16; 23;
   4; 11; 16; 23; 4; 11; 16; 23;
   6; 10; 15; 21; 6; 10; 15; 21;
   6; 10; 15; 21; 6; 10; 15; 21 ].

Definition md5_K : list Z :=
  [
   3614090360; 3905402710; 606105819; 3250441966; 4118548399; 1200080426; 2821735955; 4249261313;
   1770035416; 2336552879; 4294925233; 2304563134; 1804603682; 4254626195; 2792965006; 1236535329;
   4129170786; 3225465664; 643717713; 3921069994; 3593408605; 38016083; 3634488961; 3889429448;
   568446438; 3275163606; 4107603335; 1163531501; 2850285829; 4243563512; 1735328473; 2368359562;
   4294588738; 2272392833; 1839030562; 4259657740; 2763975236; 1272893353; 4139469664; 3200236656;
   681279174; 3936430074; 3572445317; 76029189; 3654602809; 3873151461; 530742520; 3299628645;
   4096336452; 1126891415; 2878612391; 4237533241; 1700485571; 2399980690; 4293915773; 2240044497;
   1873313359; 4264355552; 2734768916; 1309151649; 4149444226; 3174756917; 718787259; 3951481745 ].

Definition byte_Z (b : byte) : Z := Z.of_N (Byte.to_N b).

Definition Z_byte (z : Z) : byte :=
  match Byte.of_N (Z.to_N (z mod 256)) with
  | Some b => b
  | None => x00
  end.

(** Little-endian encoding of [z] on [n] bytes. *)
Fixpoint le_bytes (n : nat) (z : Z) : list byte :=
  match n with
  | O => []
  | S n' => Z_byte z :: le_bytes n' (z / 256)
  end.

Fixpoint le_word (bs : list byte) : Z :=
  match bs with
  | [] => 0
  | b :: bs' => byte_Z b + 256 * le_word bs'
  end.

(** Padding: a 1 bit, zeros up to 56 mod 64, then the bit length on 64
    bits. *)
Definition md5_pad (msg : list byte) : list byte :=
  let len := length msg in
  let zeros := ((55 + 64 - len mod 64) mod 64)%nat in
  msg ++ [x80] ++ replicate zeros x00
      ++ le_bytes 8 ((Z.of_nat len * 8) mod 18446744073709551616).

(** The 16 little-endian words of one 64-byte block. *)
Fixpoint block_words (n : nat) (bs : list byte) : list Z :=
  match n with
  | O => []
  | S n' => le_word (take 4 bs) :: block_words n' (drop 4 bs)
  end.

Definition md5_round (M : list Z) (st : Z * Z * Z * Z) (i : nat) : Z * Z * Z * Z :=
  let '(a, b, c, d) := st in
  let iz := Z.of_nat i in
  let '(f, g) :=
    if (i <? 16)%nat then (Z.lor (Z.land b c) (Z.land (not32 b) d), iz)
    else if (i <? 32)%nat then
      (Z.lor (Z.land d b) (Z.land (not32 d) c), (5 * iz + 1) mod 16)
    else if (i <? 48)%nat then (Z.lxor (Z.lxor b c) d, (3 * iz + 5) mod 16)
    else (Z.lxor c (Z.lor b (not32 d)), (7 * iz) mod 16) in
  let f' := w32 (f + a + nth i md5_K 0 + nth (Z.to_nat g) M 0) in
  (d, w32 (b + rotl32 f' (nth i md5_shift 0)), b, c).

Definition md5_block (st : Z * Z * Z * Z) (block : list byte) : Z * Z * Z * Z :=
  let M := block_words 16 block in
  let '(a0, b0, c0, d0) := st in
  let '(a, b, c, d) := fold_left (md5_round M) (seq 0 64) st in
  (w32 (a0 + a), w32 (b0 + b), w32 (c0 + c), w32 (d0 + d)).

Fixpoint md5_blocks (n : nat) (st : Z * Z * Z * Z) (bs : list byte) : Z * Z * Z * Z :=
  match n with
  | O => st
  | S n' => md5_blocks n' (md5_block st (take 64 bs)) (drop 64 bs)
  end.

Definition md5_digest (msg : list byte) : list byte :=
  let padded := md5_pad msg in
  let '(a, b, c, d) :=
    md5_blocks (length padded / 64)
      (1732584193, 4023233417, 2562383102, 271733878) padded in
  le_bytes 4 a ++ le_bytes 4 b ++ le_bytes 4 c ++ le_bytes 4 d.

Definition hex_digit (z : Z) : ascii :=
  nth (Z.to_nat z)
      (list_ascii_of_string "0123456789abcdef") "0"%char.

Fixpoint hex_of_bytes (bs : list byte) : string :=
  match bs with
  | [] => EmptyString
  | b :: bs' =>
      String (hex_digit (byte_Z b / 16))
        (String (hex_digit (byte_Z b mod 16)) (hex_of_bytes bs'))
  end.

(** [hashlib.md5(msg).hexdigest()] *)
Definition md5_hexdigest (msg : list byte) : string :=
  hex_of_bytes (md5_digest msg).

(** ** The world the program runs in *)

(** JSON values, as [json.load] returns them and [json.dump] takes
    them.  An object keeps its members in document order. *)
#[warnings="-register-all"]
Inductive json : Type :=
  | JNull
  | JBool (b : bool)
  | JInt (z : Z)
  | JString (s : string)
  | JArray (items : list json)
  | JObject (members : list (string * json)).

(** A catalog entry, one element of the catalog's [resource] array: the
    JSON object as it was loaded ([entry], its members in document
    order, which is what [json.dump] writes back) together with the
    values of its keys ["dest"] and ["md5"], the only ones the program
    reads. *)
Record Resource : Type := mkEntry {
  entry : list (string * json);
  dest : string;
  md5 : string
}.

(** The entry [{"dest": d, "md5": m}]. *)
Definition mkResource (d m : string) : Resource :=
  mkEntry [("dest"%string, JString d); ("md5"%string, JString m)] d m.

Inductive node : Type :=
  | File (content : list byte)
  | Dir.

(** What [requests] sends: a [HEAD], or a [GET] with an optional
    [Range: bytes=start-end] header. *)
Inductive Request : Type :=
  | HEAD (url : string)
  | GET (url : string) (byte_range : option (Z * Z)).

(** What comes back.  The status code is never inspected by the program,
    so it is not part of the model.  [broken] says that the connection
    fails after [body] has been delivered, which makes [iter_content]
    raise once the delivered bytes have been consumed. *)
Record Response : Type := mkResponse {
  content_length : option Z;
  body : list byte;
  broken : bool
}.

(** The state threaded through every operation.  [server] answers a
    request given the requests seen before it ([None]: the request
    itself raises).  Paths are keys as the program spells them; two
    spellings of one path are two keys, so the file system is exact for
    absolute paths in normal form ([normal_path] below) and has no
    links.  [failed_resources] is the list object created on line 94 and
    shared by all workers. *)
Record State : Type := mkState {
  cwd : string;
  server : list Request -> Request -> option Response;
  fs : gmap string node;
  net : list Request;
  opened : list string;
  failed_resources : list Resource
}.

Definition set_fs (f : gmap string node) (s : State) : State :=
  mkState (cwd s) (server s) f (net s) (opened s) (failed_resources s).
Definition set_net (n : list Request) (s : State) : State :=
  mkState (cwd s) (server s) (fs s) n (opened s) (failed_resources s).
Definition set_opened (o : list string) (s : State) : State :=
  mkState (cwd s) (server s) (fs s) (net s) o (failed_resources s).
Definition set_failed (l : list Resource) (s : State) : State :=
  mkState (cwd s) (server s) (fs s) (net s) (opened s) l.

(** ** A state and exception monad *)

Definition M (A : Type) : Type := State -> result A * State.

Definition ret {A} (a : A) : M A := fun s => (Ok a, s).
Definition raise {A} (e : exn) : M A := fun s => (Raise e, s).
Definition bind {A B} (m : M A) (k : A -> M B) : M B :=
  fun s =>
    match m s with
    | (Ok a, s') => k a s'
    | (Raise e, s') => (Raise e, s')
    end.
Definition lift {A} (r : result A) : M A := fun s => (r, s).

Notation "x <- m ;; k" := (bind m (fun x => k))
  (at level 100, m at next level, right associativity).
Notation "m ;; k" := (bind m (fun _ => k))
  (at level 100, right associativity).

(** [for x in xs: body(x)], threading a loop-carried value. *)
Fixpoint for_each {A B} (xs : list A) (acc : B) (body : B -> A -> M B) : M B :=
  match xs with
  | [] => ret acc
  | x :: xs' => acc' <- body acc x ;; for_each xs' acc' body
  end.

(** ** File system operations *)

(** The key a path is stored under: trailing slashes do not count,
    except in a path made of slashes only. *)
Definition strip_trailing (p : string) : string :=
  if all_slashes p then p else rstrip_slash p.

(** What a path names.  The empty path names nothing, and a path with a
    trailing slash only ever names a directory. *)
Definition stat (f : gmap string node) (p : string) : option node :=
  if String.eqb p EmptyString then None
  else
    match f !! strip_trailing p with
    | Some Dir => Some Dir
    | Some (File c) => if ends_with_slash p then None else Some (File c)
    | None => None
    end.

(** [os.path.exists] *)
Definition path_exists (p : string) : M bool :=
  fun s => (Ok (bool_decide (is_Some (stat (fs s) p))), s).

(** A directory and the directories above it, nearest first. *)
Fixpoint ancestors_fuel (fuel : nat) (d : string) : list string :=
  match fuel with
  | O => []
  | S fuel' =>
      d :: (let up := dirname d in
            if (String.eqb up d || String.eqb up EmptyString)%bool then []
            else ancestors_fuel fuel' up)
  end.

Definition ancestors (d : string) : list string :=
  ancestors_fuel (S (String.length d)) d.
Arguments ancestors : simpl never.

Definition is_file (f : gmap string node) (p : string) : bool :=
  match f !! p with
  | Some (File _) => true
  | _ => false
  end.

(** [os.makedirs(name, exist_ok=True)]: nothing to do when the directory
    is there; fails when the name or a directory above it is a regular
    file; otherwise creates every missing level. *)
Definition makedirs (name : string) : M unit :=
  fun s =>
    if String.eqb name EmptyString then (Raise FileNotFoundError, s)
    else
      match stat (fs s) name with
      | Some Dir => (Ok tt, s)
      | Some (File _) => (Raise FileExistsError, s)
      | None =>
          let levels := ancestors (strip_trailing name) in
          if existsb (is_file (fs s)) levels then (Raise NotADirectoryError, s)
          else (Ok tt, set_fs (foldr (fun d f => <[d := Dir]> f) (fs s) levels) s)
      end.

(** An open file object: the path it was opened on and its own position. *)
Record Handle : Type := mkHandle {
  h_path : string;
  h_pos : Z
}.

Definition log_open (p : string) : M unit :=
  fun s => (Ok tt, set_opened (opened s ++ [p]) s).

(** What [open] raises on a path that names nothing: a regular file
    where the path needs a directory (the file itself, when the path is
    spelled with a trailing slash) makes it [NotADirectoryError].  A
    path with a NUL character never reaches the file system (Python
    raises [ValueError] on it); such paths are excluded by [no_nul]
    where a property depends on it. *)
Definition missing_error (f : gmap string node) (p : string) : exn :=
  if existsb (is_file f) (ancestors (strip_trailing p)) then NotADirectoryError
  else FileNotFoundError.

(** [open(p, 'rb')] followed by reading the whole stream. *)
Definition open_read (p : string) : M (list byte) :=
  log_open p ;;
  fun s =>
    match stat (fs s) p with
    | Some (File c) => (Ok c, s)
    | Some Dir => (Raise IsADirectoryError, s)
    | None => (Raise (missing_error (fs s) p), s)
    end.

(** [open(p, 'wb')] and [open(p, 'w')]: create or empty the file. *)
Definition open_write (p : string) : M Handle :=
  log_open p ;;
  fun s =>
    if ends_with_slash p then
      (Raise (if is_file (fs s) (strip_trailing p) then NotADirectoryError
              else IsADirectoryError), s)
    else
      match fs s !! p with
      | Some Dir => (Raise IsADirectoryError, s)
      | _ =>
          match stat (fs s) (dirname p) with
          | Some Dir => (Ok (mkHandle p 0), set_fs (<[p := File []]> (fs s)) s)
          | Some (File _) => (Raise NotADirectoryError, s)
          | None => (Raise FileNotFoundError, s)
          end
      end.

(** [open(p, 'r+b')]: the file must exist; nothing is truncated. *)
Definition open_update (p : string) : M Handle :=
  log_open p ;;
  fun s =>
    match stat (fs s) p with
    | Some (File _) => (Ok (mkHandle p 0), s)
    | Some Dir => (Raise IsADirectoryError, s)
    | None => (Raise (missing_error (fs s) p), s)
    end.

(** [f.seek(pos)] *)
Definition f_seek (f : Handle) (pos : Z) : M Handle :=
  if pos <? 0 then raise OSError else ret (mkHandle (h_path f) pos).

(** [f.write(data)]: at the handle's position, which then advances. *)
Definition f_write (f : Handle) (data : list byte) : M Handle :=
  fun s =>
    match fs s !! h_path f with
    | Some (File old) =>
        (Ok (mkHandle (h_path f) (h_pos f + Z.of_nat (length data))),
         set_fs (<[h_path f := File (write_at old (Z.to_nat (h_pos f)) data)]> (fs s)) s)
    | _ => (Raise OSError, s)
    end.

(** [f.truncate(size)] *)
Definition f_truncate (f : Handle) (size : Z) : M unit :=
  fun s =>
    if size <? 0 then (Raise OSError, s)
    else
      match fs s !! h_path f with
      | Some (File old) =>
          (Ok tt, set_fs (<[h_path f := File (resize old (Z.to_nat size))]> (fs s)) s)
      | _ => (Raise OSError, s)
      end.

(** ** Network operations *)

Definition send (req : Request) : M Response :=
  fun s =>
    let s' := set_net (net s ++ [req]) s in
    match server s (net s) req with
    | Some resp => (Ok resp, s')
    | None => (Raise RequestException, s')
    end.

(** [requests.head(url)] *)
Definition requests_head (url : string) : M Response := send (HEAD url).

(** [requests.get(url, headers=..., stream=True)] *)
Definition requests_get (url : string) (byte_range : option (Z * Z)) : M Response :=
  send (GET url byte_range).

(** [int(response.headers.get('content-length', 0))] *)
Definition header_content_length (r : Response) : Z :=
  default 0 (content_length r).

(** [for chunk in response.iter_content(n): f.write(chunk)]: the
    delivered bytes are written piece by piece; a broken connection
    raises after them. *)
Definition write_stream (f : Handle) (r : Response) (n : nat) : M Handle :=
  f' <- for_each (pieces n (body r)) f f_write ;;
  if broken r then raise RequestException else ret f'.

(** ** Thread pools

    [ThreadPoolExecutor] is modelled by the schedule that runs the
    submitted tasks one after the other in submission order.  A task
    that raises stores the exception in its future and the next task
    still runs; [future.result()] returns the stored value or raises the
    stored exception.  Leaving the [with] block waits for all tasks,
    which in this schedule have already finished. *)

Definition thread_pool (max_workers : Z) : M unit :=
  if max_workers <=? 0 then raise (ValueError "max_workers must be greater than 0")
  else ret tt.

Fixpoint submit_all {A} (tasks : list (M A)) : M (list (result A)) :=
  match tasks with
  | [] => ret []
  | t :: ts =>
      fun s =>
        let (r, s') := t s in
        (futures <- submit_all ts ;; ret (r :: futures)) s'
  end.

Definition future_result {A} (future : result A) : M A := lift future.

(** [for future in futures: future.result()] *)
Definition wait_all {A} (futures : list (result A)) : M unit :=
  for_each futures tt (fun _ future => _ <- future_result future ;; ret tt).

(** ** [calculate_md5], lines 9-14

    The hash object accumulates what [update] is given; [hexdigest] is
    the digest of the accumulated bytes. *)
Definition calculate_md5 (file_path : string) : M string :=
  content <- open_read file_path ;;
  let hash_md5 :=
    fold_left (fun h chunk => h ++ chunk) (pieces 4096 content) [] in
  ret (md5_hexdigest hash_md5).

(** ** [download_chunk], lines 17-24 *)
Definition download_chunk (url : string) (start end_ : Z) (dest_path : string)
    (index : nat) : M nat :=
  response <- requests_get url (Some (start, end_)) ;;
  f <- open_update dest_path ;;
  f <- f_seek f start ;;
  _ <- write_stream f response 1024 ;;
  ret index.

(** ** [download_file_multi_connection], lines 27-43 *)
Definition download_file_multi_connection (url dest_path : string)
    (total_size num_connections : Z) : M unit :=
  chunks <- lift (make_chunks total_size num_connections) ;;
  f <- open_write dest_path ;;
  f_truncate f total_size ;;
  thread_pool num_connections ;;
  futures <- submit_all
    (imap (fun idx '(start, end_) => download_chunk url start end_ dest_path idx)
          chunks) ;;
  wait_all futures.

(** ** [download_and_verify_file], lines 46-83 *)

Definition append_failed (resource : Resource) : M unit :=
  fun s => (Ok tt, set_failed (failed_resources s ++ [resource]) s).

Definition dest_path_of (base_dir : string) (resource : Resource) : string :=
  path_join base_dir (lstrip_slash (dest resource)).

Definition url_of (main_url : string) (resource : Resource) : string :=
  main_url ++ "/" ++ lstrip_slash (dest resource).

(** Lines 62-64: the multi-connection branch. *)
Definition fetch_multi (url dest_path : string) (num_connections : Z) : M unit :=
  response <- requests_head url ;;
  let total_size := header_content_length response in
  download_file_multi_connection url dest_path total_size num_connections.

(** Lines 67-75: the single-connection branch. *)
Definition fetch_single (url dest_path : string) : M unit :=
  response <- requests_get url None ;;
  f <- open_write dest_path ;;
  _ <- write_stream f response 1024 ;;
  ret tt.

(** Lines 78-83: verify the file that is now at [dest_path]. *)
Definition verify_download (resource : Resource) (dest_path : string) : M bool :=
  downloaded_md5 <- calculate_md5 dest_path ;;
  if negb (String.eqb downloaded_md5 (md5 resource)) then
    append_failed resource ;;
    ret false
  else ret true.

(** Lines 54-58: is a valid copy already there? *)
Definition check_existing (resource : Resource) (dest_path : string) : M bool :=
  present <- path_exists dest_path ;;
  if present then
    existing_md5 <- calculate_md5 dest_path ;;
    ret (String.eqb existing_md5 (md5 resource))
  else ret false.

Definition download_and_verify_file (resource : Resource) (main_url base_dir : string)
    (use_multi_connection : bool) (num_connections : Z) : M bool :=
  let dest_path := dest_path_of base_dir resource in
  let url := url_of main_url resource in
  makedirs (dirname dest_path) ;;
  valid <- check_existing resource dest_path ;;
  if valid then ret true
  else
    (if use_multi_connection then fetch_multi url dest_path num_connections
     else fetch_single url dest_path) ;;
    verify_download resource dest_path.

(** ** JSON values and [json.dump(..., indent=4)] *)

Definition hex4 (n : Z) : string :=
  String (hex_digit (n / 4096 mod 16))
    (String (hex_digit (n / 256 mod 16))
       (String (hex_digit (n / 16 mod 16))
          (String (hex_digit (n mod 16)) EmptyString))).

(** One character of a string literal, with [ensure_ascii] escaping. *)
Definition json_escape_char (c : ascii) : string :=
  let n := Z.of_nat (nat_of_ascii c) in
  if n =? 34 then String "\"%char (String c EmptyString)
  else if n =? 92 then "\\"
  else if n =? 10 then "\n"
  else if n =? 13 then "\r"
  else if n =? 9 then "\t"
  else if n =? 8 then "\b"
  else if n =? 12 then "\f"
  else if (32 <=? n) && (n <=? 126) then String c EmptyString
  else "\u" ++ hex4 n.

Fixpoint json_escape (s : string) : string :=
  match s with
  | EmptyString => EmptyString
  | String c s' => json_escape_char c ++ json_escape s'
  end.

Definition json_quote (s : string) : string :=
  String (ascii_of_nat 34) (json_escape s) ++ String (ascii_of_nat 34) EmptyString.

Definition newline_indent (indent level : nat) : string :=
  String (ascii_of_nat 10) (string_of_list_ascii (replicate (indent * level) " "%char)).

Fixpoint join_strings (sep : string) (l : list string) : string :=
  match l with
  | [] => EmptyString
  | [x] => x
  | x :: rest => x ++ sep ++ join_strings sep rest
  end.

Fixpoint json_dumps (indent level : nat) (j : json) : string :=
  match j with
  | JNull => "null"%string
  | JBool true => "true"%string
  | JBool false => "false"%string
  | JInt z => pretty z
  | JString s => json_quote s
  | JArray [] => "[]"%string
  | JArray items =>
      ("[" ++ newline_indent indent (S level)
           ++ join_strings ("," ++ newline_indent indent (S level))
                (map (json_dumps indent (S level)) items)
           ++ newline_indent indent level ++ "]")%string
  | JObject [] => "{}"%string
  | JObject members =>
      ("{" ++ newline_indent indent (S level)
           ++ join_strings ("," ++ newline_indent indent (S level))
                (map (fun kv : string * json => let (k, v) := kv in
                                json_quote k ++ ": " ++ json_dumps indent (S level) v)
                     members)
           ++ newline_indent indent level ++ "}")%string
  end.

Definition resource_json (r : Resource) : json := JObject (entry r).

(** The text [json.dump({'resource': failed_resources}, f, indent=4)]
    writes. *)
Definition failure_report (failed : list Resource) : string :=
  json_dumps 4 0 (JObject [("resource"%string, JArray (map resource_json failed))]).

(** ** [download_resources], lines 86-114 *)

Definition getcwd : M string := fun s => (Ok (cwd s), s).

Definition base_dir_of (cwd_ version : string) : string :=
  path_join (path_join cwd_ "download") version.

Definition failed_dir_of (cwd_ version : string) : string :=
  path_join (path_join cwd_ "failed") version.

(** Lines 97-107: submit one task per resource, then collect. *)
Definition run_batch (resources : list Resource) (main_url base_dir : string)
    (use_multi_connection : bool) (num_connections max_concurrent_files : Z)
    : M (list (result bool)) :=
  thread_pool max_concurrent_files ;;
  futures <- submit_all
    (map (fun resource =>
            download_and_verify_file resource main_url base_dir
              use_multi_connection num_connections)
         resources) ;;
  wait_all futures ;;
  ret futures.

(** Lines 110-114. *)
Definition write_failure_report (failed_dir json_name : string) : M unit :=
  fun s =>
    match failed_resources s with
    | [] => (Ok tt, s)
    | failed =>
        (f <- open_write (path_join failed_dir json_name) ;;
         _ <- f_write f (list_byte_of_string (failure_report failed)) ;;
         ret tt) s
    end.

Definition download_resources (resources : list Resource)
    (main_url version json_name : string) (use_multi_connection : bool)
    (num_connections max_concurrent_files : Z) : M unit :=
  cwd_ <- getcwd ;;
  let base_dir := base_dir_of cwd_ version in
  let failed_dir := failed_dir_of cwd_ version in
  makedirs failed_dir ;;
  (fun s => (Ok tt, set_failed [] s)) ;;
  _ <- run_batch resources main_url base_dir use_multi_connection
         num_connections max_concurrent_files ;;
  write_failure_report failed_dir json_name.

(** ** [load_resources], lines 116-124 *)

(** Python truthiness of an optional string argument: [None] and the
    empty string are both false. *)
Definition provided (a : option string) : bool :=
  match a with
  | Some (String _ _) => true
  | _ => false
  end.

Section Loader.

(** [json.loads]: the parser of the [json] module. *)
Variable json_loads : list byte -> option json.

Definition parse_json (text : list byte) : M json :=
  match json_loads text with
  | Some j => ret j
  | None => raise JSONDecodeError
  end.

Definition load_resources (json_url json_file : option string)
    : M (json * string) :=
  if provided json_url then
    let url := default EmptyString json_url in
    response <- requests_get url None ;;
    (if broken response then raise RequestException else ret tt) ;;
    j <- parse_json (body response) ;;
    ret (j, basename url)
  else if provided json_file then
    let file := default EmptyString json_file in
    text <- open_read file ;;
    j <- parse_json text ;;
    ret (j, basename file)
  else raise (ValueError "Either json_url or json_file must be provided.").

End Loader.

(** ** Vocabulary for the properties *)

(** The final state of a computation is related to its initial state by
    [R], whatever the computation returns or raises. *)
Definition preserves (R : State -> State -> Prop) {A} (m : M A) : Prop :=
  forall s, R s (m s).2.

(** A step that works on the file at [p]: the environment and the failure
    list stay, directories stay directories, and regular files other
    than [p] keep their content. *)
Record touches_only (p : string) (s s' : State) : Prop := mkTouches {
  to_cwd : cwd s' = cwd s;
  to_server : server s' = server s;
  to_failed : failed_resources s' = failed_resources s;
  to_dirs : forall q, fs s !! q = Some Dir -> fs s' !! q = Some Dir;
  to_files : forall q c, q <> p -> fs s !! q = Some (File c) -> fs s' !! q = Some (File c)
}.

(** The digest of the file stored for [r] is the expected one. *)
Definition digest_matches (base_dir : string) (s : State) (r : Resource) : bool :=
  match stat (fs s) (dest_path_of base_dir r) with
  | Some (File c) => String.eqb (md5_hexdigest c) (md5 r)
  | _ => false
  end.

(** The three terminal outcomes of the orchestrator, read off what a
    call returned and whether it sent any request: True without a request
    is Skipped, True after a fetch is Succeeded, False is Failed.  A call
    that raised has no outcome. *)
Inductive Outcome : Type := Skipped | Succeeded | Failed.

Definition outcome (s s' : State) (res : result bool) : option Outcome :=
  match res with
  | Ok true =>
      Some (if (length (net s') =? length (net s))%nat then Skipped else Succeeded)
  | Ok false => Some Failed
  | Raise _ => None
  end.

(** The task submitted for one resource on lines 99-101. *)
Definition file_task (main_url base_dir : string) (multi : bool) (n : Z)
    (r : Resource) : M bool :=
  download_and_verify_file r main_url base_dir multi n.

(** The resources whose future holds False. *)
Fixpoint reported (rs : list Resource) (futures : list (result bool)) : list Resource :=
  match rs, futures with
  | r :: rs', Ok false :: futures' => r :: reported rs' futures'
  | _ :: rs', _ :: futures' => reported rs' futures'
  | _, _ => []
  end.

(** What a future says about the file of its resource in state [s]. *)
Definition future_agrees (base_dir : string) (s : State) (r : Resource)
    (future : result bool) : Prop :=
  match future with
  | Ok b =>
      digest_matches base_dir s r = b /\
      stat (fs s) (dirname (dest_path_of base_dir r)) = Some Dir
  | Raise _ => True
  end.

(** The exception [for future in futures: future.result()] raises: the
    first one stored, if any. *)
Fixpoint first_raise {A} (futures : list (result A)) : option exn :=
  match futures with
  | [] => None
  | Ok _ :: futures' => first_raise futures'
  | Raise e :: _ => Some e
  end.


(** A plain file name: no slash in it. *)
Fixpoint no_slash (s : string) : bool :=
  match s with
  | EmptyString => true
  | String c s' => negb (is_slash c) && no_slash s'
  end.

(** ** Chunk workers under any interleaving

    The sequential schedule above hides how the chunk workers of one file
    share the destination.  Here the workers of
    [download_file_multi_connection] advance one file operation at a
    time, in any order.  Every [open] creates a file object of its own,
    with its own position; the table [p_handles] holds the positions of
    the file objects that are currently open. *)

Inductive FileEvent : Type :=
  | EvOpen (worker handle : nat)
  | EvSeek (worker handle : nat) (pos : Z)
  | EvWrite (worker handle : nat) (pos : Z) (data : list byte)
  | EvClose (worker handle : nat).

Record Pool : Type := mkPool {
  p_content : list byte;
  p_handles : gmap nat Z;
  p_next : nat;
  p_trace : list FileEvent
}.

(** Where one [download_chunk] call stands: the response has arrived
    (line 19), the file is open (line 20), the position is set (line 21)
    and pieces are being written (lines 22-23), the file is closed. *)
Inductive Worker : Type :=
  | WStart (start : Z) (body : list byte)
  | WOpened (handle : nat) (start : Z) (body : list byte)
  | WWriting (handle : nat) (todo : list (list byte))
  | WDone.

(** The next file operation of worker [i]. *)
Definition step_worker (i : nat) (w : Worker) (p : Pool) : Worker * Pool :=
  match w with
  | WStart start body =>
      let h := p_next p in
      (WOpened h start body,
       mkPool (p_content p) (<[h := 0]> (p_handles p)) (S h)
              (p_trace p ++ [EvOpen i h]))
  | WOpened h start body =>
      (WWriting h (pieces 1024 body),
       mkPool (p_content p) (<[h := start]> (p_handles p)) (p_next p)
              (p_trace p ++ [EvSeek i h start]))
  | WWriting h (data :: todo) =>
      let pos := default 0 (p_handles p !! h) in
      (WWriting h todo,
       mkPool (write_at (p_content p) (Z.to_nat pos) data)
              (<[h := pos + Z.of_nat (length data)]> (p_handles p)) (p_next p)
              (p_trace p ++ [EvWrite i h pos data]))
  | WWriting h [] =>
      (WDone,
       mkPool (p_content p) (delete h (p_handles p)) (p_next p)
              (p_trace p ++ [EvClose i h]))
  | WDone => (WDone, p)
  end.

Record Sys : Type := mkSys {
  workers : list Worker;
  pool : Pool
}.

(** The scheduler lets worker [i] take its next step. *)
Definition step (sys : Sys) (i : nat) : Sys :=
  match workers sys !! i with
  | Some w =>
      let (w', p') := step_worker i w (pool sys) in
      mkSys (<[i := w']> (workers sys)) p'
  | None => sys
  end.

Definition run_schedule (schedule : list nat) (sys : Sys) : Sys :=
  fold_left step schedule sys.

(** The workers submitted on lines 38-41, one per range with the body
    its request received, over the file pre-sized on lines 33-34. *)
Definition start_workers (total_size : Z) (jobs : list (Z * list byte)) : Sys :=
  mkSys (map (fun job => WStart (fst job) (snd job)) jobs)
        (mkPool (resize [] (Z.to_nat total_size)) ∅ 0 []).

(** The writes of worker [i] in a trace, in order. *)
Fixpoint writes_of (i : nat) (trace : list FileEvent) : list (Z * list byte) :=
  match trace with
  | [] => []
  | EvWrite j _ pos data :: rest =>
      if Nat.eqb i j then (pos, data) :: writes_of i rest else writes_of i rest
  | _ :: rest => writes_of i rest
  end.

(** The writes a worker makes when it runs alone: piece after piece from
    its range start. *)
Fixpoint expected_writes (start : Z) (todo : list (list byte)) : list (Z * list byte) :=
  match todo with
  | [] => []
  | data :: rest =>
      (start, data) :: expected_writes (start + Z.of_nat (length data)) rest
  end.

(** The claim that all writes go through one file object. *)
Definition one_shared_handle (trace : list FileEvent) : Prop :=
  exists h, forall i h' pos data, EvWrite i h' pos data ∈ trace -> h' = h.

Definition event_handle (ev : FileEvent) : nat :=
  match ev with
  | EvOpen _ h | EvSeek _ h _ | EvWrite _ h _ _ | EvClose _ h => h
  end.

Definition event_worker (ev : FileEvent) : nat :=
  match ev with
  | EvOpen i _ | EvSeek i _ _ | EvWrite i _ _ _ | EvClose i _ => i
  end.

Definition is_open_event (ev : FileEvent) : bool :=
  match ev with
  | EvOpen _ _ => true
  | _ => false
  end.

(** What is known of worker [i], started on the range beginning at
    [start] with response [body], at each point of its program. *)
Definition worker_ok (start : Z) (body : list byte) (i : nat) (w : Worker)
    (p : Pool) : Prop :=
  match w with
  | WStart s b =>
      s = start /\ b = body /\ writes_of i (p_trace p) = []
  | WOpened h s b =>
      s = start /\ b = body /\ writes_of i (p_trace p) = [] /\
      EvOpen i h ∈ p_trace p
  | WWriting h todo =>
      exists written,
        pieces 1024 body = written ++ todo /\
        writes_of i (p_trace p) = expected_writes start written /\
        p_handles p !! h = Some (start + Z.of_nat (length (concat written))) /\
        EvOpen i h ∈ p_trace p
  | WDone =>
      writes_of i (p_trace p) = expected_writes start (pieces 1024 body)
  end.

(** The invariant of the pool of chunk workers started on [jobs]. *)
Record pool_inv (jobs : list (Z * list byte)) (sys : Sys) : Prop := mkPoolInv {
  inv_len : length (workers sys) = length jobs;
  inv_fresh :
    forall ev, ev ∈ p_trace (pool sys) -> (event_handle ev < p_next (pool sys))%nat;
  inv_owner :
    forall i h pos data,
      EvWrite i h pos data ∈ p_trace (pool sys) -> EvOpen i h ∈ p_trace (pool sys);
  inv_unique :
    forall i j h,
      EvOpen i h ∈ p_trace (pool sys) -> EvOpen j h ∈ p_trace (pool sys) -> i = j;
  inv_workers :
    forall i job w,
      jobs !! i = Some job -> workers sys !! i = Some w ->
      worker_ok (fst job) (snd job) i w (pool sys)
}.

(** ** Scenarios *)

Module Scenario.

Definition main_url : string := "http://host/zip".
Definition version : string := "1.0".
Definition json_name : string := "catalog.json".
Definition base_dir : string := "/work/download/1.0".
Definition report_path : string := "/work/failed/1.0/catalog.json".

(** [n] bytes 0x41. *)
Definition letters (n : nat) : list byte := replicate n x41.

(** The catalog entry of section 8 of the specification: ten bytes 0x41. *)
Definition a_bin : Resource :=
  mkResource "a.bin" "16c52c6e8326c071da771e66dc6e9e57".

(** A file whose last byte is zero. *)
Definition z_content : list byte := letters 9 ++ [x00].
Definition z_bin : Resource := mkResource "z.bin" (md5_hexdigest z_content).

(** A server for a ten-byte file fetched as [0,4] and [5,9]; [tail] is
    what it sends for the second range. *)
Definition range_server (tail : list byte) (_ : list Request) (req : Request)
    : option Response :=
  match req with
  | HEAD _ => Some (mkResponse (Some 10) [] false)
  | GET _ (Some (0, 4)) => Some (mkResponse (Some 5) (letters 5) false)
  | GET _ (Some (5, 9)) => Some (mkResponse (Some (Z.of_nat (length tail))) tail false)
  | GET _ _ => Some (mkResponse (Some 10) (letters 5 ++ tail) false)
  end.

(** A server that cannot be reached. *)
Definition unreachable (_ : list Request) (_ : Request) : option Response := None.

(** A server that knows one URL and is unreachable for the others. *)
Definition one_file_server (url : string) (content : list byte)
    (_ : list Request) (req : Request) : option Response :=
  match req with
  | GET u None =>
      if String.eqb u url
      then Some (mkResponse (Some (Z.of_nat (length content))) content false)
      else None
  | _ => None
  end.

(** A server whose [HEAD] answer has no content-length and whose range
    answers are empty. *)
Definition no_length_server (_ : list Request) (req : Request) : option Response :=
  match req with
  | HEAD _ => Some (mkResponse None [] false)
  | GET _ _ => Some (mkResponse (Some 0) [] false)
  end.

(** A working directory with nothing downloaded yet. *)
Definition fresh (srv : list Request -> Request -> option Response) : State :=
  mkState "/work" srv {[ "/work"%string := Dir ]} [] [] [].

(** A working directory in which [r] is already stored with [content]. *)
Definition stored (srv : list Request -> Request -> option Response)
    (r : Resource) (content : list byte) : State :=
  mkState "/work" srv
    (<[ dest_path_of base_dir r := File content ]>
       (<[ base_dir := Dir ]> {[ "/work/failed/1.0"%string := Dir ]}))
    [] [] [].

(** A catalog entry for an empty file. *)
Definition empty_bin : Resource :=
  mkResource "e.bin" "d41d8cd98f00b204e9800998ecf8427e".

(** A stand-in for the JSON parser: it rejects the empty text and wraps
    any other text in a string value. *)
Definition sample_loads (text : list byte) : option json :=
  match text with
  | [] => None
  | _ => Some (JString (string_of_list_byte text))
  end.

(** The two chunk workers of the ten-byte file, with full responses, and
    a schedule that alternates between them. *)
Definition two_jobs : list (Z * list byte) := [(0, letters 5); (5, letters 5)].
Definition alternating : list nat := [0; 1; 0; 1; 0; 1; 0; 1]%nat.

Definition wrong : Resource := mkResource "b.bin" "00000000000000000000000000000000".
Definition gone : Resource := mkResource "c.bin" "11111111111111111111111111111111".

End Scenario.

(** ** Vocabulary for further properties *)

(** The bytes [start .. end_] of [content], as a server that honours
    [Range: bytes=start-end_] sends them. *)
Definition slice (content : list byte) (start end_ : Z) : list byte :=
  take (Z.to_nat (end_ - start + 1)) (drop (Z.to_nat start) content).

(** What a file holds after a response body has been streamed into it
    from offset [pos]: an empty body yields no piece and no write. *)
Definition stream_written (old : list byte) (pos : nat) (body : list byte) : list byte :=
  match body with
  | [] => old
  | _ => write_at old pos body
  end.

(** The server holds [content] at [url]: it answers range requests with
    the requested bytes, a plain [GET] with all of them, and [HEAD] with
    the length, whatever was requested before. *)
Definition serves_ranges (srv : list Request -> Request -> option Response)
    (url : string) (content : list byte) : Prop :=
  forall hist start end_,
    exists cl, srv hist (GET url (Some (start, end_)))
               = Some (mkResponse cl (slice content start end_) false).

Definition serves_whole (srv : list Request -> Request -> option Response)
    (url : string) (content : list byte) : Prop :=
  forall hist, exists cl, srv hist (GET url None) = Some (mkResponse cl content false).

Definition serves_length (srv : list Request -> Request -> option Response)
    (url : string) (content : list byte) : Prop :=
  forall hist,
    exists body brk,
      srv hist (HEAD url)
        = Some (mkResponse (Some (Z.of_nat (length content))) body brk).

(** Ranges that follow one another from offset [a] up to the end of a
    file of [total] bytes. *)
Fixpoint chain (a : Z) (cs : list (Z * Z)) (total : Z) : Prop :=
  match cs with
  | [] => a = total
  | c :: rest =>
      fst c = a /\ a <= snd c + 1 /\ snd c + 1 <= total /\ chain (snd c + 1) rest total
  end.

(** [open(p, 'wb')] will succeed on [p]. *)
Definition writable (f : gmap string node) (p : string) : Prop :=
  ends_with_slash p = false /\ f !! p <> Some Dir /\ stat f (dirname p) = Some Dir.

(** The request log and the server are left alone. *)
Definition same_net (s s' : State) : Prop :=
  net s' = net s /\ server s' = server s.

(** A server that holds one file and answers every request for it
    correctly, whatever the URL. *)
Definition honest_server (content : list byte) (_ : list Request) (req : Request)
    : option Response :=
  match req with
  | HEAD _ => Some (mkResponse (Some (Z.of_nat (length content))) [] false)
  | GET _ None => Some (mkResponse (Some (Z.of_nat (length content))) content false)
  | GET _ (Some (start, end_)) => Some (mkResponse None (slice content start end_) false)
  end.

(** A server that refuses the first range of a file and is honest about
    everything else. *)
Definition first_range_fails (content : list byte) (hist : list Request) (req : Request)
    : option Response :=
  match req with
  | GET _ (Some (0, _)) => None
  | _ => honest_server content hist req
  end.

(** The text [hexdigest] can return: 32 lower-case hexadecimal digits. *)
Definition is_lower_hex (c : ascii) : bool :=
  let n := nat_of_ascii c in
  ((48 <=? n) && (n <=? 57) || (97 <=? n) && (n <=? 102))%nat.

Fixpoint all_lower_hex (s : string) : bool :=
  match s with
  | EmptyString => true
  | String c s' => is_lower_hex c && all_lower_hex s'
  end.

Definition hexdigest_shaped (s : string) : bool :=
  (String.length s =? 32)%nat && all_lower_hex s.

(** The regular file at [q], if there is one, keeps its content, and
    directories stay directories. *)
Definition keeps (q : string) (s s' : State) : Prop :=
  (forall c, fs s !! q = Some (File c) -> fs s' !! q = Some (File c)) /\
  (forall d, fs s !! d = Some Dir -> fs s' !! d = Some Dir).

(** A line feed or a printable ASCII character, and a text made of
    them. *)
Definition is_plain_char (c : ascii) : bool :=
  Ascii.eqb c "010" || ((32 <=? nat_of_ascii c)%nat && (nat_of_ascii c <=? 126)%nat).

Fixpoint plain_text (s : string) : bool :=
  match s with
  | EmptyString => true
  | String c s' => is_plain_char c && plain_text s'
  end.

(** A destination that can be created together with its directories:
    it is not written as a directory, no directory stands at it, and no
    regular file stands where one of its directories has to be. *)
Definition creatable (f : gmap string node) (p : string) : Prop :=
  ends_with_slash p = false /\ f !! p <> Some Dir /\ dirname p <> EmptyString /\
  existsb (is_file f) (ancestors (strip_trailing (dirname p))) = false.

(** No path of the list is one of the directories that a path of the
    list lies in. *)
Definition no_clash (paths : list string) : Prop :=
  Forall (fun p =>
            Forall (fun q => p ∉ ancestors (strip_trailing (dirname q))) paths)
         paths.

(** The server holds [content] at [url], for the requests of the mode. *)
Definition holds (srv : list Request -> Request -> option Response) (multi : bool)
    (url : string) (content : list byte) : Prop :=
  if multi then serves_length srv url content /\ serves_ranges srv url content
  else serves_whole srv url content.

(** ** Paths on which the model is exact

    The file system is keyed by paths as they are spelled.  On a
    case-sensitive file system without links this is exact for absolute
    paths in normal form (what [os.path.normpath] returns): two of them
    are one file exactly when they are one text.  Other spellings
    ([a/./b], [a//b], [a/../b], a trailing slash) reach files of other
    names, so properties that tell files apart by their paths ask for
    normal form. *)

(** No NUL character: [open] and the [os] functions raise [ValueError]
    on any other text before they look at the file system. *)
Fixpoint no_nul (s : string) : bool :=
  match s with
  | EmptyString => true
  | String c s' => negb (Ascii.eqb c "000") && no_nul s'
  end.

(** The texts between the slashes of a path. *)
Fixpoint split_slash (s : string) : list string :=
  match s with
  | EmptyString => [EmptyString]
  | String c s' =>
      if is_slash c then EmptyString :: split_slash s'
      else match split_slash s' with
           | x :: xs => String c x :: xs
           | [] => [String c EmptyString]
           end
  end.

(** A file name: not empty, not [.] or [..], without NUL. *)
Definition proper_name (x : string) : bool :=
  negb (String.eqb x EmptyString) && negb (String.eqb x ".")
  && negb (String.eqb x "..") && no_nul x.

(** An absolute path in normal form: a slash, then file names separated
    by single slashes. *)
Definition normal_path (p : string) : bool :=
  match split_slash p with
  | EmptyString :: x :: xs => forallb proper_name (x :: xs)
  | _ => false
  end.

(** ** Servers whose range answers do not depend on the history *)




(** ** The text of a report *)

(** The double quote character, as a text. *)
Definition dq : string := String (ascii_of_nat 34) EmptyString.


(** * Properties *)

(** ** The byte-range partition *)

Example make_chunks_10_2 : make_chunks 10 2 = Ok [(0, 4); (5, 9)].
Proof. reflexivity. Qed.

Example make_chunks_10_3 : make_chunks 10 3 = Ok [(0, 2); (3, 5); (6, 9)].
Proof. reflexivity. Qed.

Example make_chunks_1_2 : make_chunks 1 2 = Ok [(0, -1); (0, 0)].
Proof. reflexivity. Qed.

Example make_chunks_0_2 : make_chunks 0 2 = Ok [(0, -1); (0, -1)].
Proof. reflexivity. Qed.

Example make_chunks_div0 : make_chunks 10 0 = Raise ZeroDivisionError.
Proof. reflexivity. Qed.

Example make_chunks_neg : make_chunks 10 (-1) = Raise IndexError.
Proof. reflexivity. Qed.

Lemma range_lookup (n : Z) (i : nat) :
  range n !! i = if decide (i < Z.to_nat n)%nat then Some (Z.of_nat i) else None.
Proof.
  unfold range. rewrite list_lookup_fmap.
  case_decide as Hi.
  - rewrite lookup_seq_lt by done. reflexivity.
  - rewrite lookup_seq_ge by lia. reflexivity.
Qed.

Lemma range_length (n : Z) : length (range n) = Z.to_nat n.
Proof. unfold range. by rewrite length_map, length_seq. Qed.

Lemma set_last_end_None (cs : list (Z * Z)) (e : Z) :
  set_last_end cs e = None <-> cs = [].
Proof.
  induction cs as [|c [|c' rest] IH]; simpl in *; [done | done |].
  destruct (match rest with [] => _ | _ => _ end) eqn:E; simpl.
  - split; [done | done].
  - destruct IH as [IH _]. by specialize (IH eq_refl).
Qed.

Lemma set_last_end_spec (cs cs' : list (Z * Z)) (e : Z) :
  set_last_end cs e = Some cs' ->
  length cs' = length cs /\
  forall i : nat,
    cs' !! i =
      if decide (S i = length cs) then (fun c => (fst c, e)) <$> cs !! i
      else cs !! i.
Proof.
  revert cs'. induction cs as [|c [|c' rest] IH]; intros cs' H.
  - done.
  - simpl in H. injection H as <-. split; [done |].
    intros [|i]; simpl; done.
  - change (set_last_end (c :: c' :: rest) e)
      with (option_map (cons c) (set_last_end (c' :: rest) e)) in H.
    destruct (set_last_end (c' :: rest) e) as [r|] eqn:E; [| done].
    injection H as <-. destruct (IH r eq_refl) as [Hl Hi].
    split; [simpl in *; lia |].
    intros [|i].
    + simpl. done.
    + change ((c :: r) !! S i) with (r !! i). rewrite Hi.
      change ((c :: c' :: rest) !! S i) with ((c' :: rest) !! i).
      simpl length. repeat case_decide; try lia; done.
Qed.

Lemma contiguous_lookup (cs : list (Z * Z)) :
  contiguous cs <->
  forall (i : nat) c1 c2,
    cs !! i = Some c1 -> cs !! S i = Some c2 -> fst c2 = snd c1 + 1.
Proof.
  induction cs as [|c1 [|c2 rest] IH].
  - split; [intros _ i c1 c2 H; done | done].
  - split; [intros _ [|i] a b Ha Hb; done | done].
  - change (contiguous (c1 :: c2 :: rest))
      with (fst c2 = snd c1 + 1 /\ contiguous (c2 :: rest)).
    rewrite IH. split.
    + intros [H0 Hr] [|i] a b Ha Hb.
      * simpl in Ha, Hb. by simplify_eq.
      * exact (Hr i a b Ha Hb).
    + intros H. split.
      * exact (H 0%nat c1 c2 eq_refl eq_refl).
      * intros i a b Ha Hb. exact (H (S i) a b Ha Hb).
Qed.

(** In a contiguous list of well-formed ranges a later range starts
    strictly after every earlier one ends. *)
Lemma contiguous_later (cs : list (Z * Z)) :
  contiguous cs -> Forall well_formed cs ->
  forall (d i : nat) ci cj,
    cs !! i = Some ci -> cs !! (i + S d)%nat = Some cj ->
    snd ci + 1 <= fst cj.
Proof.
  rewrite contiguous_lookup. intros Hc Hwf.
  induction d as [|d IH]; intros i ci cj Hi Hj.
  - replace (i + 1)%nat with (S i) in Hj by lia.
    rewrite (Hc i ci cj Hi Hj). lia.
  - replace (i + S (S d))%nat with (S (i + S d)) in Hj by lia.
    destruct (cs !! (i + S d)%nat) as [ck|] eqn:Hk.
    + specialize (IH i ci ck Hi Hk).
      pose proof (Hc _ _ _ Hk Hj) as Hstep.
      assert (well_formed ck) as Hw.
      { eapply Forall_lookup_1; eauto. }
      unfold well_formed in Hw. lia.
    + apply lookup_ge_None in Hk. apply lookup_lt_Some in Hj. lia.
Qed.

Lemma contiguous_disjoint (cs : list (Z * Z)) :
  contiguous cs -> Forall well_formed cs -> pairwise_disjoint cs.
Proof.
  intros Hc Hwf i j c1 c2 b H1 H2 Hne [Ha Hb] [Hc' Hd].
  destruct (decide (i < j)%nat) as [Hlt|Hge].
  - replace j with (i + S (j - i - 1))%nat in H2 by lia.
    pose proof (contiguous_later cs Hc Hwf _ _ _ _ H1 H2). lia.
  - assert (j < i)%nat as Hlt by lia.
    replace i with (j + S (i - j - 1))%nat in H1 by lia.
    pose proof (contiguous_later cs Hc Hwf _ _ _ _ H2 H1). lia.
Qed.

Lemma last_cons_default {A} (x d : A) (l : list A) :
  List.last (x :: l) d = List.last l x.
Proof.
  revert x d. induction l as [|y l IH]; intros x d; [done |].
  change (List.last (x :: y :: l) d) with (List.last (y :: l) d).
  by rewrite (IH y d), (IH y x).
Qed.

Lemma contiguous_covers (c0 : Z * Z) (cs : list (Z * Z)) :
  contiguous (c0 :: cs) -> Forall well_formed (c0 :: cs) ->
  covers (c0 :: cs) (fst c0) (snd (List.last cs c0)).
Proof.
  revert c0. induction cs as [|c1 rest IH]; intros c0 Hc Hwf b.
  - simpl. split.
    + intros Hb. exists c0. split; [apply list_elem_of_here | exact Hb].
    + intros (c & Hin & Hb). apply list_elem_of_singleton in Hin. by subst.
  - destruct Hc as [Hstep Hc]. inversion Hwf as [|? ? Hw0 Hwf']; subst.
    specialize (IH c1 Hc Hwf' b).
    rewrite last_cons_default.
    assert (fst c1 <= snd (List.last rest c1) + 1) as Hspan.
    { clear -Hc Hwf'. revert c1 Hc Hwf'.
      induction rest as [|c2 r IHr]; intros c1 Hc Hwf'.
      - simpl. by inversion Hwf'.
      - destruct Hc as [Hs Hc]. inversion Hwf' as [|? ? Hw1 Hwf'']; subst.
        specialize (IHr c2 Hc Hwf'').
        rewrite last_cons_default.
        unfold well_formed in Hw1. lia. }
    unfold well_formed in Hw0. split.
    + intros Hb. destruct (decide (b <= snd c0)) as [Hle|Hgt].
      * exists c0. split; [apply list_elem_of_here | unfold in_range; lia].
      * destruct IH as [IH _]. destruct IH as (c & Hin & Hbc); [lia |].
        exists c. split; [by apply list_elem_of_further | done].
    + intros (c & Hin & Hbc). apply elem_of_cons in Hin as [->|Hin].
      * unfold in_range in Hbc. lia.
      * destruct IH as [_ IH]. specialize (IH (ex_intro _ c (conj Hin Hbc))). lia.
Qed.

(** The list built on lines 28-30, position by position. *)
Lemma make_chunks_lookup (T N : Z) :
  0 < N ->
  exists cs,
    make_chunks T N = Ok cs /\
    length cs = Z.to_nat N /\
    forall i : nat,
      (i < Z.to_nat N)%nat ->
      cs !! i =
        Some (Z.of_nat i * (T / N),
              if decide (S i = Z.to_nat N) then T - 1
              else (Z.of_nat i + 1) * (T / N) - 1).
Proof.
  intros HN. unfold make_chunks.
  destruct (Z.eqb_spec N 0) as [?|_]; [lia |].
  set (chunks := map _ (range N)).
  assert (length chunks = Z.to_nat N) as Hlen.
  { unfold chunks. by rewrite length_map, range_length. }
  destruct (set_last_end chunks (T - 1)) as [cs|] eqn:Hs.
  - destruct (set_last_end_spec _ _ _ Hs) as [Hl Hi].
    exists cs. split; [done |]. split; [lia |].
    intros i Hlt. rewrite Hi, Hlen. unfold chunks.
    rewrite list_lookup_fmap, range_lookup.
    repeat case_decide; try lia; done.
  - apply set_last_end_None in Hs. rewrite Hs in Hlen. simpl in Hlen. lia.
Qed.

Lemma last_default_lookup {A} (x : A) (l : list A) :
  (x :: l) !! length l = Some (List.last l x).
Proof.
  revert x. induction l as [|y l IH]; intros x; [done |].
  rewrite last_cons_default. exact (IH y).
Qed.

(** C1.  For T > 0 and N > 0 the ranges computed on lines 28-30 are N
    well-formed ranges that are contiguous and pairwise disjoint, whose
    union is exactly [0, T-1], and the last of which ends at T-1. *)
Theorem partition_property (T N : Z) :
  0 < T -> 0 < N ->
  exists cs,
    make_chunks T N = Ok cs /\
    length cs = Z.to_nat N /\
    (forall i : nat, (i < Z.to_nat N)%nat ->
       cs !! i = Some (Z.of_nat i * (T / N),
                       if decide (S i = Z.to_nat N) then T - 1
                       else (Z.of_nat i + 1) * (T / N) - 1)) /\
    contiguous cs /\
    pairwise_disjoint cs /\
    covers cs 0 (T - 1) /\
    snd <$> last cs = Some (T - 1).
Proof.
  intros HT HN.
  destruct (make_chunks_lookup T N HN) as (cs & Hmk & Hlen & Hlk).
  exists cs. split; [done |]. split; [done |]. split; [done |].
  assert (0 <= T / N) as Hq by (apply Z.div_pos; lia).
  assert (N * (T / N) <= T) as Hle by (apply Z.mul_div_le; lia).
  assert (Forall well_formed cs) as Hwf.
  { apply Forall_lookup. intros i c Hc.
    pose proof (lookup_lt_Some _ _ _ Hc) as Hi. rewrite Hlen in Hi.
    rewrite (Hlk i Hi) in Hc. injection Hc as <-.
    unfold well_formed. simpl. case_decide; nia. }
  assert (contiguous cs) as Hcont.
  { apply contiguous_lookup. intros i c1 c2 H1 H2.
    pose proof (lookup_lt_Some _ _ _ H2) as Hi. rewrite Hlen in Hi.
    rewrite (Hlk i) in H1 by lia. rewrite (Hlk (S i) Hi) in H2.
    injection H1 as <-. injection H2 as <-. simpl.
    rewrite decide_False by lia. lia. }
  split; [done |]. split; [by apply contiguous_disjoint |].
  destruct cs as [|c0 rest]; [simpl in Hlen; lia |].
  assert (fst c0 = 0) as H0.
  { pose proof (Hlk 0%nat ltac:(lia)) as H. simpl in H.
    injection H as ->. simpl. lia. }
  assert ((c0 :: rest) !! length rest = Some (List.last rest c0)) as Hlast
    by apply last_default_lookup.
  assert (snd (List.last rest c0) = T - 1) as Hend.
  { rewrite (Hlk (length rest)) in Hlast by (simpl in Hlen; lia).
    injection Hlast as <-. simpl.
    rewrite decide_True by (simpl in Hlen; lia). done. }
  split.
  - rewrite <- H0, <- Hend. by apply contiguous_covers.
  - rewrite last_lookup. simpl length. simpl Init.Nat.pred.
    rewrite Hlast. simpl. by rewrite Hend.
Qed.

Lemma partition_property_witness :
  exists cs, make_chunks 10 3 = Ok cs /\ covers cs 0 9.
Proof.
  destruct (partition_property 10 3 ltac:(lia) ltac:(lia))
    as (cs & H & _ & _ & _ & _ & Hc & _).
  exists cs. split; [exact H | exact Hc].
Defined.

(** ** MD5 test vectors (RFC 1321, appendix A.5) *)

Example md5_empty : md5_hexdigest [] = "d41d8cd98f00b204e9800998ecf8427e"%string.
Proof. vm_compute. reflexivity. Qed.

Example md5_abc :
  md5_hexdigest (list_byte_of_string "abc") = "900150983cd24fb0d6963f7d28e17f72"%string.
Proof. vm_compute. reflexivity. Qed.

Example md5_two_blocks :
  md5_hexdigest
    (list_byte_of_string
       "12345678901234567890123456789012345678901234567890123456789012345678901234567890")
  = "57edf4a22be3c955ac49da2e2107b67a"%string.
Proof. vm_compute. reflexivity. Qed.

(** ** Paths *)

Lemma rstrip_slash_id (p : string) :
  ends_with_slash p = false -> rstrip_slash p = p.
Proof.
  induction p as [|c p IH]; [done |].
  intros H. simpl in *. destruct p as [|c' p'].
  - simpl. by rewrite H.
  - rewrite (IH H). done.
Qed.

Lemma strip_trailing_id (p : string) :
  ends_with_slash p = false -> strip_trailing p = p.
Proof.
  intros H. unfold strip_trailing.
  destruct (all_slashes p); [done | by apply rstrip_slash_id].
Qed.

Lemma stat_Dir (f : gmap string node) (p : string) :
  stat f p = Some Dir <-> p <> EmptyString /\ f !! strip_trailing p = Some Dir.
Proof.
  unfold stat. destruct (String.eqb_spec p EmptyString) as [->|Hne].
  - split; [done | intros [? _]; done].
  - destruct (f !! strip_trailing p) as [[c|]|]; [| done |];
      (split; [| intros [_ ?]; done]).
    + by destruct (ends_with_slash p).
    + done.
Qed.

Lemma stat_File (f : gmap string node) (p : string) (c : list byte) :
  stat f p = Some (File c) <->
  p <> EmptyString /\ ends_with_slash p = false /\ f !! p = Some (File c).
Proof.
  unfold stat. destruct (String.eqb_spec p EmptyString) as [->|Hne].
  - split; [done | intros [? _]; done].
  - destruct (ends_with_slash p) eqn:E.
    + split; [| intros (_ & ? & _); done].
      by destruct (f !! strip_trailing p) as [[?|]|].
    + rewrite strip_trailing_id by done.
      destruct (f !! p) as [[c'|]|]; split;
        try done; try (intros (_ & _ & ?); done).
Qed.

(** ** Reading in blocks *)

Lemma pieces_fuel_concat (fuel n : nat) (l : list byte) :
  (0 < n)%nat -> (length l <= fuel)%nat -> concat (pieces_fuel fuel n l) = l.
Proof.
  intros Hn. revert l. induction fuel as [|fuel IH]; intros l Hl.
  - destruct l; [done | simpl in Hl; lia].
  - destruct l as [|b l']; [done |].
    cbn [pieces_fuel concat]. rewrite IH.
    + apply take_drop.
    + rewrite length_drop. simpl in *. lia.
Qed.

Lemma pieces_concat (n : nat) (l : list byte) :
  (0 < n)%nat -> concat (pieces n l) = l.
Proof. intros Hn. by apply pieces_fuel_concat. Qed.

Lemma fold_left_app_concat (ls : list (list byte)) (acc : list byte) :
  fold_left (fun h chunk => h ++ chunk) ls acc = acc ++ concat ls.
Proof.
  revert acc. induction ls as [|x ls IH]; intros acc; simpl.
  - by rewrite app_nil_r.
  - by rewrite IH, app_assoc.
Qed.

Lemma calculate_md5_eq (p : string) (s : State) :
  calculate_md5 p s =
    let s' := set_opened (opened s ++ [p]) s in
    match stat (fs s) p with
    | Some (File c) => (Ok (md5_hexdigest c), s')
    | Some Dir => (Raise IsADirectoryError, s')
    | None => (Raise (missing_error (fs s) p), s')
    end.
Proof.
  unfold calculate_md5, open_read, bind, log_open, ret. simpl.
  destruct (stat (fs s) p) as [[c|]|]; try done.
  rewrite fold_left_app_concat, pieces_concat by lia. done.
Qed.

(** ** The skip decision *)

Lemma makedirs_existing (name : string) (s : State) :
  stat (fs s) name = Some Dir -> makedirs name s = (Ok tt, s).
Proof.
  intros H. unfold makedirs.
  destruct (String.eqb_spec name EmptyString) as [->|_].
  - apply stat_Dir in H as [? _]. done.
  - by rewrite H.
Qed.

Lemma check_existing_valid (r : Resource) (p : string) (c : list byte) (s : State) :
  stat (fs s) p = Some (File c) ->
  check_existing r p s =
    (Ok (String.eqb (md5_hexdigest c) (md5 r)), set_opened (opened s ++ [p]) s).
Proof.
  intros H. unfold check_existing, bind, path_exists.
  rewrite H. rewrite bool_decide_true by eauto.
  rewrite calculate_md5_eq, H. done.
Qed.

Lemma download_and_verify_file_skip (r : Resource) (main_url base_dir : string)
    (multi : bool) (n : Z) (c : list byte) (s : State) :
  let p := dest_path_of base_dir r in
  stat (fs s) (dirname p) = Some Dir ->
  stat (fs s) p = Some (File c) ->
  md5_hexdigest c = md5 r ->
  download_and_verify_file r main_url base_dir multi n s =
    (Ok true, set_opened (opened s ++ [p]) s).
Proof.
  intros p Hdir Hfile Hmd5.
  unfold download_and_verify_file. fold p.
  unfold bind at 1. rewrite (makedirs_existing _ _ Hdir).
  unfold bind at 1. rewrite (check_existing_valid r p c s Hfile).
  rewrite Hmd5, String.eqb_refl. done.
Qed.

(** C2.  A resource whose destination file exists (in an existing
    directory) with the expected digest is skipped: the call returns
    True, sends no request, and leaves the file system and the failure
    list as they were; the only trace is that the file was opened to be
    hashed. *)
Theorem valid_file_is_skipped (r : Resource) (main_url base_dir : string)
    (multi : bool) (n : Z) (c : list byte) (s : State) :
  let p := dest_path_of base_dir r in
  stat (fs s) (dirname p) = Some Dir ->
  stat (fs s) p = Some (File c) ->
  md5_hexdigest c = md5 r ->
  exists s',
    download_and_verify_file r main_url base_dir multi n s = (Ok true, s') /\
    outcome s s' (Ok true) = Some Skipped /\
    net s' = net s /\
    fs s' = fs s /\
    failed_resources s' = failed_resources s /\
    opened s' = opened s ++ [p].
Proof.
  intros p Hdir Hfile Hmd5.
  exists (set_opened (opened s ++ [p]) s).
  split; [by apply (download_and_verify_file_skip r main_url base_dir multi n c) |].
  split; [| done].
  unfold outcome. cbn [net set_opened]. by rewrite Nat.eqb_refl.
Qed.

(** ** Steps that touch one file only *)

#[local] Instance touches_only_preorder (p : string) : PreOrder (touches_only p).
Proof.
  split.
  - intros s. by split.
  - intros s1 s2 s3 [H1 H2 H3 H4 H5] [K1 K2 K3 K4 K5]. split.
    + congruence.
    + congruence.
    + congruence.
    + intros q Hq. auto.
    + intros q c Hne Hq. eauto.
Qed.

Section Preserves.
Context (R : State -> State -> Prop) `{!PreOrder R}.

Lemma preserves_ret {A} (a : A) : preserves R (ret a).
Proof. intros s. simpl. reflexivity. Qed.

Lemma preserves_raise {A} (e : exn) : preserves R (@raise A e).
Proof. intros s. simpl. reflexivity. Qed.

Lemma preserves_lift {A} (r : result A) : preserves R (lift r).
Proof. intros s. simpl. reflexivity. Qed.

(** The continuation only has to behave on values the first part can
    return. *)
Lemma preserves_bind_post {A B} (Q : A -> Prop) (m : M A) (k : A -> M B) :
  preserves R m ->
  (forall s a s', m s = (Ok a, s') -> Q a) ->
  (forall a, Q a -> preserves R (k a)) ->
  preserves R (bind m k).
Proof.
  intros Hm HQ Hk s. unfold bind.
  specialize (Hm s). specialize (HQ s).
  destruct (m s) as [[a|e] s1]; simpl in *; [| done].
  etransitivity; [exact Hm |]. apply Hk. by eapply HQ.
Qed.

Lemma preserves_bind {A B} (m : M A) (k : A -> M B) :
  preserves R m -> (forall a, preserves R (k a)) -> preserves R (bind m k).
Proof.
  intros Hm Hk. apply (preserves_bind_post (fun _ => True)); auto.
Qed.

Lemma preserves_for_each {A B} (I : B -> Prop) (xs : list A) (acc : B)
    (body : B -> A -> M B) :
  I acc ->
  (forall b x, I b -> preserves R (body b x)) ->
  (forall b x s b' s', I b -> body b x s = (Ok b', s') -> I b') ->
  preserves R (for_each xs acc body).
Proof.
  intros Hacc Hbody Hinv. revert acc Hacc.
  induction xs as [|x xs IH]; intros acc Hacc; simpl.
  - apply preserves_ret.
  - apply (preserves_bind_post I); eauto.
Qed.

Lemma preserves_submit_all {A} (tasks : list (M A)) :
  Forall (preserves R) tasks -> preserves R (submit_all tasks).
Proof.
  induction 1 as [|t ts Ht Hts IH]; intros s; simpl.
  - reflexivity.
  - specialize (Ht s). destruct (t s) as [r s1]. simpl in Ht.
    etransitivity; [exact Ht |].
    apply (preserves_bind _ _ IH). intros a. apply preserves_ret.
Qed.

Lemma preserves_wait_all {A} (futures : list (result A)) :
  preserves R (wait_all futures).
Proof.
  unfold wait_all. apply (preserves_for_each (fun _ => True)); auto.
  intros [] x _. apply preserves_bind; [apply preserves_lift |].
  intros _. apply preserves_ret.
Qed.
End Preserves.

Lemma touches_set_opened (p : string) (o : list string) (s : State) :
  touches_only p s (set_opened o s).
Proof. by split. Qed.

Lemma touches_set_net (p : string) (n : list Request) (s : State) :
  touches_only p s (set_net n s).
Proof. by split. Qed.

(** Replacing the regular file at [p] by another regular file. *)
Lemma touches_rewrite_file (p : string) (c : list byte) (s : State) :
  fs s !! p <> Some Dir ->
  touches_only p s (set_fs (<[p := File c]> (fs s)) s).
Proof.
  intros Hnd. split; try done; simpl.
  - intros q Hq. rewrite lookup_insert_ne; [done | congruence].
  - intros q c' Hne Hq. by rewrite lookup_insert_ne.
Qed.

Lemma insert_dirs_lookup (levels : list string) (f : gmap string node) (q : string) :
  foldr (fun d f => <[d := Dir]> f) f levels !! q =
    if bool_decide (q ∈ levels) then Some Dir else f !! q.
Proof.
  induction levels as [|d levels IH]; simpl; [done |].
  destruct (decide (d = q)) as [->|Hne].
  - rewrite lookup_insert_eq. rewrite bool_decide_true; [done | left].
  - rewrite lookup_insert_ne by done. rewrite IH.
    destruct (bool_decide_reflect (q ∈ levels)) as [Hin|Hnin].
    + rewrite bool_decide_true; [done | by right].
    + rewrite bool_decide_false; [done |].
      intros Hin. apply elem_of_cons in Hin as [?|?]; congruence.
Qed.

Lemma touches_makedirs (p name : string) : preserves (touches_only p) (makedirs name).
Proof.
  intros s. unfold makedirs.
  destruct (String.eqb name EmptyString); [simpl; reflexivity |].
  destruct (stat (fs s) name) as [[c|]|]; try (simpl; reflexivity).
  destruct (existsb (is_file (fs s)) (ancestors (strip_trailing name))) eqn:E;
    [simpl; reflexivity |].
  cbn [snd]. split; try reflexivity; cbn [set_fs fs].
  - intros q Hq. rewrite insert_dirs_lookup. by case_bool_decide.
  - intros q c _ Hq. rewrite insert_dirs_lookup.
    case_bool_decide as Hin; [| done].
    assert (existsb (is_file (fs s)) (ancestors (strip_trailing name)) = true) as Ht.
    { apply existsb_exists. exists q. split; [by apply list_elem_of_In |].
      unfold is_file. by rewrite Hq. }
    congruence.
Qed.

Lemma ancestors_head (d : string) : exists rest, ancestors d = d :: rest.
Proof. unfold ancestors. simpl. eauto. Qed.



Lemma makedirs_creates (name : string) (s s' : State) :
  makedirs name s = (Ok tt, s') -> stat (fs s') name = Some Dir.
Proof.
  unfold makedirs.
  destruct (String.eqb_spec name EmptyString) as [->|Hne]; [done |].
  destruct (stat (fs s) name) as [[c|]|] eqn:Hst; try done.
  - intros [= <-]. done.
  - destruct (ancestors_head (strip_trailing name)) as [rest ->].
    destruct (existsb _ _); [done |]. intros [= <-].
    apply stat_Dir. split; [done |]. cbn [set_fs fs foldr].
    apply lookup_insert_eq.
Qed.

Lemma touches_log_open (p q : string) : preserves (touches_only p) (log_open q).
Proof. intros s. apply touches_set_opened. Qed.

Lemma touches_open_update (p q : string) : preserves (touches_only p) (open_update q).
Proof.
  apply preserves_bind; [apply _ | apply touches_log_open |].
  intros _ s. destruct (stat (fs s) q) as [[c|]|] eqn:E;
    simpl; rewrite ?E; reflexivity.
Qed.

Lemma touches_open_write (p : string) : preserves (touches_only p) (open_write p).
Proof.
  apply preserves_bind; [apply _ | apply touches_log_open |].
  intros _ s. cbn beta.
  destruct (ends_with_slash p); [reflexivity |].
  destruct (fs s !! p) as [[c|]|] eqn:E; try reflexivity;
    destruct (stat (fs s) (dirname p)) as [[c'|]|]; try reflexivity;
    apply touches_rewrite_file; congruence.
Qed.

Lemma open_write_path (p : string) (s s' : State) (f : Handle) :
  open_write p s = (Ok f, s') -> h_path f = p.
Proof.
  unfold open_write, bind, log_open. cbn beta iota.
  destruct (ends_with_slash p); [done |].
  cbn [fs set_opened].
  destruct (fs s !! p) as [[c|]|];
    destruct (stat (fs s) (dirname p)) as [[c'|]|]; try done;
    by intros [= <- _].
Qed.

Lemma open_update_path (p : string) (s s' : State) (f : Handle) :
  open_update p s = (Ok f, s') -> h_path f = p.
Proof.
  unfold open_update, bind, log_open. cbn beta iota. cbn [fs set_opened].
  destruct (stat (fs s) p) as [[c|]|]; try done. by intros [= <- _].
Qed.

Lemma touches_f_seek (p : string) (f : Handle) (pos : Z) :
  preserves (touches_only p) (f_seek f pos).
Proof. intros s. unfold f_seek. destruct (pos <? 0); reflexivity. Qed.

Lemma f_seek_path (f f' : Handle) (pos : Z) (s s' : State) :
  f_seek f pos s = (Ok f', s') -> h_path f' = h_path f.
Proof. unfold f_seek. destruct (pos <? 0); [done |]. by intros [= <- _]. Qed.

Lemma touches_f_write (f : Handle) (data : list byte) :
  preserves (touches_only (h_path f)) (f_write f data).
Proof.
  intros s. unfold f_write.
  destruct (fs s !! h_path f) as [[old|]|] eqn:E; try reflexivity.
  apply touches_rewrite_file. congruence.
Qed.

Lemma f_write_path (f f' : Handle) (data : list byte) (s s' : State) :
  f_write f data s = (Ok f', s') -> h_path f' = h_path f.
Proof.
  unfold f_write. destruct (fs s !! h_path f) as [[old|]|]; try done.
  by intros [= <- _].
Qed.

Lemma touches_f_truncate (f : Handle) (size : Z) :
  preserves (touches_only (h_path f)) (f_truncate f size).
Proof.
  intros s. unfold f_truncate. destruct (size <? 0); [reflexivity |].
  destruct (fs s !! h_path f) as [[old|]|] eqn:E; try reflexivity.
  apply touches_rewrite_file. congruence.
Qed.

Lemma touches_send (p : string) (req : Request) : preserves (touches_only p) (send req).
Proof.
  intros s. unfold send. destruct (server s (net s) req); apply touches_set_net.
Qed.

Lemma touches_write_stream (f : Handle) (r : Response) (n : nat) :
  preserves (touches_only (h_path f)) (write_stream f r n).
Proof.
  unfold write_stream. apply preserves_bind; [apply _ | |].
  - apply (preserves_for_each (touches_only (h_path f))
             (fun g => h_path g = h_path f)); [done | |].
    + intros g x <-. apply touches_f_write.
    + intros g x s g' s' <- H. by apply f_write_path in H.
  - intros g. destruct (broken r); [apply preserves_raise | apply preserves_ret]; apply _.
Qed.

Lemma touches_thread_pool (p : string) (n : Z) : preserves (touches_only p) (thread_pool n).
Proof. intros s. unfold thread_pool. destruct (n <=? 0); reflexivity. Qed.

Lemma touches_download_chunk (url p : string) (start end_ : Z) (index : nat) :
  preserves (touches_only p) (download_chunk url start end_ p index).
Proof.
  unfold download_chunk.
  apply preserves_bind; [apply _ | apply touches_send |]. intros response.
  apply (preserves_bind_post _ (fun f => h_path f = p));
    [apply touches_open_update | intros ? ? ?; apply open_update_path |].
  intros f <-.
  apply (preserves_bind_post _ (fun g => h_path g = h_path f));
    [apply touches_f_seek | intros ? ? ?; apply f_seek_path |].
  intros g <-.
  apply preserves_bind; [apply _ | apply touches_write_stream |].
  intros _. apply preserves_ret, _.
Qed.

Lemma touches_download_file_multi_connection (url p : string) (total n : Z) :
  preserves (touches_only p) (download_file_multi_connection url p total n).
Proof.
  unfold download_file_multi_connection.
  apply preserves_bind; [apply _ | apply preserves_lift, _ |]. intros chunks.
  apply (preserves_bind_post _ (fun f => h_path f = p));
    [apply touches_open_write | intros ? ? ?; apply open_write_path |].
  intros f <-.
  apply preserves_bind; [apply _ | apply touches_f_truncate |]. intros _.
  apply preserves_bind; [apply _ | apply touches_thread_pool |]. intros _.
  apply preserves_bind; [apply _ | | intros futures; apply preserves_wait_all, _].
  apply preserves_submit_all; [apply _ |].
  apply Forall_forall. intros t Ht.
  apply elem_of_lookup_imap in Ht as (i & [a b] & -> & _).
  apply touches_download_chunk.
Qed.

Lemma touches_fetch_multi (url p : string) (n : Z) :
  preserves (touches_only p) (fetch_multi url p n).
Proof.
  unfold fetch_multi.
  apply preserves_bind; [apply _ | apply touches_send |]. intros response.
  apply touches_download_file_multi_connection.
Qed.

Lemma touches_fetch_single (url p : string) :
  preserves (touches_only p) (fetch_single url p).
Proof.
  unfold fetch_single.
  apply preserves_bind; [apply _ | apply touches_send |]. intros response.
  apply (preserves_bind_post _ (fun f => h_path f = p));
    [apply touches_open_write | intros ? ? ?; apply open_write_path |].
  intros f <-.
  apply preserves_bind; [apply _ | apply touches_write_stream |].
  intros _. apply preserves_ret, _.
Qed.

(** ** What one orchestration does *)

Ltac split_ands := repeat match goal with |- _ /\ _ => split end.

Lemma touches_stat_Dir (p d : string) (s s' : State) :
  touches_only p s s' -> stat (fs s) d = Some Dir -> stat (fs s') d = Some Dir.
Proof.
  intros H Hd. apply stat_Dir in Hd as [Hne Hd]. apply stat_Dir.
  split; [done |]. by apply (to_dirs _ _ _ H).
Qed.

Lemma check_existing_cases (r : Resource) (p : string) (s : State) :
  exists res o,
    check_existing r p s = (res, set_opened o s) /\
    (res = Ok true ->
     exists c, stat (fs s) p = Some (File c) /\ md5_hexdigest c = md5 r).
Proof.
  unfold check_existing, bind, path_exists. cbn beta iota.
  case_bool_decide as Hex.
  - rewrite calculate_md5_eq. cbn zeta.
    destruct (stat (fs s) p) as [[c|]|] eqn:E.
    + eexists _, _. split; [reflexivity |]. cbn. intros [= Heq].
      exists c. split; [done | by apply String.eqb_eq].
    + eexists _, _. split; [reflexivity | done].
    + eexists _, _. split; [reflexivity | done].
  - exists (Ok false), (opened s). split; [by destruct s | done].
Qed.

Lemma verify_download_cases (r : Resource) (p : string) (s : State) :
  exists res s',
    verify_download r p s = (res, s') /\
    cwd s' = cwd s /\ server s' = server s /\ fs s' = fs s /\ net s' = net s /\
    match res with
    | Ok true =>
        failed_resources s' = failed_resources s /\
        exists c, stat (fs s) p = Some (File c) /\ md5_hexdigest c = md5 r
    | Ok false =>
        failed_resources s' = failed_resources s ++ [r] /\
        exists c, stat (fs s) p = Some (File c) /\ md5_hexdigest c <> md5 r
    | Raise _ => failed_resources s' = failed_resources s
    end.
Proof.
  unfold verify_download, bind. rewrite calculate_md5_eq. cbn zeta.
  destruct (stat (fs s) p) as [[c|]|] eqn:E.
  - destruct (String.eqb_spec (md5_hexdigest c) (md5 r)) as [Heq|Hne]; cbn.
    + eexists _, _. split; [reflexivity |]. repeat split; eauto.
    + eexists _, _. split; [reflexivity |]. repeat split; eauto.
  - eexists _, _. split; [reflexivity |]. done.
  - eexists _, _. split; [reflexivity |]. done.
Qed.

(** The orchestrator, outcome by outcome: a returned True means the file
    is there with the expected digest, a returned False means it is there
    with another digest and the resource was appended to the failure
    list, and a raised exception leaves the failure list alone.  In every
    case directories and the other regular files are kept. *)
Lemma download_and_verify_file_cases (r : Resource) (main_url base_dir : string)
    (multi : bool) (n : Z) (s : State) :
  let p := dest_path_of base_dir r in
  exists res s',
    download_and_verify_file r main_url base_dir multi n s = (res, s') /\
    cwd s' = cwd s /\ server s' = server s /\
    (forall q, fs s !! q = Some Dir -> fs s' !! q = Some Dir) /\
    (forall q c, q <> p -> fs s !! q = Some (File c) -> fs s' !! q = Some (File c)) /\
    match res with
    | Ok true =>
        failed_resources s' = failed_resources s /\
        stat (fs s') (dirname p) = Some Dir /\
        exists c, stat (fs s') p = Some (File c) /\ md5_hexdigest c = md5 r
    | Ok false =>
        failed_resources s' = failed_resources s ++ [r] /\
        stat (fs s') (dirname p) = Some Dir /\
        exists c, stat (fs s') p = Some (File c) /\ md5_hexdigest c <> md5 r
    | Raise _ => failed_resources s' = failed_resources s
    end.
Proof.
  intros p. unfold download_and_verify_file. fold p.
  set (url := url_of main_url r).
  unfold bind at 1.
  pose proof (touches_makedirs p (dirname p) s) as T1.
  pose proof (makedirs_creates (dirname p) s) as C1.
  destruct (makedirs (dirname p) s) as [[[]|e] s1]; cbn [snd] in T1.
  2:{ eexists _, _. split; [reflexivity |]. destruct T1. split_ands; auto. }
  specialize (C1 s1 eq_refl).
  unfold bind at 1.
  destruct (check_existing_cases r p s1) as (res2 & o & -> & Hvalid).
  assert (touches_only p s (set_opened o s1)) as T2.
  { etransitivity; [exact T1 | apply touches_set_opened]. }
  destruct res2 as [[|]|e].
  - destruct (Hvalid eq_refl) as (c & Hc & Hm).
    eexists _, _. split; [reflexivity |]. destruct T2.
    split_ands; auto; exists c; done.
  - clear Hvalid. unfold bind at 1.
    set (fetch := if multi then _ else _).
    assert (preserves (touches_only p) fetch) as T3.
    { unfold fetch. destruct multi;
        [apply touches_fetch_multi | apply touches_fetch_single]. }
    specialize (T3 (set_opened o s1)).
    destruct (fetch (set_opened o s1)) as [[[]|e] s3]; cbn [snd] in T3.
    2:{ eexists _, _. split; [reflexivity |].
        destruct (transitivity T2 T3). split_ands; auto. }
    pose proof (transitivity T2 T3) as T4.
    assert (stat (fs s3) (dirname p) = Some Dir) as D3.
    { eapply touches_stat_Dir; [exact T3 |]. exact C1. }
    destruct (verify_download_cases r p s3)
      as (res & s4 & -> & V1 & V2 & V3 & _ & V4).
    eexists _, _. split; [reflexivity |]. destruct T4.
    rewrite V1, V2, V3.
    split_ands; auto.
    destruct res as [[|]|e]; rewrite ?V3; [| | congruence].
    + destruct V4 as [Vf Vc]. split_ands; [congruence | done | done].
    + destruct V4 as [Vf Vc]. split_ands; [congruence | done | done].
  - eexists _, _. split; [reflexivity |]. destruct T2. split_ands; auto.
Qed.

(** ** The batch *)

Lemma wait_all_state {A} (futures : list (result A)) (s : State) :
  (wait_all futures s).2 = s.
Proof.
  unfold wait_all. induction futures as [|[a|e] futures IH]; simpl; try done.
Qed.

Lemma wait_all_Ok {A} (futures : list (result A)) (s s' : State) :
  wait_all futures s = (Ok tt, s') ->
  s' = s /\ Forall (fun future => exists a, future = Ok a) futures.
Proof.
  intros H. split.
  - pose proof (wait_all_state futures s) as Hs. by rewrite H in Hs.
  - revert H. unfold wait_all.
    induction futures as [|[a|e] futures IH]; simpl; intros H.
    + constructor.
    + constructor; [by exists a | by apply IH].
    + done.
Qed.

(** Every submitted task is run, whatever the earlier ones returned or
    raised, and there is one future per task. *)
Lemma submit_all_runs_all {A} (tasks : list (M A)) (s : State) :
  exists futures s',
    submit_all tasks s = (Ok futures, s') /\ length futures = length tasks.
Proof.
  revert s. induction tasks as [|t ts IH]; intros s; simpl.
  - by exists [], s.
  - destruct (t s) as [r s1]. destruct (IH s1) as (futures & s' & E & Hl).
    exists (r :: futures), s'. unfold bind. rewrite E. simpl. by rewrite Hl.
Qed.

Lemma digest_matches_kept (base_dir : string) (r : Resource) (s s' : State) :
  (forall c, fs s !! dest_path_of base_dir r = Some (File c) ->
             fs s' !! dest_path_of base_dir r = Some (File c)) ->
  forall c, stat (fs s) (dest_path_of base_dir r) = Some (File c) ->
            stat (fs s') (dest_path_of base_dir r) = Some (File c).
Proof.
  intros Hk c Hc. apply stat_File in Hc as (? & ? & Hc). apply stat_File. auto.
Qed.

Lemma dirs_kept_stat (d : string) (s s' : State) :
  (forall q, fs s !! q = Some Dir -> fs s' !! q = Some Dir) ->
  stat (fs s) d = Some Dir -> stat (fs s') d = Some Dir.
Proof.
  intros Hk Hd. apply stat_Dir in Hd as [? Hd]. apply stat_Dir. auto.
Qed.

(** The whole list of tasks, for resources with distinct destination
    paths: every future agrees with the file it left behind, as seen in
    the final state, and the failure list grew by exactly the resources
    whose future holds False. *)
Lemma submit_all_file_tasks (main_url base_dir : string) (multi : bool) (n : Z)
    (rs : list Resource) (s : State) :
  NoDup (map (dest_path_of base_dir) rs) ->
  exists futures s',
    submit_all (map (file_task main_url base_dir multi n) rs) s = (Ok futures, s') /\
    cwd s' = cwd s /\ server s' = server s /\
    (forall q, fs s !! q = Some Dir -> fs s' !! q = Some Dir) /\
    (forall q c, q ∉ map (dest_path_of base_dir) rs ->
                 fs s !! q = Some (File c) -> fs s' !! q = Some (File c)) /\
    failed_resources s' = failed_resources s ++ reported rs futures /\
    Forall2 (future_agrees base_dir s') rs futures.
Proof.
  revert s. induction rs as [|r rs IH]; intros s Hnd.
  - exists [], s. simpl. split_ands; auto. by rewrite app_nil_r.
  - apply NoDup_cons in Hnd as [Hnotin Hnd]. cbn [map] in *.
    destruct (download_and_verify_file_cases r main_url base_dir multi n s)
      as (res & s1 & E1 & K1 & K2 & K3 & K4 & K5). cbn zeta in *.
    destruct (IH s1 Hnd) as (futures & s' & E2 & L1 & L2 & L3 & L4 & L5 & L6).
    exists (res :: futures), s'.
    split.
    { cbn [submit_all]. unfold file_task at 1. rewrite E1.
      unfold bind. rewrite E2. done. }
    split; [congruence |]. split; [congruence |].
    split; [auto |].
    split.
    { intros q c Hq Hf. apply L4.
      - intros Hin. apply Hq. by right.
      - apply K4; [| done]. intros ->. apply Hq. by left. }
    assert (forall c, fs s1 !! dest_path_of base_dir r = Some (File c) ->
                      fs s' !! dest_path_of base_dir r = Some (File c)) as Hkeep.
    { intros c Hc. by apply L4. }
    split.
    { rewrite L5. destruct res as [[|]|e]; cbn [reported].
      - destruct K5 as [-> _]. done.
      - destruct K5 as [-> _]. by rewrite <- app_assoc.
      - rewrite K5. done. }
    constructor; [| done].
    destruct res as [b|e]; [| done]. unfold future_agrees, digest_matches.
    assert (stat (fs s1) (dirname (dest_path_of base_dir r)) = Some Dir /\
            exists c, stat (fs s1) (dest_path_of base_dir r) = Some (File c) /\
                      String.eqb (md5_hexdigest c) (md5 r) = b) as (Hd & c & Hc & Hb).
    { destruct b.
      - destruct K5 as (_ & Hd & c & Hc & Hm). split; [done |].
        exists c. split; [done |]. by apply String.eqb_eq.
      - destruct K5 as (_ & Hd & c & Hc & Hm). split; [done |].
        exists c. split; [done |]. by apply String.eqb_neq. }
    rewrite (digest_matches_kept base_dir r s1 s' Hkeep c Hc).
    split; [done |]. by apply (dirs_kept_stat _ s1 s').
Qed.

Lemma run_batch_eq (rs : list Resource) (main_url base_dir : string) (multi : bool)
    (n maxc : Z) (s : State) (futures : list (result bool)) (s' : State) :
  run_batch rs main_url base_dir multi n maxc s = (Ok futures, s') ->
  0 < maxc /\
  submit_all (map (file_task main_url base_dir multi n) rs) s = (Ok futures, s') /\
  Forall (fun future => exists b, future = Ok b) futures.
Proof.
  unfold run_batch, thread_pool. intros H.
  destruct (Z.leb_spec maxc 0) as [Hle|Hlt]; [done |].
  split; [done |].
  unfold bind at 1 in H. cbn [ret] in H.
  change (map (fun resource => download_and_verify_file resource main_url base_dir multi n) rs)
    with (map (file_task main_url base_dir multi n) rs) in H.
  unfold bind at 1 in H.
  destruct (submit_all (map (file_task main_url base_dir multi n) rs) s)
    as [[fs1|e] s1]; [| done].
  unfold bind at 1 in H.
  destruct (wait_all fs1 s1) as [[[]|e] s2] eqn:W; [| done].
  apply wait_all_Ok in W as [-> Hall].
  cbn in H. injection H as <- <-. done.
Qed.

Lemma reported_filter (base_dir : string) (s : State) (rs : list Resource)
    (futures : list (result bool)) :
  Forall2 (future_agrees base_dir s) rs futures ->
  Forall (fun future => exists b, future = Ok b) futures ->
  reported rs futures = filter (fun r => digest_matches base_dir s r = false) rs.
Proof.
  induction 1 as [|r fut rs futures Hag _ IH]; intros Hall; [done |].
  inversion Hall as [|? ? [b ->] Hall']; subst.
  destruct Hag as [Hd _]. specialize (IH Hall').
  destruct b; cbn [reported].
  - rewrite filter_cons_False; [done | congruence].
  - rewrite filter_cons_True by done. by rewrite IH.
Qed.

(** C4, as amended.  For a batch over distinct destination paths in
    normal form (so that distinct paths are distinct files) that is
    collected without an exception, every resource has a terminal
    outcome (its future holds True or False, in agreement with the digest
    of its file at the end of the run), and the failure list has grown by
    exactly the resources whose final digest differs from the expected
    one. *)
Theorem failure_set_is_mismatching_subset (rs : list Resource)
    (main_url base_dir : string) (multi : bool) (n maxc : Z)
    (s : State) (futures : list (result bool)) (s' : State) :
  Forall (fun r => normal_path (dest_path_of base_dir r) = true) rs ->
  NoDup (map (dest_path_of base_dir) rs) ->
  run_batch rs main_url base_dir multi n maxc s = (Ok futures, s') ->
  Forall2 (fun r future => exists b, future = Ok b /\ digest_matches base_dir s' r = b)
          rs futures /\
  failed_resources s' =
    failed_resources s ++ filter (fun r => digest_matches base_dir s' r = false) rs.
Proof.
  intros _ Hnd Hrun. apply run_batch_eq in Hrun as (_ & Hsub & Hall).
  destruct (submit_all_file_tasks main_url base_dir multi n rs s Hnd)
    as (futures' & s'' & E & _ & _ & _ & _ & Hfailed & Hag).
  rewrite Hsub in E. injection E as <- <-.
  split.
  - clear Hfailed Hnd Hsub.
    induction Hag as [|r fut rs' futures' Hag _ IH]; [constructor |].
    inversion Hall as [|? ? [b ->] Hall']; subst.
    constructor; [| by apply IH].
    exists b. split; [done |]. by destruct Hag.
  - rewrite Hfailed. f_equal. by apply reported_filter.
Qed.

(** ** Exceptions are not caught *)

Lemma wait_all_first_raise {A} (futures : list (result A)) (s : State) :
  wait_all futures s =
    (match first_raise futures with Some e => Raise e | None => Ok tt end, s).
Proof.
  unfold wait_all. induction futures as [|[a|e] futures IH]; simpl; done.
Qed.

Lemma run_batch_first_raise (rs : list Resource) (main_url base_dir : string)
    (multi : bool) (n maxc : Z) (s : State) :
  0 < maxc ->
  exists futures s',
    submit_all (map (file_task main_url base_dir multi n) rs) s = (Ok futures, s') /\
    length futures = length rs /\
    run_batch rs main_url base_dir multi n maxc s =
      (match first_raise futures with Some e => Raise e | None => Ok futures end, s').
Proof.
  intros Hmax.
  destruct (submit_all_runs_all (map (file_task main_url base_dir multi n) rs) s)
    as (futures & s' & E & Hl).
  exists futures, s'. split; [done |]. split; [by rewrite Hl, length_map |].
  unfold run_batch, thread_pool.
  destruct (Z.leb_spec maxc 0) as [?|_]; [lia |].
  unfold bind at 1. cbn [ret].
  change (map (fun resource => download_and_verify_file resource main_url base_dir multi n) rs)
    with (map (file_task main_url base_dir multi n) rs).
  unfold bind at 1. rewrite E.
  unfold bind at 1. rewrite wait_all_first_raise.
  by destruct (first_raise futures).
Qed.


Lemma check_existing_absent (r : Resource) (p : string) (s : State) :
  stat (fs s) p = None -> check_existing r p s = (Ok false, s).
Proof.
  intros H. unfold check_existing, bind, path_exists. rewrite H.
  rewrite bool_decide_false; [done |]. by intros [? ?].
Qed.


(** ** The scenarios, evaluated *)

Example a_bin_digest : md5 Scenario.a_bin = md5_hexdigest (Scenario.letters 10).
Proof. vm_compute. reflexivity. Qed.

Lemma valid_file_is_skipped_witness :
  exists s',
    download_and_verify_file Scenario.a_bin Scenario.main_url Scenario.base_dir true 2
      (Scenario.stored Scenario.unreachable Scenario.a_bin (Scenario.letters 10))
      = (Ok true, s') /\
    outcome (Scenario.stored Scenario.unreachable Scenario.a_bin (Scenario.letters 10))
      s' (Ok true) = Some Skipped /\
    net s' = [] /\
    fs s' = fs (Scenario.stored Scenario.unreachable Scenario.a_bin (Scenario.letters 10)) /\
    failed_resources s' = [] /\
    opened s' = [dest_path_of Scenario.base_dir Scenario.a_bin].
Proof.
  apply (valid_file_is_skipped Scenario.a_bin Scenario.main_url Scenario.base_dir
           true 2 (Scenario.letters 10)
           (Scenario.stored Scenario.unreachable Scenario.a_bin (Scenario.letters 10)));
    vm_compute; reflexivity.
Defined.


(** A destination below a path that is a regular file: creating the
    directory fails and this local error escapes too. *)
Example local_io_error_escapes :
  let s := Scenario.stored Scenario.unreachable Scenario.a_bin (Scenario.letters 10) in
  let run := download_and_verify_file (mkResource "a.bin/part" "00") Scenario.main_url
               Scenario.base_dir false 2 s in
  run.1 = Raise FileExistsError /\
  failed_resources run.2 = [] /\
  net run.2 = [].
Proof. vm_compute. done. Qed.


(** A batch of a resource that mismatches and a sibling whose server is
    out of reach: the sibling has no terminal outcome, its file is not
    valid and yet it is not in the failure list, and the run ends with
    the exception and without a report. *)
Lemma raising_sibling_has_no_outcome :
  let srv := Scenario.one_file_server "http://host/zip/b.bin" (Scenario.letters 3) in
  let batch := submit_all
                 (map (file_task Scenario.main_url Scenario.base_dir false 2)
                      [Scenario.wrong; Scenario.gone])
                 (Scenario.fresh srv) in
  let run := download_resources [Scenario.wrong; Scenario.gone] Scenario.main_url
               Scenario.version Scenario.json_name false 2 4 (Scenario.fresh srv) in
  batch.1 = Ok [Ok false; Raise RequestException] /\
  failed_resources batch.2 = [Scenario.wrong] /\
  digest_matches Scenario.base_dir batch.2 Scenario.gone = false /\
  run.1 = Raise RequestException /\
  fs run.2 !! Scenario.report_path = None.
Proof. vm_compute. done. Qed.

Lemma failure_set_is_mismatching_subset_witness :
  let srv := Scenario.one_file_server "http://host/zip/b.bin" (Scenario.letters 3) in
  let run := run_batch [Scenario.wrong] Scenario.main_url Scenario.base_dir false 2 4
               (Scenario.fresh srv) in
  Forall2 (fun r future =>
             exists b, future = Ok b /\ digest_matches Scenario.base_dir run.2 r = b)
          [Scenario.wrong] [Ok false] /\
  failed_resources run.2 =
    [] ++ filter (fun r => digest_matches Scenario.base_dir run.2 r = false) [Scenario.wrong].
Proof.
  intros srv run.
  apply (failure_set_is_mismatching_subset [Scenario.wrong] Scenario.main_url
           Scenario.base_dir false 2 4 (Scenario.fresh srv) [Ok false] run.2).
  - repeat constructor.
  - vm_compute. repeat constructor. set_solver.
  - vm_compute. reflexivity.
Defined.


(** ** Short reads *)

(** The ten-byte file ends in a zero byte and the server sends only four
    of the five bytes of range [5,9].  The missing byte is the zero byte
    the pre-sized file already holds, so the digest matches and the
    resource succeeds. *)
Lemma short_read_can_succeed :
  let tail := Scenario.letters 4 in
  let srv := Scenario.range_server tail in
  let one := download_and_verify_file Scenario.z_bin Scenario.main_url
               Scenario.base_dir true 2 (Scenario.fresh srv) in
  let run := download_resources [Scenario.z_bin] Scenario.main_url Scenario.version
               Scenario.json_name true 2 4 (Scenario.fresh srv) in
  make_chunks 10 2 = Ok [(0, 4); (5, 9)] /\
  Z.of_nat (length tail) < 9 - 5 + 1 /\
  one.1 = Ok true /\
  outcome (Scenario.fresh srv) one.2 one.1 = Some Succeeded /\
  failed_resources one.2 = [] /\
  run.1 = Ok tt /\
  failed_resources run.2 = [] /\
  fs run.2 !! Scenario.report_path = None.
Proof. vm_compute. done. Qed.

(** C5, as amended.  A chunked download that returns is Failed exactly
    when the digest of the file it assembled differs from the expected
    one, and then the resource is in the failure list; a short read is
    not detected by itself.  In the scenario of the specification (ten
    bytes 0x41, two connections) a second range answered with four bytes
    (nine in all), or with nine bytes, leaves a file with another digest:
    the outcome is Failed and the report lists a.bin. *)
Theorem chunked_download_fails_by_digest :
  (forall r main_url base_dir n s b s',
     download_and_verify_file r main_url base_dir true n s = (Ok b, s') ->
     digest_matches base_dir s' r = b /\
     (b = false -> failed_resources s' = failed_resources s ++ [r]) /\
     (b = true -> failed_resources s' = failed_resources s)) /\
  (forall tail,
     tail = Scenario.letters 4 \/ tail = Scenario.letters 9 ->
     let srv := Scenario.range_server tail in
     let one := download_and_verify_file Scenario.a_bin Scenario.main_url
                  Scenario.base_dir true 2 (Scenario.fresh srv) in
     let run := download_resources [Scenario.a_bin] Scenario.main_url Scenario.version
                  Scenario.json_name true 2 4 (Scenario.fresh srv) in
     outcome (Scenario.fresh srv) one.2 one.1 = Some Failed /\
     fs one.2 !! dest_path_of Scenario.base_dir Scenario.a_bin
       = Some (File (write_at (write_at (resize [] 10) 0 (Scenario.letters 5)) 5 tail)) /\
     run.1 = Ok tt /\
     failed_resources run.2 = [Scenario.a_bin] /\
     fs run.2 !! Scenario.report_path
       = Some (File (list_byte_of_string (failure_report [Scenario.a_bin])))).
Proof.
  split.
  - intros r main_url base_dir n s b s' H.
    destruct (download_and_verify_file_cases r main_url base_dir true n s)
      as (res & s'' & E & _ & _ & _ & _ & K). cbn zeta in *.
    rewrite H in E. injection E as <- <-. unfold digest_matches.
    destruct b.
    + destruct K as (Hf & _ & c & -> & Hm).
      split; [by apply String.eqb_eq |]. split; [done | done].
    + destruct K as (Hf & _ & c & -> & Hm).
      split; [by apply String.eqb_neq |]. split; [done | done].
  - intros tail [-> | ->]; vm_compute; done.
Qed.

Lemma chunked_download_fails_by_digest_witness :
  let s := Scenario.fresh (Scenario.range_server (Scenario.letters 4)) in
  let one := download_and_verify_file Scenario.a_bin Scenario.main_url
               Scenario.base_dir true 2 s in
  digest_matches Scenario.base_dir one.2 Scenario.a_bin = false /\
  (false = false -> failed_resources one.2 = failed_resources s ++ [Scenario.a_bin]) /\
  (false = true -> failed_resources one.2 = failed_resources s).
Proof.
  intros s one. destruct chunked_download_fails_by_digest as [H _].
  apply (H Scenario.a_bin Scenario.main_url Scenario.base_dir 2 s false one.2).
  vm_compute. reflexivity.
Defined.

(** ** A missing content-length *)


Lemma check_existing_invalid (base_dir : string) (r : Resource) (s : State) :
  digest_matches base_dir s r = false ->
  stat (fs s) (dest_path_of base_dir r) <> Some Dir ->
  exists o, check_existing r (dest_path_of base_dir r) s = (Ok false, set_opened o s).
Proof.
  unfold digest_matches. intros Hd Hnd.
  destruct (stat (fs s) (dest_path_of base_dir r)) as [[c|]|] eqn:E.
  - exists (opened s ++ [dest_path_of base_dir r]).
    rewrite (check_existing_valid r _ c s E). by rewrite Hd.
  - done.
  - exists (opened s). rewrite (check_existing_absent r _ s E). by destruct s.
Qed.



(** Without content-length the file is created empty and one empty
    range is requested per connection.  A catalog entry that expects the
    empty file then succeeds with zero bytes; any other entry fails on
    its digest. *)
Example missing_content_length_runs :
  let s := Scenario.fresh Scenario.no_length_server in
  let ok := download_and_verify_file Scenario.empty_bin Scenario.main_url
              Scenario.base_dir true 2 s in
  let ko := download_and_verify_file Scenario.a_bin Scenario.main_url
              Scenario.base_dir true 2 s in
  ok.1 = Ok true /\
  net ok.2 = [HEAD "http://host/zip/e.bin";
              GET "http://host/zip/e.bin" (Some (0, -1));
              GET "http://host/zip/e.bin" (Some (0, -1))] /\
  fs ok.2 !! dest_path_of Scenario.base_dir Scenario.empty_bin = Some (File []) /\
  ko.1 = Ok false /\
  failed_resources ko.2 = [Scenario.a_bin].
Proof. vm_compute. done. Qed.

(** ** A second run over a complete download *)

(** Tasks over files that are all valid: each returns True and only the
    log of opened files grows. *)
Lemma submit_all_valid (main_url base_dir : string) (multi : bool) (n : Z)
    (rs : list Resource) (s : State) :
  Forall (fun r => digest_matches base_dir s r = true /\
                   stat (fs s) (dirname (dest_path_of base_dir r)) = Some Dir) rs ->
  exists o,
    submit_all (map (file_task main_url base_dir multi n) rs) s =
      (Ok (map (fun _ => Ok true) rs), set_opened o s).
Proof.
  revert s. induction rs as [|r rs IH]; intros s Hall.
  - exists (opened s). simpl. by destruct s.
  - inversion Hall as [|? ? [Hd Hdir] Hall']; subst.
    unfold digest_matches in Hd.
    destruct (stat (fs s) (dest_path_of base_dir r)) as [[c|]|] eqn:Hc; try done.
    apply String.eqb_eq in Hd.
    pose proof (download_and_verify_file_skip r main_url base_dir multi n c s Hdir Hc Hd)
      as E. cbn zeta in E.
    set (s1 := set_opened (opened s ++ [dest_path_of base_dir r]) s) in *.
    destruct (IH s1 Hall') as [o Ho].
    exists o. cbn [map submit_all]. unfold file_task at 1. rewrite E.
    unfold bind. rewrite Ho. done.
Qed.

(** After a batch, the directory of every resource whose task returned
    is there; no assumption on the destination paths is needed. *)
Lemma submit_all_dirs (main_url base_dir : string) (multi : bool) (n : Z)
    (rs : list Resource) (s : State) :
  exists futures s',
    submit_all (map (file_task main_url base_dir multi n) rs) s = (Ok futures, s') /\
    cwd s' = cwd s /\
    (forall q, fs s !! q = Some Dir -> fs s' !! q = Some Dir) /\
    Forall2 (fun r future =>
               (exists b, future = Ok b) ->
               stat (fs s') (dirname (dest_path_of base_dir r)) = Some Dir)
            rs futures.
Proof.
  revert s. induction rs as [|r rs IH]; intros s.
  - exists [], s. simpl. split_ands; auto.
  - destruct (download_and_verify_file_cases r main_url base_dir multi n s)
      as (res & s1 & E1 & K1 & _ & K3 & _ & K5). cbn zeta in *.
    destruct (IH s1) as (futures & s' & E2 & L1 & L3 & L6).
    exists (res :: futures), s'. split_ands.
    + cbn [map submit_all]. unfold file_task at 1. rewrite E1.
      unfold bind. rewrite E2. done.
    + congruence.
    + auto.
    + constructor; [| done]. intros [b ->].
      apply (dirs_kept_stat _ s1 s' L3).
      destruct b; by destruct K5 as (_ & ? & _).
Qed.

Lemma touches_write_failure_report (failed_dir json_name : string) :
  preserves (touches_only (path_join failed_dir json_name))
            (write_failure_report failed_dir json_name).
Proof.
  intros s. unfold write_failure_report.
  destruct (failed_resources s) as [|r l]; [reflexivity |].
  revert s. fold (preserves (touches_only (path_join failed_dir json_name))
    (f <- open_write (path_join failed_dir json_name) ;;
     _ <- f_write f (list_byte_of_string (failure_report (r :: l))) ;; ret tt)).
  apply (preserves_bind_post _ (fun f => h_path f = path_join failed_dir json_name));
    [apply touches_open_write | intros ? ? ?; apply open_write_path |].
  intros f <-.
  apply preserves_bind; [apply _ | apply touches_f_write |].
  intros _. apply preserves_ret, _.
Qed.

(** The run, cut at line 109: what [download_resources] does before it
    looks at the failure list. *)
Lemma download_resources_eq (rs : list Resource) (main_url version json_name : string)
    (multi : bool) (n maxc : Z) (s : State) :
  download_resources rs main_url version json_name multi n maxc s =
    match makedirs (failed_dir_of (cwd s) version) s with
    | (Ok _, s0) =>
        match run_batch rs main_url (base_dir_of (cwd s) version) multi n maxc
                (set_failed [] s0) with
        | (Ok _, s1) => write_failure_report (failed_dir_of (cwd s) version) json_name s1
        | (Raise e, s1) => (Raise e, s1)
        end
    | (Raise e, s0) => (Raise e, s0)
    end.
Proof.
  unfold download_resources, getcwd. unfold bind at 1.
  unfold bind at 1.
  destruct (makedirs (failed_dir_of (cwd s) version) s) as [[[]|e] s0]; [| done].
  unfold bind at 1. unfold bind at 1. done.
Qed.

Lemma makedirs_cwd (name : string) (s : State) : cwd (makedirs name s).2 = cwd s.
Proof. apply (to_cwd name), touches_makedirs. Qed.

(** C8.  A second run over a catalog whose files all carry their
    expected digest after the first run sends no request: every task
    returns True without fetching (Skipped), the file system is the one
    the first run left, and no failure is recorded. *)
Theorem second_run_skips_everything (rs : list Resource)
    (main_url version json_name : string) (multi : bool) (n maxc : Z)
    (s0 s1 : State) :
  download_resources rs main_url version json_name multi n maxc s0 = (Ok tt, s1) ->
  Forall (fun r => digest_matches (base_dir_of (cwd s1) version) s1 r = true) rs ->
  exists s2,
    download_resources rs main_url version json_name multi n maxc s1 = (Ok tt, s2) /\
    run_batch rs main_url (base_dir_of (cwd s1) version) multi n maxc (set_failed [] s1)
      = (Ok (map (fun _ => Ok true) rs), s2) /\
    Forall (fun future => outcome s1 s2 future = Some Skipped)
           (map (fun _ : Resource => Ok true) rs) /\
    net s2 = net s1 /\
    fs s2 = fs s1 /\
    failed_resources s2 = [].
Proof.
  intros Hrun1 Hvalid.
  rewrite download_resources_eq in Hrun1.
  set (fd := failed_dir_of (cwd s0) version) in *.
  set (bd := base_dir_of (cwd s0) version) in *.
  pose proof (makedirs_creates fd s0) as Hfd.
  pose proof (makedirs_cwd fd s0) as Hcwd_a.
  destruct (makedirs fd s0) as [[[]|e] sa]; [| done]. cbn [snd] in Hcwd_a.
  specialize (Hfd sa eq_refl).
  destruct (run_batch rs main_url bd multi n maxc (set_failed [] sa))
    as [[futures|e] sc] eqn:Hbatch; [| done].
  apply run_batch_eq in Hbatch as (Hmax & Hsub & Hall).
  destruct (submit_all_dirs main_url bd multi n rs (set_failed [] sa))
    as (futures' & sc' & E & Hcwd_c & Hdirs_c & Hdirs).
  rewrite Hsub in E. injection E as <- <-.
  pose proof (touches_write_failure_report fd json_name sc) as Hrep.
  rewrite Hrun1 in Hrep. cbn [snd] in Hrep.
  assert (cwd s1 = cwd s0) as Hcwd.
  { rewrite (to_cwd _ _ _ Hrep), Hcwd_c. exact Hcwd_a. }
  rewrite Hcwd in *. fold bd in Hvalid |- *.
  assert (stat (fs s1) fd = Some Dir) as Hfd1.
  { apply (touches_stat_Dir _ _ _ _ Hrep).
    apply (dirs_kept_stat _ (set_failed [] sa) sc Hdirs_c). exact Hfd. }
  assert (Forall (fun r => digest_matches bd (set_failed [] s1) r = true /\
                           stat (fs (set_failed [] s1)) (dirname (dest_path_of bd r))
                             = Some Dir) rs) as Hready.
  { clear Hsub. apply Forall_forall. intros r Hin.
    split; [exact (proj1 (Forall_forall _ _) Hvalid r Hin) |].
    cbn [fs set_failed].
    apply list_elem_of_lookup in Hin as [i Hi].
    destruct (Forall2_lookup_l _ _ _ _ _ Hdirs Hi) as (fut & Hfut & Hd).
    apply (touches_stat_Dir _ _ _ _ Hrep), Hd.
    apply (proj1 (Forall_lookup _ _) Hall i fut Hfut). }
  destruct (submit_all_valid main_url bd multi n rs (set_failed [] s1) Hready)
    as [o Ho].
  exists (set_opened o (set_failed [] s1)).
  assert (run_batch rs main_url bd multi n maxc (set_failed [] s1)
          = (Ok (map (fun _ => Ok true) rs), set_opened o (set_failed [] s1))) as Hb2.
  { destruct (run_batch_first_raise rs main_url bd multi n maxc (set_failed [] s1) Hmax)
      as (f2 & s2 & E2 & _ & ->).
    rewrite Ho in E2. injection E2 as <- <-.
    replace (first_raise (map (fun _ : Resource => Ok true) rs)) with (@None exn);
      [done |].
    clear. induction rs; [done | simpl; done]. }
  split_ands; try done.
  - rewrite download_resources_eq. rewrite Hcwd. fold fd bd.
    rewrite (makedirs_existing _ _ Hfd1), Hb2. done.
  - apply Forall_forall. intros fut Hin.
    apply list_elem_of_fmap in Hin as (r & -> & _).
    unfold outcome. cbn [net set_opened set_failed]. by rewrite Nat.eqb_refl.
Qed.


(** ** The path of the failure report *)

Lemma append_cons (c : ascii) (d x : string) :
  (String c d ++ x)%string = String c (d ++ x).
Proof. reflexivity. Qed.

Lemma append_nil (x : string) : (EmptyString ++ x)%string = x.
Proof. reflexivity. Qed.





Lemma ends_with_slash_app (d n : string) :
  n <> EmptyString -> ends_with_slash (d ++ n) = ends_with_slash n.
Proof.
  intros Hn. induction d as [|c d IH]; [done |].
  rewrite append_cons. destruct (d ++ n)%string eqn:E.
  - destruct d; [rewrite append_nil in E; congruence | done].
  - exact IH.
Qed.

Lemma rstrip_app_slash (d : string) : rstrip_slash (d ++ "/") = rstrip_slash d.
Proof.
  induction d as [|c d IH]; [done |].
  rewrite append_cons. cbn [rstrip_slash]. by rewrite IH.
Qed.

Lemma all_slashes_app_slash (d : string) : all_slashes (d ++ "/") = all_slashes d.
Proof.
  induction d as [|c d IH]; [done |].
  rewrite append_cons. cbn [all_slashes]. by rewrite IH.
Qed.

Lemma all_slashes_trailing (d : string) :
  d <> EmptyString -> all_slashes d = true -> ends_with_slash d = true.
Proof.
  induction d as [|c d IH]; [done |].
  intros _ H. simpl in H. apply andb_true_iff in H as [Hc Hd].
  destruct d as [|c' d']; [done |]. apply IH; done.
Qed.





(** The basename of anything is a plain name. *)
Lemma basename_no_slash (p : string) : no_slash (basename p) = true.
Proof.
  unfold basename. induction p as [|c p IH]; [done |].
  simpl. destruct (rsplit_slash p) as [h t]. simpl in IH.
  destruct (is_slash c) eqn:Ec; [done |].
  destruct h; simpl; [by rewrite Ec | done].
Qed.

(** ** The failure report *)

Lemma write_at_empty (data : list byte) : write_at [] 0 data = data.
Proof.
  unfold write_at. simpl. rewrite drop_nil. by rewrite app_nil_r.
Qed.

Lemma write_failure_report_none (failed_dir json_name : string) (s : State) :
  failed_resources s = [] -> write_failure_report failed_dir json_name s = (Ok tt, s).
Proof. unfold write_failure_report. by intros ->. Qed.







Example report_path_of_scenario :
  path_join (path_join (path_join "/work" "failed") Scenario.version) Scenario.json_name
    = Scenario.report_path.
Proof. reflexivity. Qed.



(** The report of the one-entry catalog of the specification, character
    by character, and the report of an entry that carries a further key:
    the entry is written as it was loaded. *)
Example report_of_a_bin :
  let nl := String (ascii_of_nat 10) EmptyString in
  let sized :=
    mkEntry [("dest"%string, JString "a.bin"); ("md5"%string, JString "00");
             ("size"%string, JInt 10)] "a.bin" "00" in
  failure_report [Scenario.a_bin] =
    ("{" ++ nl
      ++ "    " ++ dq ++ "resource" ++ dq ++ ": [" ++ nl
      ++ "        {" ++ nl
      ++ "            " ++ dq ++ "dest" ++ dq ++ ": " ++ dq ++ "a.bin" ++ dq ++ "," ++ nl
      ++ "            " ++ dq ++ "md5" ++ dq ++ ": "
      ++ dq ++ "16c52c6e8326c071da771e66dc6e9e57" ++ dq ++ nl
      ++ "        }" ++ nl
      ++ "    ]" ++ nl
      ++ "}")%string /\
  failure_report [sized] =
    ("{" ++ nl
      ++ "    " ++ dq ++ "resource" ++ dq ++ ": [" ++ nl
      ++ "        {" ++ nl
      ++ "            " ++ dq ++ "dest" ++ dq ++ ": " ++ dq ++ "a.bin" ++ dq ++ "," ++ nl
      ++ "            " ++ dq ++ "md5" ++ dq ++ ": " ++ dq ++ "00" ++ dq ++ "," ++ nl
      ++ "            " ++ dq ++ "size" ++ dq ++ ": 10" ++ nl
      ++ "        }" ++ nl
      ++ "    ]" ++ nl
      ++ "}")%string.
Proof. vm_compute. done. Qed.

Lemma second_run_skips_everything_witness :
  let srv := Scenario.one_file_server "http://host/zip/a.bin" (Scenario.letters 10) in
  let s1 := (download_resources [Scenario.a_bin] Scenario.main_url Scenario.version
               Scenario.json_name false 2 4 (Scenario.fresh srv)).2 in
  exists s2,
    download_resources [Scenario.a_bin] Scenario.main_url Scenario.version
      Scenario.json_name false 2 4 s1 = (Ok tt, s2) /\
    run_batch [Scenario.a_bin] Scenario.main_url (base_dir_of (cwd s1) Scenario.version)
      false 2 4 (set_failed [] s1) = (Ok (map (fun _ => Ok true) [Scenario.a_bin]), s2) /\
    Forall (fun future => outcome s1 s2 future = Some Skipped)
           (map (fun _ : Resource => Ok true) [Scenario.a_bin]) /\
    net s2 = net s1 /\
    fs s2 = fs s1 /\
    failed_resources s2 = [].
Proof.
  intros srv s1.
  apply (second_run_skips_everything [Scenario.a_bin] Scenario.main_url Scenario.version
           Scenario.json_name false 2 4 (Scenario.fresh srv) s1).
  - vm_compute. reflexivity.
  - constructor; [vm_compute; reflexivity | constructor].
Defined.


(** ** Loading the catalog *)

Section LoaderProperties.
Variable json_loads : list byte -> option json.

Lemma load_resources_url (u : string) (file : option string) (s : State) :
  u <> EmptyString ->
  load_resources json_loads (Some u) file s =
    let s' := set_net (net s ++ [GET u None]) s in
    match server s (net s) (GET u None) with
    | None => (Raise RequestException, s')
    | Some resp =>
        if broken resp then (Raise RequestException, s')
        else match json_loads (body resp) with
             | Some j => (Ok (j, basename u), s')
             | None => (Raise JSONDecodeError, s')
             end
    end.
Proof.
  intros Hu. destruct u as [|c u]; [done |].
  unfold load_resources. cbn [provided default id].
  unfold bind at 1. unfold requests_get, send.
  destruct (server s (net s) (GET (String c u) None)) as [resp|]; [| done].
  cbn zeta. unfold bind at 1.
  destruct (broken resp); [done |]. cbn [ret].
  unfold bind at 1. unfold parse_json.
  destruct (json_loads (body resp)); done.
Qed.

Lemma load_resources_file (url : option string) (f : string) (s : State) :
  provided url = false -> f <> EmptyString ->
  load_resources json_loads url (Some f) s =
    let s' := set_opened (opened s ++ [f]) s in
    match stat (fs s) f with
    | Some (File c) =>
        match json_loads c with
        | Some j => (Ok (j, basename f), s')
        | None => (Raise JSONDecodeError, s')
        end
    | Some Dir => (Raise IsADirectoryError, s')
    | None => (Raise (missing_error (fs s) f), s')
    end.
Proof.
  intros Hurl Hf. destruct f as [|c f]; [done |].
  unfold load_resources. rewrite Hurl. cbn [provided default id].
  unfold bind at 1. unfold open_read, bind, log_open. cbn [fs set_opened].
  destruct (stat (fs s) (String c f)) as [[t|]|]; try done.
  unfold parse_json. destruct (json_loads t); done.
Qed.

Lemma provided_true (a : option string) :
  provided a = true <-> exists u, a = Some u /\ u <> EmptyString.
Proof.
  destruct a as [[|c u]|]; simpl; split; try done.
  - intros (u & [= <-] & Hu). done.
  - intros _. by eexists.
  - intros (u & [=] & _).
Qed.

(** C10, as amended.  With neither argument provided (both [None] or
    empty) [load_resources] raises the [ValueError] of line 124 and does
    nothing else, and that exception, the one with the message of line
    124, is raised in no other case.  It is not the only [ValueError]:
    with a source provided whose content [json] cannot decode, the call
    raises an exception that is a [ValueError] as well.  When the URL is
    provided it is requested and no file is opened, whatever [json_file]
    is; and whenever a value is returned it is the parsed JSON of the
    chosen source paired with the basename of that source. *)
Theorem load_resources_contract (json_url json_file : option string) (s : State) :
  (provided json_url = false -> provided json_file = false ->
   load_resources json_loads json_url json_file s =
     (Raise (ValueError "Either json_url or json_file must be provided."), s)) /\
  (forall s',
     load_resources json_loads json_url json_file s =
       (Raise (ValueError "Either json_url or json_file must be provided."), s') ->
     provided json_url = false /\ provided json_file = false) /\
  (forall u resp,
     json_url = Some u -> provided json_url = true ->
     server s (net s) (GET u None) = Some resp -> broken resp = false ->
     json_loads (body resp) = None ->
     exists e s',
       load_resources json_loads json_url json_file s = (Raise e, s') /\
       is_ValueError e = true) /\
  (forall f c,
     provided json_url = false -> json_file = Some f -> provided json_file = true ->
     stat (fs s) f = Some (File c) -> json_loads c = None ->
     exists e s',
       load_resources json_loads json_url json_file s = (Raise e, s') /\
       is_ValueError e = true) /\
  (provided json_url = true ->
   opened (load_resources json_loads json_url json_file s).2 = opened s /\
   exists u, json_url = Some u /\
             net (load_resources json_loads json_url json_file s).2
               = net s ++ [GET u None]) /\
  (forall j name s',
     load_resources json_loads json_url json_file s = (Ok (j, name), s') ->
     (exists u resp,
        json_url = Some u /\ provided json_url = true /\
        server s (net s) (GET u None) = Some resp /\
        json_loads (body resp) = Some j /\ name = basename u) \/
     (exists f c,
        json_file = Some f /\ provided json_url = false /\
        stat (fs s) f = Some (File c) /\
        json_loads c = Some j /\ name = basename f)).
Proof.
  destruct (provided json_url) eqn:Hurl.
  - apply provided_true in Hurl as Hu. destruct Hu as (u & -> & Hu).
    rewrite (load_resources_url u json_file s Hu). cbn zeta.
    split_ands.
    + done.
    + intros s' H.
      destruct (server s (net s) (GET u None)) as [resp|]; [| done].
      destruct (broken resp); [done |].
      destruct (json_loads (body resp)); done.
    + intros u' resp [= <-] _ Hsrv Hbr Hj. rewrite Hsrv, Hbr, Hj. by eexists _, _.
    + done.
    + intros _. split.
      * destruct (server s (net s) (GET u None)) as [resp|]; [| done].
        destruct (broken resp); [done |].
        destruct (json_loads (body resp)); done.
      * exists u. split; [done |].
        destruct (server s (net s) (GET u None)) as [resp|]; [| done].
        destruct (broken resp); [done |].
        destruct (json_loads (body resp)); done.
    + intros j name s' H. left.
      destruct (server s (net s) (GET u None)) as [resp|] eqn:Es; [| done].
      destruct (broken resp); [done |].
      destruct (json_loads (body resp)) as [j'|] eqn:Ej; [| done].
      injection H as <- <- <-. exists u, resp. done.
  - destruct (provided json_file) eqn:Hfile.
    + apply provided_true in Hfile as Hf. destruct Hf as (f & -> & Hf).
      rewrite (load_resources_file json_url f s Hurl Hf). cbn zeta.
      split_ands.
      * done.
      * intros s' H.
        destruct (stat (fs s) f) as [[c|]|]; [| done |].
        -- destruct (json_loads c); done.
        -- unfold missing_error in H. destruct (existsb _ _); done.
      * done.
      * intros f' c _ [= <-] _ Hst Hj. rewrite Hst, Hj. by eexists _, _.
      * done.
      * intros j name s' H. right.
        destruct (stat (fs s) f) as [[c|]|] eqn:Ef; try done.
        destruct (json_loads c) as [j'|] eqn:Ej; [| done].
        injection H as <- <- <-. exists f, c. done.
    + assert (load_resources json_loads json_url json_file s =
              (Raise (ValueError "Either json_url or json_file must be provided."), s))
        as ->.
      { unfold load_resources. by rewrite Hurl, Hfile. }
      split_ands; done.
Qed.

End LoaderProperties.

(** The original claim fails in its "only if" half: with a URL provided,
    a body that is not JSON (here: an empty body) makes [response.json()]
    raise [JSONDecodeError], which is a [ValueError]. *)
Example undecodable_source_raises_value_error :
  let s := Scenario.fresh (Scenario.one_file_server "http://host/catalog.json" []) in
  let run := load_resources Scenario.sample_loads
               (Some "http://host/catalog.json"%string) None s in
  provided (Some "http://host/catalog.json"%string) = true /\
  run.1 = Raise JSONDecodeError /\
  is_ValueError JSONDecodeError = true.
Proof. vm_compute. done. Qed.

Lemma load_resources_contract_witness :
  let s := Scenario.stored
             (Scenario.one_file_server "http://host/catalog.json" [x7b; x7d])
             (mkResource "local.json" EmptyString) [x5b; x5d] in
  let run := load_resources Scenario.sample_loads (Some "http://host/catalog.json"%string)
               (Some "/work/download/1.0/local.json"%string) s in
  run.1 = Ok (JString "{}", "catalog.json"%string) /\
  opened run.2 = opened s /\
  exists u, Some "http://host/catalog.json"%string = Some u /\
            net run.2 = net s ++ [GET u None].
Proof.
  intros s run. split; [vm_compute; reflexivity |].
  apply (load_resources_contract Scenario.sample_loads
           (Some "http://host/catalog.json"%string)
           (Some "/work/download/1.0/local.json"%string) s).
  reflexivity.
Defined.


(** ** Chunk workers and their file objects *)

Lemma writes_of_app (i : nat) (t1 t2 : list FileEvent) :
  writes_of i (t1 ++ t2) = writes_of i t1 ++ writes_of i t2.
Proof.
  induction t1 as [|ev t1 IH]; [done |].
  destruct ev as [| |j h pos d|]; simpl; try done.
  destruct (Nat.eqb i j); simpl; by rewrite IH.
Qed.

Lemma expected_writes_app (start : Z) (a b : list (list byte)) :
  expected_writes start (a ++ b) =
    expected_writes start a
      ++ expected_writes (start + Z.of_nat (length (concat a))) b.
Proof.
  revert start. induction a as [|d a IH]; intros start; simpl.
  - by rewrite Z.add_0_r.
  - rewrite IH. do 3 f_equal. rewrite length_app. lia.
Qed.

Lemma worker_ok_other (start : Z) (body : list byte) (i : nat) (w : Worker)
    (p p' : Pool) :
  worker_ok start body i w p ->
  writes_of i (p_trace p') = writes_of i (p_trace p) ->
  (forall ev, ev ∈ p_trace p -> ev ∈ p_trace p') ->
  (forall h, EvOpen i h ∈ p_trace p -> p_handles p' !! h = p_handles p !! h) ->
  worker_ok start body i w p'.
Proof.
  intros Hok Hw Hmono Hh. destruct w as [s b|h s b|h todo|]; simpl in *.
  - destruct Hok as (? & ? & ?). split_ands; congruence.
  - destruct Hok as (? & ? & ? & ?). split_ands; try congruence. auto.
  - destruct Hok as (written & ? & ? & ? & Ho). exists written.
    split_ands; try congruence; [| auto]. rewrite (Hh h Ho). done.
  - congruence.
Qed.

Lemma pool_inv_start (total_size : Z) (jobs : list (Z * list byte)) :
  pool_inv jobs (start_workers total_size jobs).
Proof.
  split; simpl.
  - by rewrite length_map.
  - intros ev H. by apply elem_of_nil in H.
  - intros i h pos d H. by apply elem_of_nil in H.
  - intros i j h H. by apply elem_of_nil in H.
  - intros i job w Hj Hw. rewrite list_lookup_fmap, Hj in Hw.
    injection Hw as <-. simpl. done.
Qed.

Lemma writes_of_other (i : nat) (ev : FileEvent) :
  event_worker ev <> i -> writes_of i [ev] = [].
Proof.
  destruct ev as [| |j h pos d|]; simpl; try done.
  intros Hne. destruct (Nat.eqb_spec i j); [congruence | done].
Qed.

(** One file operation of worker [k], seen from the invariant: it adds
    one event of [k] to the trace, on a fresh file object if it is an
    [open] and on a file object [k] opened otherwise, and it changes the
    position of that file object only. *)
Lemma pool_inv_update (jobs : list (Z * list byte)) (ws : list Worker) (p p' : Pool)
    (k : nat) (w w' : Worker) (ev : FileEvent) (job : Z * list byte) :
  pool_inv jobs (mkSys ws p) ->
  jobs !! k = Some job -> ws !! k = Some w ->
  p_trace p' = p_trace p ++ [ev] ->
  event_worker ev = k ->
  (p_next p <= p_next p')%nat ->
  (event_handle ev < p_next p')%nat ->
  (if is_open_event ev then (p_next p <= event_handle ev)%nat
   else EvOpen k (event_handle ev) ∈ p_trace p) ->
  (forall h, h <> event_handle ev -> p_handles p' !! h = p_handles p !! h) ->
  worker_ok (fst job) (snd job) k w' p' ->
  pool_inv jobs (mkSys (<[k := w']> ws) p').
Proof.
  intros [Hlen Hfresh Howner Huniq Hws] Hjob Hk Htr Hwk Hnext Hev Hown Hframe Hok.
  cbn [workers pool] in *.
  assert (forall e, e ∈ p_trace p -> e ∈ p_trace p') as Hmono.
  { intros e He. rewrite Htr. apply elem_of_app. by left. }
  assert (forall e, e ∈ p_trace p' -> e ∈ p_trace p \/ e = ev) as Hinv.
  { intros e He. rewrite Htr in He. apply elem_of_app in He as [He|He]; [by left |].
    apply list_elem_of_singleton in He. by right. }
  split; cbn [workers pool].
  - by rewrite length_insert.
  - intros e He. destruct (Hinv e He) as [Hold| ->]; [| done].
    specialize (Hfresh e Hold). lia.
  - intros i h pos d He. apply Hmono.
    destruct (Hinv _ He) as [Hold| <-]; [by eapply Howner |].
    cbn in Hwk, Hown. by subst k.
  - intros i j h Hi Hj.
    destruct (Hinv _ Hi) as [Hi'| <-]; destruct (Hinv _ Hj) as [Hj'|Hj'].
    + by eapply Huniq.
    + subst ev. cbn in Hown. specialize (Hfresh _ Hi'). cbn in Hfresh. lia.
    + cbn in Hown. specialize (Hfresh _ Hj'). cbn in Hfresh. lia.
    + by injection Hj' as ->.
  - intros i job' w0 Hj Hw0.
    destruct (decide (i = k)) as [->|Hne].
    + rewrite list_lookup_insert_eq in Hw0 by (by eapply lookup_lt_Some).
      injection Hw0 as <-. rewrite Hjob in Hj. by injection Hj as <-.
    + rewrite list_lookup_insert_ne in Hw0 by done.
      apply (worker_ok_other _ _ _ _ p); [by apply Hws | | done |].
      * rewrite Htr, writes_of_app, writes_of_other, app_nil_r; [done | congruence].
      * intros h Hh. apply Hframe. intros ->.
        destruct (is_open_event ev).
        -- specialize (Hfresh _ Hh). cbn in Hfresh. lia.
        -- apply Hne. by eapply Huniq.
Qed.

Lemma pool_inv_step (jobs : list (Z * list byte)) (sys : Sys) (k : nat) :
  pool_inv jobs sys -> pool_inv jobs (step sys k).
Proof.
  intros Inv. unfold step. destruct sys as [ws p]. cbn [workers pool].
  destruct (ws !! k) as [w|] eqn:Hk; [| done].
  destruct (jobs !! k) as [job|] eqn:Hjob.
  2:{ apply lookup_lt_Some in Hk. apply lookup_ge_None in Hjob.
      pose proof (inv_len _ _ Inv) as Hl. cbn in Hl. lia. }
  pose proof (inv_workers _ _ Inv k job w Hjob Hk) as Hok. cbn [pool] in Hok.
  pose proof (inv_fresh _ _ Inv) as Hfresh. cbn [pool] in Hfresh.
  destruct w as [s b|h s b|h [|d todo]|]; cbn [step_worker].
  - (* open *)
    destruct Hok as (-> & -> & Hw).
    eapply (pool_inv_update jobs ws p _ k _ _ (EvOpen k (p_next p)) job);
      try done; cbn; try lia.
    + intros h Hh. by rewrite lookup_insert_ne.
    + rewrite writes_of_app, Hw. split_ands; try done.
      apply elem_of_app. right. by apply list_elem_of_singleton.
  - (* seek *)
    destruct Hok as (-> & -> & Hw & Ho).
    eapply (pool_inv_update jobs ws p _ k _ _ (EvSeek k h (fst job)) job);
      try done; cbn; try lia.
    + apply (Hfresh _ Ho).
    + intros h' Hh. by rewrite lookup_insert_ne.
    + exists (@nil (list byte)).
      rewrite writes_of_app, Hw, lookup_insert_eq. split_ands; try done.
      * f_equal. cbn. lia.
      * apply elem_of_app. by left.
  - (* close *)
    destruct Hok as (written & Hp & Hw & Hh & Ho).
    eapply (pool_inv_update jobs ws p _ k _ _ (EvClose k h) job);
      try done; cbn; try lia.
    + apply (Hfresh _ Ho).
    + intros h' Hne. by rewrite lookup_delete_ne.
    + rewrite writes_of_app, Hw, Hp. cbn. by rewrite !app_nil_r.
  - (* write *)
    destruct Hok as (written & Hp & Hw & Hh & Ho). rewrite Hh. cbn [default].
    eapply (pool_inv_update jobs ws p _ k _ _
              (EvWrite k h (fst job + Z.of_nat (length (concat written))) d) job);
      try done; cbn; try lia.
    + apply (Hfresh _ Ho).
    + intros h' Hne. by rewrite lookup_insert_ne.
    + exists (written ++ [d]). split_ands.
      * by rewrite <- app_assoc.
      * rewrite writes_of_app, Hw, expected_writes_app. cbn.
        by rewrite Nat.eqb_refl.
      * rewrite lookup_insert_eq. f_equal.
        rewrite concat_app, length_app. cbn. rewrite app_nil_r. lia.
      * apply elem_of_app. by left.
  - (* finished *)
    replace (<[k := WDone]> ws) with ws; [done |].
    symmetry. by apply list_insert_id.
Qed.

Lemma pool_inv_run (jobs : list (Z * list byte)) (schedule : list nat) (sys : Sys) :
  pool_inv jobs sys -> pool_inv jobs (run_schedule schedule sys).
Proof.
  revert sys. induction schedule as [|k schedule IH]; intros sys Inv; [done |].
  apply IH. by apply pool_inv_step.
Qed.

(** C9, as amended.  Under every interleaving of the chunk workers of
    one file, each worker writes through the file object it opened
    itself and no file object is written by two workers; so each
    worker's writes land, piece after piece, from its own range start,
    as if it ran alone, and a worker that has finished has written
    exactly the pieces of its response. *)
Theorem chunk_workers_use_private_handles (total_size : Z)
    (jobs : list (Z * list byte)) (schedule : list nat) :
  let final := run_schedule schedule (start_workers total_size jobs) in
  let trace := p_trace (pool final) in
  (forall i h pos data, EvWrite i h pos data ∈ trace -> EvOpen i h ∈ trace) /\
  (forall i j h pos data pos' data',
     EvWrite i h pos data ∈ trace -> EvWrite j h pos' data' ∈ trace -> i = j) /\
  (forall i job,
     jobs !! i = Some job ->
     writes_of i trace `prefix_of` expected_writes (fst job) (pieces 1024 (snd job))) /\
  (forall i job,
     jobs !! i = Some job -> workers final !! i = Some WDone ->
     writes_of i trace = expected_writes (fst job) (pieces 1024 (snd job))).
Proof.
  intros final trace.
  pose proof (pool_inv_run jobs schedule _ (pool_inv_start total_size jobs)) as Inv.
  fold final in Inv. destruct Inv as [Hlen Hfresh Howner Huniq Hws].
  fold trace in Hfresh, Howner, Huniq.
  split_ands.
  - exact Howner.
  - intros i j h pos d pos' d' Hi Hj. eapply Huniq; eapply Howner; eauto.
  - intros i job Hjob.
    destruct (workers final !! i) as [w|] eqn:Hw.
    2:{ apply lookup_ge_None in Hw. apply lookup_lt_Some in Hjob. lia. }
    specialize (Hws i job w Hjob Hw). unfold trace.
    destruct w as [s b|h s b|h todo|]; cbn in Hws.
    + destruct Hws as (_ & _ & Hwr). rewrite Hwr. apply prefix_nil.
    + destruct Hws as (_ & _ & Hwr & _). rewrite Hwr. apply prefix_nil.
    + destruct Hws as (written & Hp & Hwr & _).
      rewrite Hwr, Hp, expected_writes_app. by eexists.
    + by rewrite Hws.
  - intros i job Hjob Hw. exact (Hws i job WDone Hjob Hw).
Qed.


(** Two workers that alternate step by step: each opens a file object of
    its own, both set their position before either writes, and the file
    still comes out right.  The writes do not go through one shared file
    object. *)
Lemma writes_use_two_file_objects :
  let final := run_schedule Scenario.alternating
                 (start_workers 10 Scenario.two_jobs) in
  p_trace (pool final) =
    [EvOpen 0 0; EvOpen 1 1; EvSeek 0 0 0; EvSeek 1 1 5;
     EvWrite 0 0 0 (Scenario.letters 5); EvWrite 1 1 5 (Scenario.letters 5);
     EvClose 0 0; EvClose 1 1] /\
  p_content (pool final) = Scenario.letters 10 /\
  ~ one_shared_handle (p_trace (pool final)).
Proof.
  intros final.
  assert (p_trace (pool final) =
            [EvOpen 0 0; EvOpen 1 1; EvSeek 0 0 0; EvSeek 1 1 5;
             EvWrite 0 0 0 (Scenario.letters 5); EvWrite 1 1 5 (Scenario.letters 5);
             EvClose 0 0; EvClose 1 1]) as Htrace
    by (vm_compute; reflexivity).
  split; [exact Htrace |]. split; [vm_compute; reflexivity |].
  rewrite Htrace. intros [h Hall].
  assert (0%nat = h) as H0.
  { apply (Hall 0%nat 0%nat 0 (Scenario.letters 5)). set_solver. }
  assert (1%nat = h) as H1.
  { apply (Hall 1%nat 1%nat 5 (Scenario.letters 5)). set_solver. }
  congruence.
Qed.

(** In the sequential model the same shows in the log of opened files:
    the destination is opened once to be pre-sized, once by each chunk
    worker, and once to be hashed. *)
Example each_chunk_opens_the_file :
  let p := dest_path_of Scenario.base_dir Scenario.a_bin in
  let run := download_and_verify_file Scenario.a_bin Scenario.main_url
               Scenario.base_dir true 2
               (Scenario.fresh (Scenario.range_server (Scenario.letters 5))) in
  run.1 = Ok true /\ opened run.2 = [p; p; p; p].
Proof. vm_compute. done. Qed.

Lemma chunk_workers_use_private_handles_witness :
  let final := run_schedule Scenario.alternating
                 (start_workers 10 Scenario.two_jobs) in
  writes_of 1 (p_trace (pool final)) =
    expected_writes 5 (pieces 1024 (Scenario.letters 5)).
Proof.
  intros final.
  destruct (chunk_workers_use_private_handles 10 Scenario.two_jobs Scenario.alternating)
    as (_ & _ & _ & H).
  apply (H 1%nat (5, Scenario.letters 5)); vm_compute; reflexivity.
Defined.

(** ** Supporting facts on the premises used above *)

Lemma reported_nil (base_dir : string) (s : State) (rs : list Resource)
    (futures : list (result bool)) :
  Forall2 (future_agrees base_dir s) rs futures ->
  Forall (fun future => exists b, future = Ok b) futures ->
  reported rs futures = [] ->
  Forall (fun r => digest_matches base_dir s r = true) rs.
Proof.
  induction 1 as [|r fut rs futures Hag _ IH]; intros Hall Hrep; [constructor |].
  inversion Hall as [|? ? [b ->] Hall']; subst.
  destruct b; cbn [reported] in Hrep; [| done].
  constructor; [by destruct Hag | by apply IH].
Qed.

(** X20.  A first run over distinct destination paths in normal form
    (so that distinct paths are distinct files) that returns with an
    empty failure list leaves every file with its expected digest: the
    premise of the second-run property is what a fully successful run
    establishes. *)
Lemma successful_run_leaves_valid_files (rs : list Resource)
    (main_url version json_name : string) (multi : bool) (n maxc : Z)
    (s0 s1 : State) :
  Forall (fun r => normal_path (dest_path_of (base_dir_of (cwd s0) version) r) = true)
         rs ->
  NoDup (map (dest_path_of (base_dir_of (cwd s0) version)) rs) ->
  download_resources rs main_url version json_name multi n maxc s0 = (Ok tt, s1) ->
  failed_resources s1 = [] ->
  Forall (fun r => digest_matches (base_dir_of (cwd s0) version) s1 r = true) rs.
Proof.
  intros _ Hnd Hrun Hempty. rewrite download_resources_eq in Hrun.
  set (fd := failed_dir_of (cwd s0) version) in *.
  set (bd := base_dir_of (cwd s0) version) in *.
  destruct (makedirs fd s0) as [[[]|e] sa]; [| done].
  destruct (run_batch rs main_url bd multi n maxc (set_failed [] sa))
    as [[futures|e] sc] eqn:Hbatch; [| done].
  apply run_batch_eq in Hbatch as (_ & Hsub & Hall).
  destruct (submit_all_file_tasks main_url bd multi n rs (set_failed [] sa) Hnd)
    as (futures' & sc' & E & _ & _ & _ & _ & Hfailed & Hag).
  rewrite Hsub in E. injection E as <- <-. cbn [failed_resources set_failed app] in Hfailed.
  pose proof (touches_write_failure_report fd json_name sc) as Hrep.
  rewrite Hrun in Hrep. cbn [snd] in Hrep.
  assert (failed_resources sc = []) as Hsc.
  { rewrite <- (to_failed _ _ _ Hrep). exact Hempty. }
  rewrite (write_failure_report_none fd json_name sc Hsc) in Hrun.
  injection Hrun as <-.
  apply (reported_nil bd sc rs futures Hag Hall). congruence.
Qed.

(** Two catalog entries whose destinations differ only by a leading
    slash name one file.  The first is valid on disk and skipped, the
    second replaces the file and succeeds: nothing is reported although
    the first entry's file no longer matches.  This is why the batch
    property asks for distinct destination paths. *)
Example aliased_destinations :
  let alias := mkResource "/a.bin" (md5_hexdigest (Scenario.letters 3)) in
  let srv := Scenario.one_file_server "http://host/zip/a.bin" (Scenario.letters 3) in
  let s := Scenario.stored srv Scenario.a_bin (Scenario.letters 10) in
  let run := run_batch [Scenario.a_bin; alias] Scenario.main_url Scenario.base_dir
               false 2 4 s in
  dest Scenario.a_bin <> dest alias /\
  dest_path_of Scenario.base_dir Scenario.a_bin = dest_path_of Scenario.base_dir alias /\
  run.1 = Ok [Ok true; Ok true] /\
  failed_resources run.2 = [] /\
  digest_matches Scenario.base_dir run.2 Scenario.a_bin = false.
Proof. vm_compute. split; [discriminate | done]. Qed.


(** * Further properties *)

(** ** Writing at an offset *)

Lemma write_at_prefix_length (old : list byte) (pos : nat) :
  length (take pos old ++ replicate (pos - length old) zero_byte) = pos.
Proof. rewrite length_app, length_take, length_replicate. lia. Qed.

Lemma length_write_at (old : list byte) (pos : nat) (data : list byte) :
  length (write_at old pos data) = Nat.max (length old) (pos + length data).
Proof.
  unfold write_at. rewrite !length_app, length_take, length_replicate, length_drop. lia.
Qed.

(** Two writes one after the other are one write of both pieces. *)
Lemma write_at_app (old : list byte) (pos : nat) (a b : list byte) :
  write_at (write_at old pos a) (pos + length a) b = write_at old pos (a ++ b).
Proof.
  unfold write_at at 1.
  set (w := write_at old pos a).
  assert (w = (take pos old ++ replicate (pos - length old) zero_byte)
                ++ a ++ drop (pos + length a) old) as Hw.
  { unfold w, write_at. by rewrite <- !app_assoc. }
  pose proof (write_at_prefix_length old pos) as Hp.
  set (pre := take pos old ++ replicate (pos - length old) zero_byte) in *.
  assert (take (pos + length a) w = pre ++ a) as Htake.
  { rewrite Hw, app_assoc. apply take_app_length'. rewrite length_app. lia. }
  assert (drop (pos + length a + length b) w = drop (pos + length (a ++ b)) old) as Hdrop.
  { rewrite Hw, app_assoc.
    rewrite drop_app_ge by (rewrite length_app; lia).
    rewrite drop_drop, length_app, length_app. f_equal. lia. }
  assert (pos + length a - length w = 0)%nat as Hz.
  { unfold w. rewrite length_write_at. lia. }
  rewrite Htake, Hdrop, Hz. cbn [replicate app].
  unfold write_at, pre. by rewrite <- !app_assoc.
Qed.

(** Bytes before the written region are kept (or are zero past the old
    end), bytes of the region are the data, bytes after it are kept. *)
Lemma write_at_lookup (old : list byte) (pos : nat) (data : list byte) (i : nat) :
  write_at old pos data !! i =
    if decide (i < pos)%nat then
      (if decide (i < length old)%nat then old !! i else Some zero_byte)
    else if decide (i < pos + length data)%nat then data !! (i - pos)%nat
    else old !! i.
Proof.
  unfold write_at. pose proof (write_at_prefix_length old pos) as Hp.
  rewrite app_assoc.
  set (pre := take pos old ++ replicate (pos - length old) zero_byte) in *.
  destruct (decide (i < pos)%nat) as [Hlt|Hge].
  - rewrite lookup_app_l by lia. unfold pre.
    destruct (decide (i < length old)%nat) as [Hl|Hl].
    + rewrite lookup_app_l by (rewrite length_take; lia).
      by rewrite lookup_take_lt.
    + rewrite lookup_app_r by (rewrite length_take; lia).
      rewrite length_take. apply lookup_replicate_2. lia.
  - rewrite lookup_app_r by lia. rewrite Hp.
    destruct (decide (i < pos + length data)%nat) as [Hd|Hd].
    + by rewrite lookup_app_l by lia.
    + rewrite lookup_app_r by lia. rewrite lookup_drop. f_equal. lia.
Qed.

(** ** Streaming a response into a file *)

Lemma set_fs_id (s : State) : set_fs (fs s) s = s.
Proof. by destruct s. Qed.

Lemma set_fs_set_fs (f g : gmap string node) (s : State) :
  set_fs g (set_fs f s) = set_fs g s.
Proof. done. Qed.

(** The write loop of lines 22-23 and 72-74: piece by piece it writes the
    whole body at the position of the file object, which advances by the
    length of the body. *)
Lemma write_pieces (fuel n : nat) (body : list byte) (p : string) (z : Z)
    (old : list byte) (s : State) :
  (0 < n)%nat -> (length body <= fuel)%nat -> 0 <= z ->
  fs s !! p = Some (File old) ->
  for_each (pieces_fuel fuel n body) (mkHandle p z) f_write s =
    (Ok (mkHandle p (z + Z.of_nat (length body))),
     set_fs (<[p := File (stream_written old (Z.to_nat z) body)]> (fs s)) s).
Proof.
  intros Hn. revert body z old s.
  induction fuel as [|fuel IH]; intros body z old s Hlen Hz Hold.
  - destruct body; [| simpl in Hlen; lia]. cbn.
    rewrite Z.add_0_r, (insert_id _ _ _ Hold), set_fs_id. done.
  - destruct body as [|b l].
    { cbn. rewrite Z.add_0_r, (insert_id _ _ _ Hold), set_fs_id. done. }
    set (body := b :: l) in *.
    change (pieces_fuel (S fuel) n body)
      with (take n body :: pieces_fuel fuel n (drop n body)).
    cbn [for_each]. unfold bind at 1.
    unfold f_write at 1. cbn [h_path h_pos]. rewrite Hold.
    set (d := take n body).
    set (old1 := write_at old (Z.to_nat z) d).
    set (s1 := set_fs (<[p := File old1]> (fs s)) s).
    assert (length d + length (drop n body) = length body)%nat as Hsplit.
    { unfold d. rewrite <- length_app, take_drop. done. }
    rewrite (IH (drop n body) (z + Z.of_nat (length d)) old1 s1).
    + f_equal.
      * f_equal. f_equal. lia.
      * unfold s1. rewrite set_fs_set_fs. cbn [fs set_fs].
        rewrite insert_insert_eq. do 3 f_equal.
        change (stream_written old (Z.to_nat z) body) with (write_at old (Z.to_nat z) body).
        destruct (drop n body) as [|b' l'] eqn:Hdrop.
        -- cbn [stream_written]. unfold old1. f_equal.
           rewrite <- (take_drop n body), Hdrop, app_nil_r. done.
        -- cbn [stream_written]. unfold old1.
           rewrite Z2Nat.inj_add, Nat2Z.id by lia.
           rewrite write_at_app. f_equal.
           unfold d. rewrite <- Hdrop. apply take_drop.
    + rewrite length_drop. unfold body in *. cbn [length] in *. lia.
    + lia.
    + unfold s1. cbn [fs set_fs]. apply lookup_insert_eq.
Qed.

Lemma write_stream_eq (p : string) (z : Z) (r : Response) (old : list byte) (s : State) :
  0 <= z -> fs s !! p = Some (File old) ->
  write_stream (mkHandle p z) r 1024 s =
    (if broken r then Raise RequestException
     else Ok (mkHandle p (z + Z.of_nat (length (body r)))),
     set_fs (<[p := File (stream_written old (Z.to_nat z) (body r))]> (fs s)) s).
Proof.
  intros Hz Hold. unfold write_stream, bind, pieces.
  rewrite (write_pieces _ 1024 (body r) p z old s) by (done || lia).
  by destruct (broken r).
Qed.

Lemma stream_written_empty_file (body : list byte) : stream_written [] 0 body = body.
Proof. destruct body; [done |]. apply write_at_empty. Qed.

Lemma fetch_single_eq (url p : string) (s : State) (resp : Response) :
  server s (net s) (GET url None) = Some resp ->
  writable (fs s) p ->
  fetch_single url p s =
    (if broken resp then Raise RequestException else Ok tt,
     set_fs (<[p := File (body resp)]> (fs s))
       (set_opened (opened s ++ [p]) (set_net (net s ++ [GET url None]) s))).
Proof.
  intros Hsrv (Hend & Hnd & Hdir).
  unfold fetch_single, requests_get, send. unfold bind at 1. rewrite Hsrv.
  unfold bind at 1. unfold open_write, bind, log_open. cbn [fs set_net set_opened].
  rewrite Hend, Hdir.
  assert (match fs s !! p with
          | Some Dir => (Raise IsADirectoryError,
                         set_opened (opened s ++ [p]) (set_net (net s ++ [GET url None]) s))
          | _ => (Ok (mkHandle p 0),
                  set_fs (<[p := File []]> (fs s))
                    (set_opened (opened s ++ [p]) (set_net (net s ++ [GET url None]) s)))
          end
          = (Ok (mkHandle p 0),
             set_fs (<[p := File []]> (fs s))
               (set_opened (opened s ++ [p]) (set_net (net s ++ [GET url None]) s)))) as E.
  { destruct (fs s !! p) as [[c|]|]; done. }
  cbn [cwd server fs net opened failed_resources set_net set_opened] in *.
  rewrite E. clear E.
  rewrite (write_stream_eq p 0 resp []) by (done || apply lookup_insert_eq).
  cbn [Z.to_nat]. rewrite stream_written_empty_file.
  cbn [fs set_fs]. rewrite insert_insert_eq.
  by destruct (broken resp).
Qed.

Lemma download_chunk_eq (url p : string) (start end_ : Z) (index : nat)
    (s : State) (resp : Response) (old : list byte) :
  server s (net s) (GET url (Some (start, end_))) = Some resp ->
  stat (fs s) p = Some (File old) ->
  0 <= start ->
  download_chunk url start end_ p index s =
    (if broken resp then Raise RequestException else Ok index,
     set_fs (<[p := File (stream_written old (Z.to_nat start) (body resp))]> (fs s))
       (set_opened (opened s ++ [p])
          (set_net (net s ++ [GET url (Some (start, end_))]) s))).
Proof.
  intros Hsrv Hst Hstart.
  pose proof (proj1 (stat_File _ _ _) Hst) as (_ & _ & Hold).
  unfold download_chunk, requests_get, send. unfold bind at 1. rewrite Hsrv.
  unfold bind at 1. unfold open_update, bind, log_open. cbn [fs set_net set_opened].
  rewrite Hst. unfold f_seek. destruct (Z.ltb_spec start 0) as [?|_]; [lia |].
  cbn [ret h_path].
  rewrite (write_stream_eq p start resp old) by done.
  cbn [fs set_fs set_opened set_net]. by destruct (broken resp).
Qed.

(** Filling the next range of a partly assembled file. *)
Lemma fill_slice (content : list byte) (a e : Z) :
  0 <= a -> a <= e + 1 -> e + 1 <= Z.of_nat (length content) ->
  stream_written
    (take (Z.to_nat a) content ++ replicate (length content - Z.to_nat a) zero_byte)
    (Z.to_nat a) (slice content a e)
  = take (Z.to_nat (e + 1)) content
      ++ replicate (length content - Z.to_nat (e + 1)) zero_byte.
Proof.
  intros Ha Hae He. unfold slice.
  set (an := Z.to_nat a). set (w := Z.to_nat (e - a + 1)).
  replace (Z.to_nat (e + 1)) with (an + w)%nat by (unfold an, w; lia).
  assert (an + w <= length content)%nat as Hfit by (unfold an, w; lia).
  set (T := length content) in *.
  assert (length (take w (drop an content)) = w) as Hbody.
  { rewrite length_take, length_drop. lia. }
  destruct (decide (w = 0)%nat) as [Hw0|Hw0].
  - rewrite Hw0, Nat.add_0_r. done.
  - assert (stream_written
              (take an content ++ replicate (T - an) zero_byte) an
              (take w (drop an content))
            = write_at (take an content ++ replicate (T - an) zero_byte) an
                (take w (drop an content))) as ->.
    { destruct (take w (drop an content)); [simpl in Hbody; lia | done]. }
    unfold write_at. rewrite Hbody.
    rewrite take_app_length' by (rewrite length_take; lia).
    rewrite length_app, length_take, length_replicate.
    rewrite drop_app_ge by (rewrite length_take; lia).
    rewrite length_take, drop_replicate. subst T.
    replace (an - (an `min` length content + (length content - an)))%nat
      with 0%nat by lia.
    cbn [replicate app].
    rewrite app_assoc, take_take_drop. f_equal. f_equal. lia.
Qed.

(** ** Reassembling a file from its ranges *)

Lemma chain_nonneg (a : Z) (cs : list (Z * Z)) (total : Z) :
  chain a cs total -> a <= total.
Proof.
  revert a. induction cs as [|c cs IH]; intros a H; simpl in H.
  - lia.
  - destruct H as (_ & ? & ? & _). lia.
Qed.

(** The ranges of lines 28-30 follow one another from 0 to the size. *)
Lemma make_chunks_chain (T N : Z) :
  0 <= T -> 0 < N ->
  exists cs, make_chunks T N = Ok cs /\ length cs = Z.to_nat N /\ chain 0 cs T.
Proof.
  intros HT HN.
  destruct (make_chunks_lookup T N HN) as (cs & Hmk & Hlen & Hlk).
  exists cs. split; [done |]. split; [done |].
  assert (0 <= T / N) as Hq by (apply Z.div_pos; lia).
  assert (N * (T / N) <= T) as Hle by (apply Z.mul_div_le; lia).
  assert (forall d k : nat,
            (k + d = Z.to_nat N)%nat ->
            chain (if decide (d = 0)%nat then T else Z.of_nat k * (T / N))
                  (drop k cs) T) as Hchain.
  { induction d as [|d IH]; intros k Hk.
    - rewrite drop_ge by lia. done.
    - rewrite (drop_S cs _ k (Hlk k ltac:(lia))).
      cbn [chain fst snd]. rewrite decide_False by lia.
      specialize (IH (S k) ltac:(lia)).
      destruct (decide (S k = Z.to_nat N)) as [Hlast|Hmid].
      + rewrite decide_True in IH by lia.
        split_ands; [done | nia | lia |].
        replace (T - 1 + 1) with T by lia. exact IH.
      + rewrite decide_False in IH by lia.
        split_ands; [done | nia | nia |].
        replace ((Z.of_nat k + 1) * (T / N) - 1 + 1)
          with (Z.of_nat (S k) * (T / N)) by lia.
        exact IH. }
  specialize (Hchain (Z.to_nat N) 0%nat ltac:(lia)).
  rewrite decide_False in Hchain by lia. simpl in Hchain. exact Hchain.
Qed.

(** The chunk workers run over ranges that follow one another, against a
    server that honours ranges: every worker returns its index, one
    request is sent per range, and the partly assembled file is
    completed. *)
Lemma submit_chunks (url p : string) (content : list byte) (cs : list (Z * Z))
    (a : Z) (g : nat -> nat) (s : State) :
  serves_ranges (server s) url content ->
  chain a cs (Z.of_nat (length content)) -> 0 <= a ->
  stat (fs s) p =
    Some (File (take (Z.to_nat a) content
                  ++ replicate (length content - Z.to_nat a) zero_byte)) ->
  exists s',
    submit_all
      (imap (fun i '(start, end_) => download_chunk url start end_ p (g i)) cs) s
      = (Ok (imap (fun i _ => Ok (g i)) cs), s') /\
    fs s' = <[p := File content]> (fs s) /\
    net s' = net s ++ map (fun c => GET url (Some c)) cs /\
    opened s' = opened s ++ replicate (length cs) p /\
    server s' = server s /\ cwd s' = cwd s /\
    failed_resources s' = failed_resources s.
Proof.
  revert a g s. induction cs as [|[st en] cs IH]; intros a g s Hsrv Hch Ha Hst.
  - simpl in Hch. exists s. cbn. rewrite !app_nil_r. split_ands; try done.
    pose proof (proj1 (stat_File _ _ _) Hst) as (_ & _ & Hold).
    rewrite Hch, Nat2Z.id, Nat.sub_diag, firstn_all in Hold.
    cbn in Hold. rewrite app_nil_r in Hold. by rewrite (insert_id _ _ _ Hold).
  - cbn [chain fst snd] in Hch. destruct Hch as (-> & Hae & Hen & Hch).
    destruct (Hsrv (net s) a en) as [cl Hresp].
    pose proof (download_chunk_eq url p a en (g 0%nat) s _ _ Hresp Hst Ha) as Hdc.
    cbn [broken body] in Hdc. rewrite (fill_slice content a en Ha Hae Hen) in Hdc.
    set (s1 := set_fs _ _) in Hdc.
    destruct (IH (en + 1) (g ∘ S) s1) as (s' & E & Hfs & Hnet & Hop & Hsv & Hcwd & Hfl).
    + exact Hsrv.
    + exact Hch.
    + lia.
    + apply stat_File. pose proof (proj1 (stat_File _ _ _) Hst) as (? & ? & _).
      split_ands; try done. unfold s1. cbn [fs set_fs]. apply lookup_insert_eq.
    + exists s'. split_ands.
      * cbn [imap submit_all]. rewrite Hdc. unfold bind.
        change (imap ((fun i '(start, end_) => download_chunk url start end_ p (g i)) ∘ S) cs)
          with (imap (fun i '(start, end_) => download_chunk url start end_ p ((g ∘ S) i)) cs).
        rewrite E. done.
      * rewrite Hfs. unfold s1. cbn [fs set_fs]. apply insert_insert_eq.
      * rewrite Hnet. unfold s1. cbn [net set_fs set_opened set_net map].
        by rewrite <- app_assoc.
      * rewrite Hop. unfold s1. cbn [opened set_fs set_opened length replicate].
        by rewrite <- app_assoc.
      * by rewrite Hsv.
      * by rewrite Hcwd.
      * by rewrite Hfl.
Qed.

Lemma open_write_eq (p : string) (s : State) :
  writable (fs s) p ->
  open_write p s =
    (Ok (mkHandle p 0),
     set_fs (<[p := File []]> (fs s)) (set_opened (opened s ++ [p]) s)).
Proof.
  intros (Hend & Hnd & Hdir).
  unfold open_write, bind, log_open. cbn [fs set_opened].
  rewrite Hend, Hdir. destruct (fs s !! p) as [[c|]|]; done.
Qed.

Lemma writable_nonempty (f : gmap string node) (p : string) :
  writable f p -> p <> EmptyString.
Proof.
  intros (_ & _ & Hdir) ->. apply stat_Dir in Hdir as [Hne _]. by apply Hne.
Qed.

Lemma first_raise_all_ok {A B} (f : nat -> A -> B) (l : list A) :
  first_raise (imap (fun i x => Ok (f i x)) l) = None.
Proof.
  revert f. induction l as [|x l IH]; intros f; [done |].
  cbn [imap first_raise]. apply (IH (fun i => f (S i))).
Qed.

Lemma download_file_multi_connection_faithful (url p : string) (content : list byte)
    (n : Z) (s : State) :
  0 < n ->
  serves_ranges (server s) url content ->
  writable (fs s) p ->
  exists cs s',
    make_chunks (Z.of_nat (length content)) n = Ok cs /\
    download_file_multi_connection url p (Z.of_nat (length content)) n s = (Ok tt, s') /\
    fs s' = <[p := File content]> (fs s) /\
    net s' = net s ++ map (fun c => GET url (Some c)) cs /\
    failed_resources s' = failed_resources s.
Proof.
  intros Hn Hsrv Hw.
  destruct (make_chunks_chain (Z.of_nat (length content)) n ltac:(lia) Hn)
    as (cs & Hmk & _ & Hch).
  pose proof (writable_nonempty _ _ Hw) as Hp.
  pose proof Hw as (Hend & _ & _).
  unfold download_file_multi_connection. rewrite Hmk.
  unfold bind at 1. cbn [lift].
  unfold bind at 1. rewrite (open_write_eq p s Hw).
  unfold bind at 1. unfold f_truncate. cbn [h_path fs set_fs].
  destruct (Z.ltb_spec (Z.of_nat (length content)) 0) as [?|_]; [lia |].
  rewrite lookup_insert_eq, insert_insert_eq.
  unfold bind at 1. unfold thread_pool.
  destruct (Z.leb_spec n 0) as [?|_]; [lia |]. cbn [ret].
  set (s1 := set_fs _ _).
  destruct (submit_chunks url p content cs 0 id s1)
    as (s' & E & Hfs & Hnet & _ & _ & _ & Hfl); try done.
  { apply stat_File. split_ands; try done. unfold s1. cbn [fs set_fs].
    rewrite lookup_insert_eq. unfold resize. rewrite Nat2Z.id, take_nil.
    reflexivity. }
  exists cs, s'. split; [done |]. split_ands.
  - unfold bind at 1.
    change (imap (fun idx '(start, end_) => download_chunk url start end_ p idx) cs)
      with (imap (fun i '(start, end_) => download_chunk url start end_ p (id i)) cs).
    rewrite E. rewrite wait_all_first_raise.
    by rewrite (first_raise_all_ok (fun i _ => id i) cs).
  - rewrite Hfs. unfold s1. cbn [fs set_fs]. apply insert_insert_eq.
  - rewrite Hnet. done.
  - rewrite Hfl. done.
Qed.


(** ** A download from a server that holds the file *)

Lemma writable_not_dir (f : gmap string node) (p : string) :
  writable f p -> stat f p <> Some Dir.
Proof.
  intros (Hend & Hnd & _) H. apply stat_Dir in H as [_ H].
  rewrite strip_trailing_id in H by done. done.
Qed.

Lemma download_and_verify_file_fetch (r : Resource) (main_url base_dir : string)
    (multi : bool) (n : Z) (s : State) :
  let p := dest_path_of base_dir r in
  let url := url_of main_url r in
  stat (fs s) (dirname p) = Some Dir ->
  stat (fs s) p <> Some Dir ->
  digest_matches base_dir s r = false ->
  exists o,
    download_and_verify_file r main_url base_dir multi n s =
      ((if multi then fetch_multi url p n else fetch_single url p) ;;
       verify_download r p) (set_opened o s).
Proof.
  intros p url Hdir Hnd Hinv.
  destruct (check_existing_invalid base_dir r s Hinv Hnd) as [o Hc].
  exists o. unfold download_and_verify_file. fold p url.
  unfold bind at 1. rewrite (makedirs_existing _ _ Hdir).
  unfold bind at 1. fold p in Hc. rewrite Hc. done.
Qed.

Lemma verify_download_eq (r : Resource) (p : string) (c : list byte) (s : State) :
  stat (fs s) p = Some (File c) ->
  verify_download r p s =
    if String.eqb (md5_hexdigest c) (md5 r)
    then (Ok true, set_opened (opened s ++ [p]) s)
    else (Ok false,
          set_failed (failed_resources s ++ [r]) (set_opened (opened s ++ [p]) s)).
Proof.
  intros H. unfold verify_download, bind. rewrite calculate_md5_eq, H.
  cbn beta iota zeta.
  destruct (String.eqb (md5_hexdigest c) (md5 r)); reflexivity.
Qed.

Lemma fetch_multi_faithful (url p : string) (content : list byte) (n : Z) (s : State) :
  0 < n ->
  serves_length (server s) url content ->
  serves_ranges (server s) url content ->
  writable (fs s) p ->
  exists cs s',
    make_chunks (Z.of_nat (length content)) n = Ok cs /\
    fetch_multi url p n s = (Ok tt, s') /\
    fs s' = <[p := File content]> (fs s) /\
    net s' = net s ++ HEAD url :: map (fun c => GET url (Some c)) cs /\
    failed_resources s' = failed_resources s.
Proof.
  intros Hn Hlen Hsrv Hw.
  destruct (Hlen (net s)) as (b & brk & Hhead).
  set (s1 := set_net (net s ++ [HEAD url]) s).
  destruct (download_file_multi_connection_faithful url p content n s1 Hn Hsrv Hw)
    as (cs & s' & Hmk & E & Hfs & Hnet & Hfl).
  exists cs, s'. split; [done |]. split_ands; try done.
  - unfold fetch_multi, requests_head, send. unfold bind at 1. rewrite Hhead.
    unfold header_content_length. cbn [content_length default]. exact E.
  - rewrite Hnet. unfold s1. cbn [net set_net]. by rewrite <- app_assoc.
Qed.

Lemma download_and_verify_file_faithful (r : Resource) (main_url base_dir : string)
    (multi : bool) (n : Z) (content : list byte) (s : State) :
  let p := dest_path_of base_dir r in
  let url := url_of main_url r in
  writable (fs s) p ->
  digest_matches base_dir s r = false ->
  0 < n ->
  (if multi then serves_length (server s) url content /\
                 serves_ranges (server s) url content
   else serves_whole (server s) url content) ->
  exists s',
    download_and_verify_file r main_url base_dir multi n s
      = (Ok (String.eqb (md5_hexdigest content) (md5 r)), s') /\
    fs s' = <[p := File content]> (fs s) /\
    failed_resources s' =
      failed_resources s
        ++ (if String.eqb (md5_hexdigest content) (md5 r) then [] else [r]).
Proof.
  intros p url Hw Hinv Hn Hsrv.
  pose proof Hw as (Hend & _ & Hdir).
  pose proof (writable_nonempty _ _ Hw) as Hp.
  destruct (download_and_verify_file_fetch r main_url base_dir multi n s
              Hdir (writable_not_dir _ _ Hw) Hinv) as [o ->].
  fold p url. set (s0 := set_opened o s).
  assert (exists s1,
            (if multi then fetch_multi url p n else fetch_single url p) s0 = (Ok tt, s1) /\
            fs s1 = <[p := File content]> (fs s) /\
            failed_resources s1 = failed_resources s) as (s1 & Ef & Hfs & Hfl).
  { destruct multi.
    - destruct Hsrv as [Hl Hr].
      destruct (fetch_multi_faithful url p content n s0 Hn Hl Hr Hw)
        as (cs & s1 & _ & E & Hfs & _ & Hfl).
      by exists s1.
    - destruct (Hsrv (net s0)) as [cl Hresp].
      eexists. split; [| split].
      + rewrite (fetch_single_eq url p s0 _ Hresp Hw). cbn [broken]. reflexivity.
      + done.
      + done. }
  unfold bind. rewrite Ef.
  assert (stat (fs s1) p = Some (File content)) as Hst.
  { apply stat_File. split_ands; try done. rewrite Hfs. apply lookup_insert_eq. }
  rewrite (verify_download_eq r p content s1 Hst).
  destruct (String.eqb (md5_hexdigest content) (md5 r)).
  - eexists. split; [reflexivity |]. cbn [fs failed_resources set_opened].
    by rewrite Hfs, Hfl, app_nil_r.
  - eexists. split; [reflexivity |]. cbn [fs failed_resources set_opened set_failed].
    by rewrite Hfs, Hfl.
Qed.

(** ** Further properties of the partition *)

(** X1.  The division is even and the remainder goes to the last range:
    every range but the last is [T div N] bytes wide, and the last is
    [T div N + T mod N] bytes wide. *)
Theorem chunk_widths (T N : Z) (cs : list (Z * Z)) (i : nat) (c : Z * Z) :
  0 < N ->
  make_chunks T N = Ok cs ->
  cs !! i = Some c ->
  snd c - fst c + 1 =
    if decide (S i = Z.to_nat N) then T / N + T mod N else T / N.
Proof.
  intros HN Hmk Hc.
  destruct (make_chunks_lookup T N HN) as (cs' & Hmk' & Hlen & Hlk).
  rewrite Hmk in Hmk'. injection Hmk' as <-.
  pose proof (lookup_lt_Some _ _ _ Hc) as Hi. rewrite Hlen in Hi.
  rewrite (Hlk i Hi) in Hc. injection Hc as <-. cbn [fst snd].
  pose proof (Z.div_mod T N ltac:(lia)) as Hdm.
  case_decide; nia.
Qed.

Lemma chunk_widths_witness :
  snd (6, 9) - fst (6, 9) + 1 =
    if decide (3%nat = Z.to_nat 3) then 10 / 3 + 10 mod 3 else 10 / 3.
Proof.
  apply (chunk_widths 10 3 [(0, 2); (3, 5); (6, 9)] 2 (6, 9)); [lia | | ]; reflexivity.
Defined.

Lemma invalid_connection_count_raises (T n : Z) :
  n <= 0 ->
  make_chunks T n = Raise (if n =? 0 then ZeroDivisionError else IndexError).
Proof.
  intros Hn. unfold make_chunks.
  destruct (Z.eqb_spec n 0) as [->|Hne]; [done |].
  unfold range. replace (Z.to_nat n) with 0%nat by lia. done.
Qed.

(** X2.  A connection count that is not positive fails on lines 28-30, before
    the destination is opened and before any request: nothing changes. *)
Theorem invalid_connection_count_has_no_effect (url p : string) (T n : Z) (s : State) :
  n <= 0 ->
  download_file_multi_connection url p T n s =
    (Raise (if n =? 0 then ZeroDivisionError else IndexError), s).
Proof.
  intros Hn. unfold download_file_multi_connection, bind, lift, make_chunks.
  destruct (Z.eqb_spec n 0) as [->|Hne]; [done |].
  unfold range. replace (Z.to_nat n) with 0%nat by lia. done.
Qed.

Lemma invalid_connection_count_has_no_effect_witness :
  download_file_multi_connection "u" "p" 10 (-2) (Scenario.fresh Scenario.unreachable) =
    (Raise (if -2 =? 0 then ZeroDivisionError else IndexError),
     Scenario.fresh Scenario.unreachable).
Proof.
  apply (invalid_connection_count_has_no_effect "u" "p" 10 (-2)
           (Scenario.fresh Scenario.unreachable)).
  lia.
Defined.

(** ** Further properties of [calculate_md5] *)




(** ** What a fetch leaves in the destination *)

Lemma stream_written_lookup (old : list byte) (pos : nat) (body : list byte) :
  (forall i, (i < pos)%nat -> (i < length old)%nat ->
             stream_written old pos body !! i = old !! i) /\
  (forall i, (i < length body)%nat ->
             stream_written old pos body !! (pos + i)%nat = body !! i) /\
  (forall i, (pos + length body <= i)%nat ->
             stream_written old pos body !! i = old !! i).
Proof.
  destruct body as [|b l].
  - cbn [stream_written length]. split_ands; [done | intros; lia | done].
  - cbn [stream_written]. set (body := b :: l). split_ands.
    + intros i H1 H2. rewrite write_at_lookup.
      rewrite decide_True by done. by rewrite decide_True.
    + intros i Hi. rewrite write_at_lookup.
      rewrite decide_False by lia. rewrite decide_True by lia. f_equal. lia.
    + intros i Hi. rewrite write_at_lookup.
      rewrite decide_False by lia. by rewrite decide_False by lia.
Qed.

(** X4.  One chunk worker, when its request is answered and the destination
    exists: it sends exactly its range request and writes every byte of
    the body from offset [start] on, the range end playing no part; the
    bytes before the offset and after the written region are kept; the
    call returns its index unless the connection broke. *)
Theorem download_chunk_writes_at_offset (url p : string) (start end_ : Z)
    (index : nat) (s : State) (resp : Response) (old : list byte) :
  server s (net s) (GET url (Some (start, end_))) = Some resp ->
  stat (fs s) p = Some (File old) ->
  0 <= start ->
  exists s' new,
    download_chunk url start end_ p index s =
      (if broken resp then Raise RequestException else Ok index, s') /\
    fs s' = <[p := File new]> (fs s) /\
    net s' = net s ++ [GET url (Some (start, end_))] /\
    (forall i, (i < Z.to_nat start)%nat -> (i < length old)%nat -> new !! i = old !! i) /\
    (forall i, (i < length (body resp))%nat ->
               new !! (Z.to_nat start + i)%nat = body resp !! i) /\
    (forall i, (Z.to_nat start + length (body resp) <= i)%nat -> new !! i = old !! i).
Proof.
  intros Hsrv Hst Hstart.
  eexists _, (stream_written old (Z.to_nat start) (body resp)).
  split; [apply (download_chunk_eq url p start end_ index s resp old); done |].
  split; [done |]. split; [done |]. apply stream_written_lookup.
Qed.

(** X5.  The single-connection fetch, when its request is answered and the
    destination can be created: the destination holds exactly the
    delivered body, whatever it held before and even if the connection
    broke after it; one plain [GET] was sent; the rest of the file system
    is unchanged. *)
Theorem single_stream_stores_body (url p : string) (s : State) (resp : Response) :
  server s (net s) (GET url None) = Some resp ->
  writable (fs s) p ->
  exists s',
    fetch_single url p s =
      (if broken resp then Raise RequestException else Ok tt, s') /\
    fs s' = <[p := File (body resp)]> (fs s) /\
    net s' = net s ++ [GET url None] /\
    failed_resources s' = failed_resources s.
Proof.
  intros Hsrv Hw. eexists. split; [by apply fetch_single_eq |]. done.
Qed.

(** X6.  Chunked download against a server that honours ranges: for any
    positive number of connections the destination ends up holding
    exactly the remote content, whatever it held before; the requests
    sent are one range request per chunk and nothing else; the rest of
    the file system is unchanged and nothing is recorded as failed. *)
Theorem chunked_download_reassembles (url p : string) (content : list byte)
    (n : Z) (s : State) :
  0 < n ->
  serves_ranges (server s) url content ->
  writable (fs s) p ->
  exists cs s' sent,
    make_chunks (Z.of_nat (length content)) n = Ok cs /\
    download_file_multi_connection url p (Z.of_nat (length content)) n s = (Ok tt, s') /\
    fs s' = <[p := File content]> (fs s) /\
    net s' = net s ++ sent /\
    sent ≡ₚ map (fun c => GET url (Some c)) cs /\
    failed_resources s' = failed_resources s.
Proof.
  intros Hn Hsrv Hw.
  destruct (download_file_multi_connection_faithful url p content n s Hn Hsrv Hw)
    as (cs & s' & Hmk & Hrun & Hfs & Hnet & Hfail).
  exists cs, s', (map (fun c => GET url (Some c)) cs). done.
Qed.


(** X8.  Chunking does not show in the outcome: against a server that holds
    the file, the multi-connection mode with any positive number of
    connections and the single-connection mode return the same value and
    leave the same file system and failure list. *)
Theorem chunked_and_single_agree (r : Resource) (main_url base_dir : string)
    (n : Z) (content : list byte) (s : State) :
  let p := dest_path_of base_dir r in
  let url := url_of main_url r in
  let chunked := download_and_verify_file r main_url base_dir true n s in
  let single := download_and_verify_file r main_url base_dir false n s in
  writable (fs s) p ->
  digest_matches base_dir s r = false ->
  0 < n ->
  serves_length (server s) url content ->
  serves_ranges (server s) url content ->
  serves_whole (server s) url content ->
  chunked.1 = single.1 /\
  fs chunked.2 = fs single.2 /\
  failed_resources chunked.2 = failed_resources single.2.
Proof.
  intros p url chunked single Hw Hinv Hn Hl Hr Hwh.
  destruct (download_and_verify_file_faithful r main_url base_dir true n content s
              Hw Hinv Hn (conj Hl Hr)) as (s1 & E1 & F1 & L1).
  destruct (download_and_verify_file_faithful r main_url base_dir false n content s
              Hw Hinv Hn Hwh) as (s2 & E2 & F2 & L2).
  unfold chunked, single. rewrite E1, E2. cbn [fst snd].
  split; [done |]. split; congruence.
Qed.

Ltac show_writable :=
  split; [reflexivity | split; [vm_compute; discriminate | vm_compute; reflexivity]].

Ltac show_serves := intros ?; intros; repeat eexists; reflexivity.

Lemma download_chunk_writes_at_offset_witness :
  let srv := honest_server (Scenario.letters 10) in
  let s := Scenario.stored srv Scenario.a_bin (replicate 10 zero_byte) in
  let p := dest_path_of Scenario.base_dir Scenario.a_bin in
  exists s' new,
    download_chunk "u" 5 9 p 1 s = (Ok 1%nat, s') /\
    fs s' = <[p := File new]> (fs s) /\
    net s' = net s ++ [GET "u" (Some (5, 9))] /\
    (forall i, (i < Z.to_nat 5)%nat -> (i < length (replicate 10 zero_byte))%nat ->
               new !! i = replicate 10 zero_byte !! i) /\
    (forall i, (i < length (slice (Scenario.letters 10) 5 9))%nat ->
               new !! (Z.to_nat 5 + i)%nat = slice (Scenario.letters 10) 5 9 !! i) /\
    (forall i, (Z.to_nat 5 + length (slice (Scenario.letters 10) 5 9) <= i)%nat ->
               new !! i = replicate 10 zero_byte !! i).
Proof.
  intros srv s p.
  apply (download_chunk_writes_at_offset "u" p 5 9 1 s
           (mkResponse None (slice (Scenario.letters 10) 5 9) false)
           (replicate 10 zero_byte)).
  - reflexivity.
  - vm_compute. reflexivity.
  - lia.
Defined.

Lemma single_stream_stores_body_witness :
  let srv := honest_server (Scenario.letters 10) in
  let s := Scenario.stored srv Scenario.z_bin [] in
  let p := dest_path_of Scenario.base_dir Scenario.a_bin in
  exists s',
    fetch_single "u" p s = (Ok tt, s') /\
    fs s' = <[p := File (Scenario.letters 10)]> (fs s) /\
    net s' = net s ++ [GET "u" None] /\
    failed_resources s' = failed_resources s.
Proof.
  intros srv s p.
  apply (single_stream_stores_body "u" p s
           (mkResponse (Some 10) (Scenario.letters 10) false)).
  - reflexivity.
  - show_writable.
Defined.

Lemma chunked_download_reassembles_witness :
  let content := Scenario.letters 10 in
  let s := Scenario.stored (honest_server content) Scenario.z_bin [] in
  let p := dest_path_of Scenario.base_dir Scenario.a_bin in
  exists cs s' sent,
    make_chunks (Z.of_nat (length content)) 3 = Ok cs /\
    download_file_multi_connection "u" p (Z.of_nat (length content)) 3 s = (Ok tt, s') /\
    fs s' = <[p := File content]> (fs s) /\
    net s' = net s ++ sent /\
    sent ≡ₚ map (fun c => GET "u" (Some c)) cs /\
    failed_resources s' = failed_resources s.
Proof.
  intros content s p.
  apply (chunked_download_reassembles "u" p content 3 s).
  - lia.
  - show_serves.
  - show_writable.
Defined.


Lemma chunked_and_single_agree_witness :
  let content := Scenario.letters 10 in
  let s := Scenario.stored (honest_server content) Scenario.z_bin [] in
  let chunked := download_and_verify_file Scenario.a_bin Scenario.main_url
                   Scenario.base_dir true 3 s in
  let single := download_and_verify_file Scenario.a_bin Scenario.main_url
                  Scenario.base_dir false 3 s in
  chunked.1 = single.1 /\
  fs chunked.2 = fs single.2 /\
  failed_resources chunked.2 = failed_resources single.2.
Proof.
  intros content s.
  apply (chunked_and_single_agree Scenario.a_bin Scenario.main_url
           Scenario.base_dir 3 content s).
  - show_writable.
  - vm_compute. reflexivity.
  - lia.
  - show_serves.
  - show_serves.
  - show_serves.
Defined.

(** ** The requests of a chunked download *)

#[local] Instance same_net_preorder : PreOrder same_net.
Proof.
  split.
  - intros s. by split.
  - intros s1 s2 s3 [H1 H2] [K1 K2]. split; congruence.
Qed.

Lemma same_net_open_update (p : string) : preserves same_net (open_update p).
Proof.
  intros s. unfold open_update, bind, log_open. cbn [fs set_opened].
  destruct (stat (fs s) p) as [[c|]|]; by split.
Qed.

Lemma same_net_f_seek (f : Handle) (pos : Z) : preserves same_net (f_seek f pos).
Proof. intros s. unfold f_seek. destruct (pos <? 0); by split. Qed.

Lemma same_net_f_write (f : Handle) (data : list byte) : preserves same_net (f_write f data).
Proof.
  intros s. unfold f_write. destruct (fs s !! h_path f) as [[old|]|]; by split.
Qed.

Lemma same_net_write_stream (f : Handle) (r : Response) (n : nat) :
  preserves same_net (write_stream f r n).
Proof.
  unfold write_stream. apply preserves_bind; [apply _ | |].
  - apply (preserves_for_each same_net (fun _ => True)); [done | |done].
    intros g x _. apply same_net_f_write.
  - intros g. destruct (broken r); [apply preserves_raise | apply preserves_ret]; apply _.
Qed.

(** A chunk worker sends its one request first and nothing after it,
    whatever happens to the request, the file or the stream. *)
Lemma download_chunk_net (url p : string) (start end_ : Z) (index : nat) (s : State) :
  net (download_chunk url start end_ p index s).2
    = net s ++ [GET url (Some (start, end_))] /\
  server (download_chunk url start end_ p index s).2 = server s.
Proof.
  unfold download_chunk, requests_get.
  set (rest := fun response : Response =>
                 f <- open_update p ;; f <- f_seek f start ;;
                 _ <- write_stream f response 1024 ;; ret index).
  assert (forall response, preserves same_net (rest response)) as Hrest.
  { intros response. unfold rest.
    apply preserves_bind; [apply _ | apply same_net_open_update |]. intros f.
    apply preserves_bind; [apply _ | apply same_net_f_seek |]. intros f'.
    apply preserves_bind; [apply _ | apply same_net_write_stream |]. intros _.
    apply preserves_ret, _. }
  change (net (bind (send (GET url (Some (start, end_)))) rest s).2
            = net s ++ [GET url (Some (start, end_))] /\
          server (bind (send (GET url (Some (start, end_)))) rest s).2 = server s).
  unfold bind, send.
  destruct (server s (net s) (GET url (Some (start, end_)))) as [resp|]; [| done].
  destruct (Hrest resp (set_net (net s ++ [GET url (Some (start, end_))]) s)) as [H1 H2].
  destruct (rest resp _) as [res s']. cbn [snd] in *. by rewrite H1, H2.
Qed.

Lemma submit_chunks_net (url p : string) (cs : list (Z * Z)) (g : nat -> nat) (s : State) :
  net (submit_all
         (imap (fun i '(start, end_) => download_chunk url start end_ p (g i)) cs) s).2
    = net s ++ map (fun c => GET url (Some c)) cs.
Proof.
  revert g s. induction cs as [|[st en] cs IH]; intros g s.
  - cbn. by rewrite app_nil_r.
  - cbn [imap submit_all map].
    destruct (download_chunk_net url p st en (g 0%nat) s) as [Hn _].
    destruct (download_chunk url st en p (g 0%nat) s) as [res s1]. cbn [snd] in Hn.
    specialize (IH (g ∘ S) s1).
    change (imap ((fun i '(start, end_) => download_chunk url start end_ p (g i)) ∘ S) cs)
      with (imap (fun i '(start, end_) => download_chunk url start end_ p ((g ∘ S) i)) cs).
    unfold bind.
    destruct (submit_all _ s1) as [[futures|e] s2]; cbn [snd ret] in *;
      rewrite IH, Hn, <- app_assoc; done.
Qed.

Lemma range_requests_sent (url p : string) (T n : Z) (cs : list (Z * Z))
    (s : State) :
  0 <= T ->
  make_chunks T n = Ok cs ->
  writable (fs s) p ->
  net (download_file_multi_connection url p T n s).2
    = net s ++ map (fun c => GET url (Some c)) cs.
Proof.
  intros HT Hmk Hw.
  assert (0 < n) as Hn.
  { destruct (Z.leb_spec n 0) as [Hle|Hlt]; [| done].
    pose proof (invalid_connection_count_raises T n Hle) as H. congruence. }
  unfold download_file_multi_connection. rewrite Hmk.
  unfold bind at 1. cbn [lift].
  unfold bind at 1. rewrite (open_write_eq p s Hw).
  unfold bind at 1. unfold f_truncate. cbn [h_path fs set_fs].
  destruct (Z.ltb_spec T 0) as [?|_]; [lia |].
  rewrite lookup_insert_eq.
  unfold bind at 1. unfold thread_pool.
  destruct (Z.leb_spec n 0) as [?|_]; [lia |]. cbn [ret].
  set (s1 := set_fs _ _).
  pose proof (submit_chunks_net url p cs id s1) as Hnet.
  change (imap (fun i '(start, end_) => download_chunk url start end_ p (id i)) cs)
    with (imap (fun idx '(start, end_) => download_chunk url start end_ p idx) cs) in Hnet.
  unfold bind.
  destruct (submit_all _ s1) as [[futures|e] s2]; cbn [snd] in *.
  - rewrite wait_all_state. exact Hnet.
  - exact Hnet.
Qed.

(** X9.  No early abort: once the destination has been created, a chunked
    download sends the range request of every chunk, whatever the server
    answers and whether the call returns or raises; a failed chunk does
    not keep the other ranges from being requested. *)
Theorem every_range_is_requested (url p : string) (T n : Z) (cs : list (Z * Z))
    (s : State) :
  0 <= T ->
  make_chunks T n = Ok cs ->
  writable (fs s) p ->
  exists sent,
    net (download_file_multi_connection url p T n s).2 = net s ++ sent /\
    sent ≡ₚ map (fun c => GET url (Some c)) cs.
Proof.
  intros HT Hmk Hw. exists (map (fun c => GET url (Some c)) cs).
  split; [by apply range_requests_sent | done].
Qed.


Lemma every_range_is_requested_witness :
  let s := Scenario.stored (first_range_fails (Scenario.letters 10)) Scenario.z_bin [] in
  let p := dest_path_of Scenario.base_dir Scenario.a_bin in
  exists sent,
    net (download_file_multi_connection "u" p 10 2 s).2 = net s ++ sent /\
    sent ≡ₚ map (fun c => GET "u" (Some c)) [(0, 4); (5, 9)].
Proof.
  intros s p.
  apply (every_range_is_requested "u" p 10 2 [(0, 4); (5, 9)] s).
  - lia.
  - reflexivity.
  - show_writable.
Defined.

(** With the first range refused, the second is still fetched and
    written, and the call raises the stored exception afterwards. *)
Example failed_chunk_does_not_stop_the_others :
  let s := Scenario.stored (first_range_fails (Scenario.letters 10)) Scenario.z_bin [] in
  let p := dest_path_of Scenario.base_dir Scenario.a_bin in
  let run := download_file_multi_connection "u" p 10 2 s in
  run.1 = Raise RequestException /\
  fs run.2 !! p = Some (File (replicate 5 zero_byte ++ Scenario.letters 5)).
Proof. vm_compute. done. Qed.

(** ** Checksums that cannot match *)

Lemma length_le_bytes (n : nat) (z : Z) : length (le_bytes n z) = n.
Proof. revert z. induction n as [|n IH]; intros z; simpl; [done | by rewrite IH]. Qed.

Lemma length_md5_digest (msg : list byte) : length (md5_digest msg) = 16%nat.
Proof.
  unfold md5_digest. destruct (md5_blocks _ _ _) as [[[a b] c] d].
  by rewrite !length_app, !length_le_bytes.
Qed.

Lemma hex_digit_lower (z : Z) : is_lower_hex (hex_digit z) = true.
Proof.
  unfold hex_digit. generalize (Z.to_nat z). intros k.
  do 16 (destruct k as [|k]; [reflexivity |]).
  simpl. by destruct k.
Qed.

Lemma hex_of_bytes_shape (bs : list byte) :
  String.length (hex_of_bytes bs) = (2 * length bs)%nat /\
  all_lower_hex (hex_of_bytes bs) = true.
Proof.
  induction bs as [|b bs [IH1 IH2]]; [done |].
  cbn [hex_of_bytes String.length all_lower_hex length].
  rewrite !hex_digit_lower, IH1, IH2. split; [lia | done].
Qed.

Lemma md5_hexdigest_shaped (msg : list byte) : hexdigest_shaped (md5_hexdigest msg) = true.
Proof.
  unfold hexdigest_shaped, md5_hexdigest.
  destruct (hex_of_bytes_shape (md5_digest msg)) as [-> ->].
  by rewrite length_md5_digest.
Qed.

(** X10.  A catalog checksum that is not 32 lower-case hexadecimal digits (an
    upper-case digest, say) never verifies: the orchestrator cannot
    return True for it, whatever the file and the server are. *)
Theorem malformed_checksum_never_verifies (r : Resource) (main_url base_dir : string)
    (multi : bool) (n : Z) (s s' : State) :
  hexdigest_shaped (md5 r) = false ->
  download_and_verify_file r main_url base_dir multi n s <> (Ok true, s').
Proof.
  intros Hbad Hrun.
  destruct (download_and_verify_file_cases r main_url base_dir multi n s)
    as (res & s'' & E & _ & _ & _ & _ & K). cbn zeta in *.
  rewrite Hrun in E. injection E as <- <-.
  destruct K as (_ & _ & c & _ & Hm).
  rewrite <- Hm, md5_hexdigest_shaped in Hbad. done.
Qed.

Lemma malformed_checksum_never_verifies_witness :
  let run := download_and_verify_file
               (mkResource "a.bin" "16C52C6E8326C071DA771E66DC6E9E57")
               Scenario.main_url Scenario.base_dir false 2
               (Scenario.stored Scenario.unreachable Scenario.a_bin (Scenario.letters 10)) in
  run <> (Ok true, run.2).
Proof.
  intros run.
  apply (malformed_checksum_never_verifies
           (mkResource "a.bin" "16C52C6E8326C071DA771E66DC6E9E57")
           Scenario.main_url Scenario.base_dir false 2).
  reflexivity.
Defined.

(** ** What a run leaves alone *)

#[local] Instance keeps_preorder (q : string) : PreOrder (keeps q).
Proof.
  split.
  - intros s. by split.
  - intros s1 s2 s3 [H1 H2] [K1 K2]. split; auto.
Qed.

Lemma touches_keeps (p q : string) (s s' : State) :
  q <> p -> touches_only p s s' -> keeps q s s'.
Proof.
  intros Hne H. split.
  - intros c Hc. by apply (to_files _ _ _ H).
  - apply (to_dirs _ _ _ H).
Qed.

Lemma string_cons_neq (c : ascii) (q : string) : q <> String c q.
Proof.
  intros H. apply (f_equal String.length) in H. simpl in H. lia.
Qed.

Lemma keeps_makedirs (q name : string) : preserves (keeps q) (makedirs name).
Proof.
  intros s. apply (touches_keeps (String "x" q)); [apply string_cons_neq |].
  apply touches_makedirs.
Qed.

Lemma keeps_file_task (q : string) (main_url base_dir : string) (multi : bool) (n : Z)
    (r : Resource) :
  q <> dest_path_of base_dir r ->
  preserves (keeps q) (file_task main_url base_dir multi n r).
Proof.
  intros Hne s. unfold file_task.
  destruct (download_and_verify_file_cases r main_url base_dir multi n s)
    as (res & s' & -> & _ & _ & Hd & Hf & _). cbn zeta in *. cbn [snd].
  split; [intros c Hc; by apply Hf | exact Hd].
Qed.

Lemma keeps_run_batch (q : string) (rs : list Resource) (main_url base_dir : string)
    (multi : bool) (n maxc : Z) :
  q ∉ map (dest_path_of base_dir) rs ->
  preserves (keeps q) (run_batch rs main_url base_dir multi n maxc).
Proof.
  intros Hq. unfold run_batch.
  apply preserves_bind; [apply _ | |].
  { intros s. unfold thread_pool. destruct (maxc <=? 0); reflexivity. }
  intros _. apply preserves_bind; [apply _ | |].
  - change (map (fun resource => download_and_verify_file resource main_url base_dir multi n) rs)
      with (map (file_task main_url base_dir multi n) rs).
    apply preserves_submit_all; [apply _ |].
    apply Forall_forall. intros t Ht.
    apply list_elem_of_fmap in Ht as (r & -> & Hr).
    apply keeps_file_task. intros ->. apply Hq.
    apply list_elem_of_fmap. by exists r.
  - intros futures. apply preserves_bind; [apply _ | apply preserves_wait_all, _ |].
    intros _. apply preserves_ret, _.
Qed.

(** X11.  A run writes the destinations of its catalog and its report, and
    nothing else: with all these paths in normal form, any other regular
    file (named in normal form, so that another path is another file)
    keeps its content and every directory stays a directory, whether the
    run returns or raises. *)
Theorem run_keeps_other_files (rs : list Resource) (main_url version json_name : string)
    (multi : bool) (n maxc : Z) (q : string) (s : State) :
  normal_path q = true ->
  Forall (fun r => normal_path (dest_path_of (base_dir_of (cwd s) version) r) = true) rs ->
  normal_path (path_join (failed_dir_of (cwd s) version) json_name) = true ->
  q ∉ map (dest_path_of (base_dir_of (cwd s) version)) rs ->
  q <> path_join (failed_dir_of (cwd s) version) json_name ->
  keeps q s (download_resources rs main_url version json_name multi n maxc s).2.
Proof.
  intros _ _ _ Hq Hrep.
  revert s Hq Hrep.
  assert (forall cwd_,
            q ∉ map (dest_path_of (base_dir_of cwd_ version)) rs ->
            q <> path_join (failed_dir_of cwd_ version) json_name ->
            preserves (keeps q)
              (makedirs (failed_dir_of cwd_ version) ;;
               (fun s => (Ok tt, set_failed [] s)) ;;
               _ <- run_batch rs main_url (base_dir_of cwd_ version) multi n maxc ;;
               write_failure_report (failed_dir_of cwd_ version) json_name)) as H.
  { intros cwd_ Hq Hrep.
    apply preserves_bind; [apply _ | apply keeps_makedirs |]. intros _.
    apply preserves_bind; [apply _ | by intros s; split |]. intros _.
    apply preserves_bind; [apply _ | by apply keeps_run_batch |]. intros _.
    intros s. apply (touches_keeps _ q _ _ Hrep), touches_write_failure_report. }
  intros s Hq Hrep. exact (H (cwd s) Hq Hrep s).
Qed.

Lemma run_keeps_other_files_witness :
  let s := Scenario.stored (honest_server (Scenario.letters 3)) Scenario.z_bin
             (Scenario.letters 2) in
  keeps (dest_path_of Scenario.base_dir Scenario.z_bin) s
    (download_resources [Scenario.a_bin] Scenario.main_url Scenario.version
       Scenario.json_name false 2 4 s).2.
Proof.
  intros s.
  apply (run_keeps_other_files [Scenario.a_bin] Scenario.main_url Scenario.version
           Scenario.json_name false 2 4 (dest_path_of Scenario.base_dir Scenario.z_bin) s).
  - reflexivity.
  - repeat constructor.
  - reflexivity.
  - cbn [map]. intros H. apply list_elem_of_singleton in H.
    vm_compute in H. discriminate.
  - vm_compute. discriminate.
Defined.

(** ** Edge cases of a run *)

(** X12.  An empty catalog: once the failure directory is there, the run
    returns without a request and without a report; it only empties the
    failure list. *)
Theorem empty_catalog_does_nothing (main_url version json_name : string)
    (multi : bool) (n maxc : Z) (s sa : State) :
  makedirs (failed_dir_of (cwd s) version) s = (Ok tt, sa) ->
  0 < maxc ->
  download_resources [] main_url version json_name multi n maxc s
    = (Ok tt, set_failed [] sa).
Proof.
  intros Hmk Hmax. rewrite download_resources_eq, Hmk.
  unfold run_batch, thread_pool. destruct (Z.leb_spec maxc 0) as [?|_]; [lia |].
  cbn. done.
Qed.

Lemma empty_catalog_does_nothing_witness :
  let s := Scenario.fresh Scenario.unreachable in
  download_resources [] Scenario.main_url Scenario.version Scenario.json_name true 2 4 s
    = (Ok tt, set_failed [] (makedirs (failed_dir_of (cwd s) Scenario.version) s).2).
Proof.
  intros s.
  apply (empty_catalog_does_nothing Scenario.main_url Scenario.version
           Scenario.json_name true 2 4 s).
  - vm_compute. reflexivity.
  - lia.
Defined.

(** X13.  A number of concurrent files that is not positive: the pool cannot
    be created, so the run raises [ValueError] after it has created the
    failure directory and emptied the failure list, without a single
    request, whatever the catalog is. *)
Theorem invalid_pool_size_raises (rs : list Resource)
    (main_url version json_name : string) (multi : bool) (n maxc : Z) (s sa : State) :
  makedirs (failed_dir_of (cwd s) version) s = (Ok tt, sa) ->
  maxc <= 0 ->
  download_resources rs main_url version json_name multi n maxc s
    = (Raise (ValueError "max_workers must be greater than 0"), set_failed [] sa).
Proof.
  intros Hmk Hmax. rewrite download_resources_eq, Hmk.
  unfold run_batch, thread_pool. destruct (Z.leb_spec maxc 0) as [_|?]; [| lia].
  done.
Qed.

Lemma invalid_pool_size_raises_witness :
  let s := Scenario.fresh Scenario.unreachable in
  download_resources [Scenario.a_bin] Scenario.main_url Scenario.version
    Scenario.json_name true 2 0 s
    = (Raise (ValueError "max_workers must be greater than 0"),
       set_failed [] (makedirs (failed_dir_of (cwd s) Scenario.version) s).2).
Proof.
  intros s.
  apply (invalid_pool_size_raises [Scenario.a_bin] Scenario.main_url Scenario.version
           Scenario.json_name true 2 0 s).
  - vm_compute. reflexivity.
  - lia.
Defined.

(** ** The failure list of a run *)

Lemma reported_sublist (rs : list Resource) (futures : list (result bool)) :
  reported rs futures `sublist_of` rs.
Proof.
  revert futures. induction rs as [|r rs IH]; intros futures.
  - destruct futures; constructor.
  - destruct futures as [|[[|]|e] futures]; cbn [reported].
    + apply sublist_nil_l.
    + apply sublist_cons, IH.
    + apply sublist_skip, IH.
    + apply sublist_cons, IH.
Qed.

Lemma submit_all_failed (main_url base_dir : string) (multi : bool) (n : Z)
    (rs : list Resource) (s : State) :
  exists futures s',
    submit_all (map (file_task main_url base_dir multi n) rs) s = (Ok futures, s') /\
    failed_resources s' = failed_resources s ++ reported rs futures.
Proof.
  revert s. induction rs as [|r rs IH]; intros s.
  - exists [], s. simpl. by rewrite app_nil_r.
  - destruct (download_and_verify_file_cases r main_url base_dir multi n s)
      as (res & s1 & E1 & _ & _ & _ & _ & K). cbn zeta in *.
    destruct (IH s1) as (futures & s' & E2 & L).
    exists (res :: futures), s'. split.
    + cbn [map submit_all]. unfold file_task at 1. rewrite E1.
      unfold bind. by rewrite E2.
    + rewrite L. destruct res as [[|]|e]; cbn [reported].
      * destruct K as [-> _]. done.
      * destruct K as [-> _]. by rewrite <- app_assoc.
      * by rewrite K.
Qed.

Lemma failed_sublist (rs : list Resource)
    (main_url version json_name : string) (multi : bool) (n maxc : Z) (s sa : State) :
  makedirs (failed_dir_of (cwd s) version) s = (Ok tt, sa) ->
  failed_resources
    (download_resources rs main_url version json_name multi n maxc s).2
    `sublist_of` rs.
Proof.
  intros Hmk. rewrite download_resources_eq, Hmk.
  set (bd := base_dir_of (cwd s) version). set (fd := failed_dir_of (cwd s) version).
  assert (failed_resources (run_batch rs main_url bd multi n maxc (set_failed [] sa)).2
            `sublist_of` rs) as Hb.
  { unfold run_batch, thread_pool. destruct (maxc <=? 0).
    - cbn. apply sublist_nil_l.
    - unfold bind at 1. cbn [ret].
      change (map (fun resource => download_and_verify_file resource main_url bd multi n) rs)
        with (map (file_task main_url bd multi n) rs).
      destruct (submit_all_failed main_url bd multi n rs (set_failed [] sa))
        as (futures & s' & E & Hf).
      unfold bind at 1. rewrite E. unfold bind.
      pose proof (wait_all_state futures s') as Hw.
      destruct (wait_all futures s') as [[[]|e] s'']; cbn [snd ret] in *; subst s'';
        rewrite Hf; apply reported_sublist. }
  destruct (run_batch rs main_url bd multi n maxc (set_failed [] sa))
    as [[futures|e] s1]; cbn [snd] in *; [| done].
  rewrite (to_failed _ _ _ (touches_write_failure_report fd json_name s1)). done.
Qed.

(** X14.  The failure list is started afresh by each run and only gets
    resources of the catalog, at most once per catalog entry: whatever
    the list held before, after the run it is, up to order, a part of
    the catalog, whether the run returns or raises. *)
Theorem failures_come_from_this_catalog (rs : list Resource)
    (main_url version json_name : string) (multi : bool) (n maxc : Z) (s sa : State) :
  makedirs (failed_dir_of (cwd s) version) s = (Ok tt, sa) ->
  failed_resources
    (download_resources rs main_url version json_name multi n maxc s).2
    ⊆+ rs.
Proof.
  intros Hmk. by apply sublist_submseteq, (failed_sublist _ _ _ _ _ _ _ _ sa).
Qed.

Lemma failures_come_from_this_catalog_witness :
  let s := mkState "/work" Scenario.unreachable {[ "/work"%string := Dir ]} [] []
             [Scenario.z_bin] in
  failed_resources
    (download_resources [Scenario.a_bin] Scenario.main_url Scenario.version
       Scenario.json_name false 2 4 s).2
    ⊆+ [Scenario.a_bin].
Proof.
  intros s.
  apply (failures_come_from_this_catalog [Scenario.a_bin] Scenario.main_url
           Scenario.version Scenario.json_name false 2 4 s
           (makedirs (failed_dir_of (cwd s) Scenario.version) s).2).
  vm_compute. reflexivity.
Defined.

(** ** A catalog URL that ends in a slash *)

Lemma rsplit_trailing_slash (u : string) :
  ends_with_slash u = true ->
  exists h, h <> EmptyString /\ rsplit_slash u = (h, EmptyString).
Proof.
  induction u as [|c u IH]; [done |].
  intros H. destruct u as [|c' u'].
  - exists (String c EmptyString). cbn in H |- *. by rewrite H.
  - destruct (IH H) as (h & Hh & E).
    exists (String c h). split; [done |].
    change (rsplit_slash (String c (String c' u')))
      with (let (h, t) := rsplit_slash (String c' u') in
            if is_slash c then (String c h, t)
            else match h with
                 | EmptyString => (EmptyString, String c t)
                 | _ => (String c h, t)
                 end).
    rewrite E. destruct (is_slash c); [done |]. by destruct h.
Qed.

Lemma basename_trailing_slash (u : string) :
  ends_with_slash u = true -> basename u = EmptyString.
Proof.
  intros H. destruct (rsplit_trailing_slash u H) as (h & _ & E).
  unfold basename. by rewrite E.
Qed.

Lemma append_empty_r (a : string) : (a ++ EmptyString)%string = a.
Proof. induction a as [|c a IH]; [done |]. by rewrite append_cons, IH. Qed.

Lemma ends_with_slash_join_empty (d : string) :
  d <> EmptyString ->
  ends_with_slash (path_join d EmptyString) = true /\
  strip_trailing (path_join d EmptyString) = strip_trailing d.
Proof.
  intros Hd. unfold path_join. cbn [starts_with_slash].
  destruct d as [|c0 d0]; [done |]. set (d := String c0 d0) in *.
  destruct (ends_with_slash d) eqn:E.
  - rewrite append_empty_r. done.
  - rewrite append_empty_r. split.
    + rewrite ends_with_slash_app by done. done.
    + unfold strip_trailing. rewrite all_slashes_app_slash, rstrip_app_slash.
      destruct (all_slashes d) eqn:Ea; [| done].
      pose proof (all_slashes_trailing d Hd Ea). congruence.
Qed.

(** X15.  What [load_resources] returns for a URL or path that ends in a slash
    is the empty name, and with the empty name a run that has failures
    cannot write its report: opening the report raises
    [IsADirectoryError] and the file system stays as the batch left
    it. *)
Theorem empty_catalog_name_loses_the_report (rs : list Resource)
    (main_url version source : string) (multi : bool) (n maxc : Z)
    (s sa s1 : State) (futures : list (result bool)) :
  ends_with_slash source = true ->
  makedirs (failed_dir_of (cwd s) version) s = (Ok tt, sa) ->
  run_batch rs main_url (base_dir_of (cwd s) version) multi n maxc (set_failed [] sa)
    = (Ok futures, s1) ->
  failed_resources s1 <> [] ->
  basename source = EmptyString /\
  exists s2,
    download_resources rs main_url version (basename source) multi n maxc s
      = (Raise IsADirectoryError, s2) /\
    fs s2 = fs s1.
Proof.
  intros Hsrc Hmk Hbatch Hne.
  pose proof (basename_trailing_slash source Hsrc) as Hname.
  split; [done |]. rewrite Hname.
  set (fd := failed_dir_of (cwd s) version) in *.
  assert (stat (fs s1) fd = Some Dir) as Hdir.
  { apply run_batch_eq in Hbatch as (_ & Hsub & _).
    destruct (submit_all_dirs main_url (base_dir_of (cwd s) version) multi n rs
                (set_failed [] sa)) as (f' & s' & E & _ & Hk & _).
    rewrite Hsub in E. injection E as <- <-.
    apply (dirs_kept_stat _ (set_failed [] sa) s1 Hk).
    apply (makedirs_creates _ _ _ Hmk). }
  rewrite download_resources_eq. fold fd. rewrite Hmk, Hbatch.
  apply stat_Dir in Hdir as [Hfd Hdir].
  destruct (ends_with_slash_join_empty fd Hfd) as [Hend Hstrip].
  unfold write_failure_report.
  destruct (failed_resources s1) as [|r l]; [done |].
  unfold bind at 1. unfold open_write, bind, log_open. cbn [fs set_opened].
  rewrite Hend. unfold is_file. rewrite Hstrip, Hdir.
  eexists. split; [reflexivity | done].
Qed.

Lemma empty_catalog_name_loses_the_report_witness :
  let s := Scenario.fresh (Scenario.range_server (Scenario.letters 4)) in
  let sa := (makedirs "/work/failed/1.0" s).2 in
  let s1 := (run_batch [Scenario.a_bin] Scenario.main_url Scenario.base_dir true 2 4
               (set_failed [] sa)).2 in
  basename "http://host/catalogs/" = EmptyString /\
  exists s2,
    download_resources [Scenario.a_bin] Scenario.main_url Scenario.version
      (basename "http://host/catalogs/") true 2 4 s = (Raise IsADirectoryError, s2) /\
    fs s2 = fs s1.
Proof.
  intros s sa s1.
  apply (empty_catalog_name_loses_the_report [Scenario.a_bin] Scenario.main_url
           Scenario.version "http://host/catalogs/" true 2 4 s sa s1 [Ok false]).
  - reflexivity.
  - vm_compute. reflexivity.
  - vm_compute. reflexivity.
  - vm_compute. discriminate.
Defined.

(** ** The name and the requests of [load_resources] *)

Section LoaderFurther.
Variable json_loads : list byte -> option json.

(** X16.  The catalog name that [load_resources] returns never contains a
    slash, so the report path of a run lies directly in the failure
    directory; and a catalog read from a local file sends no request. *)
Theorem loaded_name_is_plain (json_url json_file : option string) (s s' : State)
    (j : json) (name : string) :
  load_resources json_loads json_url json_file s = (Ok (j, name), s') ->
  no_slash name = true /\
  (provided json_url = false -> net s' = net s).
Proof.
  intros H. destruct (provided json_url) eqn:Hurl.
  - apply provided_true in Hurl as (u & -> & Hu).
    rewrite (load_resources_url json_loads u json_file s Hu) in H. cbn zeta in H.
    destruct (server s (net s) (GET u None)) as [resp|]; [| done].
    destruct (broken resp); [done |].
    destruct (json_loads (body resp)); [| done].
    injection H as _ <- _. split; [apply basename_no_slash | done].
  - destruct (provided json_file) eqn:Hfile.
    + apply provided_true in Hfile as (f & -> & Hf).
      rewrite (load_resources_file json_loads json_url f s Hurl Hf) in H. cbn zeta in H.
      destruct (stat (fs s) f) as [[c|]|]; try done.
      destruct (json_loads c); [| done].
      injection H as _ <- <-. split; [apply basename_no_slash | done].
    + unfold load_resources in H. by rewrite Hurl, Hfile in H.
Qed.

End LoaderFurther.

Lemma loaded_name_is_plain_witness :
  let s := Scenario.stored Scenario.unreachable (mkResource "local.json" EmptyString)
             [x5b; x5d] in
  let run := load_resources Scenario.sample_loads None
               (Some "/work/download/1.0/local.json"%string) s in
  no_slash "local.json" = true /\
  (provided None = false -> net run.2 = net s).
Proof.
  intros s run.
  apply (loaded_name_is_plain Scenario.sample_loads None
           (Some "/work/download/1.0/local.json"%string) s run.2
           (JString "[]") "local.json").
  vm_compute. reflexivity.
Defined.

(** ** Destination paths *)

Lemma lstrip_slash_no_leading (d : string) : starts_with_slash (lstrip_slash d) = false.
Proof.
  induction d as [|c d IH]; [done |].
  simpl. destruct (is_slash c) eqn:E; [exact IH | simpl; exact E].
Qed.

(** X17.  Leading slashes of [dest] are dropped before the path is joined, so
    an absolute [dest] never replaces the base directory, as it would in
    a plain [os.path.join]: the destination path is always the base
    directory followed by the stripped destination, with a slash in
    between unless the base directory is empty or ends in one. *)
Theorem absolute_dest_keeps_base_dir (base_dir : string) (r : Resource) :
  (exists sep,
     (sep = EmptyString \/ sep = "/"%string) /\
     dest_path_of base_dir r = (base_dir ++ sep ++ lstrip_slash (dest r))%string) /\
  (starts_with_slash (dest r) = true -> path_join base_dir (dest r) = dest r).
Proof.
  split.
  - unfold dest_path_of, path_join. rewrite lstrip_slash_no_leading.
    destruct base_dir as [|c b].
    + exists EmptyString. split; [by left | done].
    + destruct (ends_with_slash (String c b)).
      * exists EmptyString. split; [by left | done].
      * exists "/"%string. split; [by right | done].
  - intros H. unfold path_join. by rewrite H.
Qed.

(** ** The text of the failure report *)

Lemma plain_text_app (a b : string) :
  plain_text (a ++ b) = plain_text a && plain_text b.
Proof.
  induction a as [|c a IH]; [done |].
  rewrite append_cons. cbn [plain_text]. rewrite IH. by rewrite andb_assoc.
Qed.

Lemma plain_text_escape_char (c : ascii) : plain_text (json_escape_char c) = true.
Proof. destruct c as [[] [] [] [] [] [] [] []]; vm_compute; reflexivity. Qed.

Lemma plain_text_escape (s : string) : plain_text (json_escape s) = true.
Proof.
  induction s as [|c s IH]; [done |].
  cbn [json_escape]. by rewrite plain_text_app, plain_text_escape_char, IH.
Qed.

Lemma plain_text_quote (s : string) : plain_text (json_quote s) = true.
Proof.
  unfold json_quote. rewrite append_cons. cbn [plain_text].
  by rewrite plain_text_app, plain_text_escape.
Qed.

Lemma plain_text_newline_indent (indent level : nat) :
  plain_text (newline_indent indent level) = true.
Proof.
  unfold newline_indent. cbn [plain_text].
  induction (indent * level)%nat as [|k IH]; [done | exact IH].
Qed.

Lemma plain_text_join (sep : string) (l : list string) :
  plain_text sep = true ->
  Forall (fun x => plain_text x = true) l ->
  plain_text (join_strings sep l) = true.
Proof.
  intros Hsep H. induction H as [|x l Hx Hl IH]; [done |].
  destruct l as [|y l']; [exact Hx |].
  change (join_strings sep (x :: y :: l'))
    with (x ++ sep ++ join_strings sep (y :: l'))%string.
  by rewrite !plain_text_app, Hx, Hsep, IH.
Qed.

Lemma plain_text_N_go (x : N) (s : string) :
  plain_text s = true -> plain_text (pretty_N_go x s) = true.
Proof.
  revert s. induction (N.lt_wf_0 x) as [x _ IH]; intros s Hs.
  destruct (N.eq_dec x 0%N) as [->|Hx]; [by rewrite pretty_N_go_0 |].
  rewrite pretty_N_go_step by lia. apply IH; [apply N.div_lt; lia |].
  cbn [plain_text]. rewrite Hs, andb_true_r.
  unfold pretty_N_char. by repeat case_match.
Qed.

Lemma plain_text_pretty_Z (z : Z) : plain_text (pretty z) = true.
Proof.
  assert (forall x : N, plain_text (pretty x) = true) as HN.
  { intros x. unfold pretty, pretty_N. case_decide; [done |].
    by apply plain_text_N_go. }
  destruct z as [|q|q]; [done | apply (HN (Npos q)) |].
  unfold pretty, pretty_Z. rewrite append_cons, append_nil. cbn [plain_text].
  apply (HN (Npos q)).
Qed.

Lemma plain_text_dumps (indent : nat) (j : json) (level : nat) :
  plain_text (json_dumps indent level j) = true.
Proof.
  revert j level. fix IH 1. intros [| [|] | z | s | items | members] level.
  - reflexivity.
  - reflexivity.
  - reflexivity.
  - apply plain_text_pretty_Z.
  - apply plain_text_quote.
  - destruct items as [|x items]; [reflexivity |].
    set (l := x :: items).
    assert (Forall (fun t => plain_text t = true)
              (map (json_dumps indent (S level)) l)) as Hl.
    { clear -IH. generalize l. clear l. fix IHl 1. intros [|y l]; cbn [map].
      - constructor.
      - constructor; [apply IH | apply IHl]. }
    change (json_dumps indent level (JArray l))
      with ("[" ++ newline_indent indent (S level)
                ++ join_strings ("," ++ newline_indent indent (S level))
                     (map (json_dumps indent (S level)) l)
                ++ newline_indent indent level ++ "]")%string.
    rewrite !append_cons, !append_nil. cbn [plain_text].
    rewrite !plain_text_app, !plain_text_newline_indent.
    rewrite plain_text_join; [reflexivity | | exact Hl].
    cbn [plain_text]. by rewrite plain_text_newline_indent.
  - destruct members as [|x members]; [reflexivity |].
    set (l := x :: members).
    assert (Forall (fun t => plain_text t = true)
              (map (fun kv : string * json =>
                      let (k, v) := kv in
                      (json_quote k ++ ": " ++ json_dumps indent (S level) v)%string)
                   l)) as Hl.
    { clear -IH. generalize l. clear l. fix IHl 1. intros [|[k v] l]; cbn [map].
      - constructor.
      - constructor; [| apply IHl].
        rewrite !plain_text_app, plain_text_quote, IH. reflexivity. }
    change (json_dumps indent level (JObject l))
      with ("{" ++ newline_indent indent (S level)
                ++ join_strings ("," ++ newline_indent indent (S level))
                     (map (fun kv : string * json =>
                             let (k, v) := kv in
                             json_quote k ++ ": " ++ json_dumps indent (S level) v)
                          l)
                ++ newline_indent indent level ++ "}")%string.
    rewrite !append_cons, !append_nil. cbn [plain_text].
    rewrite !plain_text_app, !plain_text_newline_indent.
    rewrite plain_text_join; [reflexivity | | exact Hl].
    cbn [plain_text]. by rewrite plain_text_newline_indent.
Qed.

(** X18.  Whatever characters the destinations and checksums of the failed
    resources hold, the report text consists of line feeds and printable
    ASCII characters only ([json.dump] escapes everything else), and it
    is never empty. *)
Theorem failure_report_is_plain_ascii (failed : list Resource) :
  plain_text (failure_report failed) = true /\
  failure_report failed <> EmptyString.
Proof.
  split; [apply plain_text_dumps | by unfold failure_report].
Qed.

(** ** A whole run against a server that holds every file *)

Lemma existsb_false_Forall {A} (f : A -> bool) (l : list A) :
  existsb f l = false <-> Forall (fun a => f a = false) l.
Proof.
  induction l as [|a l IH]; cbn [existsb].
  - split; [constructor | done].
  - rewrite orb_false_iff, IH. split.
    + intros [Ha Hl]. by constructor.
    + intros H. inversion H; subst. done.
Qed.

Lemma makedirs_creatable (p : string) (t : State) :
  creatable (fs t) p ->
  exists t1,
    makedirs (dirname p) t = (Ok tt, t1) /\
    cwd t1 = cwd t /\ server t1 = server t /\
    failed_resources t1 = failed_resources t /\
    stat (fs t1) (dirname p) = Some Dir /\
    (forall q, fs t1 !! q = fs t !! q \/
               (q ∈ ancestors (strip_trailing (dirname p)) /\ fs t1 !! q = Some Dir)).
Proof.
  intros (Hend & Hnd & Hne & Hfiles).
  destruct (makedirs (dirname p) t) as [res t1] eqn:E.
  pose proof E as E'. unfold makedirs in E'.
  remember (ancestors (strip_trailing (dirname p))) as levels eqn:Hl.
  destruct (String.eqb_spec (dirname p) EmptyString) as [?|_]; [done |].
  destruct (stat (fs t) (dirname p)) as [[c|]|] eqn:Hst.
  - exfalso. apply stat_File in Hst as (_ & Hd & Hc).
    destruct (ancestors_head (strip_trailing (dirname p))) as [rest Hanc].
    rewrite Hl, Hanc in Hfiles. cbn [existsb] in Hfiles.
    apply orb_false_iff in Hfiles as [Hf _].
    unfold is_file in Hf. rewrite (strip_trailing_id _ Hd), Hc in Hf. done.
  - injection E' as <- <-. exists t. split_ands; try done. by left.
  - rewrite Hfiles in E'. injection E' as <- <-. eexists. split; [reflexivity |].
    split; [done |]. split; [done |]. split; [done |].
    split; [by apply (makedirs_creates _ t _ E) |].
    intros q. cbn [fs set_fs]. rewrite insert_dirs_lookup. case_bool_decide.
    + by right.
    + by left.
Qed.

Lemma download_and_verify_file_after_makedirs (r : Resource) (main_url base_dir : string)
    (multi : bool) (n : Z) (t t1 : State) :
  makedirs (dirname (dest_path_of base_dir r)) t = (Ok tt, t1) ->
  download_and_verify_file r main_url base_dir multi n t =
  download_and_verify_file r main_url base_dir multi n t1.
Proof.
  intros Hmk. pose proof (makedirs_creates _ _ _ Hmk) as Hd.
  apply makedirs_existing in Hd.
  unfold download_and_verify_file. cbn zeta.
  unfold bind at 1. rewrite Hmk. symmetry. unfold bind at 1. rewrite Hd. reflexivity.
Qed.

Lemma digest_matches_lookup (base_dir : string) (r : Resource) (s s' : State) :
  ends_with_slash (dest_path_of base_dir r) = false ->
  fs s' !! dest_path_of base_dir r = fs s !! dest_path_of base_dir r ->
  digest_matches base_dir s' r = digest_matches base_dir s r.
Proof.
  intros Hend H. unfold digest_matches, stat.
  by rewrite (strip_trailing_id _ Hend), H.
Qed.

Lemma digest_matches_File (base_dir : string) (r : Resource) (s : State) :
  digest_matches base_dir s r = true <->
  exists c, stat (fs s) (dest_path_of base_dir r) = Some (File c) /\
            md5_hexdigest c = md5 r.
Proof.
  unfold digest_matches. split.
  - destruct (stat _ _) as [[c|]|]; try done. intros H%String.eqb_eq. eauto.
  - intros (c & -> & H). by apply String.eqb_eq.
Qed.

Lemma file_task_honest (r : Resource) (main_url base_dir : string) (multi : bool)
    (n : Z) (content : list byte) (t : State) :
  let p := dest_path_of base_dir r in
  0 < n ->
  creatable (fs t) p ->
  p ∉ ancestors (strip_trailing (dirname p)) ->
  md5_hexdigest content = md5 r ->
  holds (server t) multi (url_of main_url r) content ->
  exists t',
    download_and_verify_file r main_url base_dir multi n t = (Ok true, t') /\
    cwd t' = cwd t /\ server t' = server t /\
    failed_resources t' = failed_resources t /\
    (forall q, q <> p ->
               fs t' !! q = fs t !! q \/
               (q ∈ ancestors (strip_trailing (dirname p)) /\ fs t' !! q = Some Dir)) /\
    exists c, fs t' !! p = Some (File c) /\ md5_hexdigest c = md5 r /\
              (digest_matches base_dir t r = false -> c = content).
Proof.
  intros p Hn Hcr Hself Hmd5 Hsrv.
  destruct (makedirs_creatable p t Hcr) as (t1 & Hmk & Hcwd & Hserver & Hfailed & Hd & Hfs).
  destruct Hcr as (Hend & Hnd & Hne & Hfiles).
  assert (fs t1 !! p = fs t !! p) as Hp.
  { destruct (Hfs p) as [?|[? _]]; done. }
  assert (writable (fs t1) p) as Hw.
  { split; [done |]. split; [by rewrite Hp | done]. }
  rewrite (download_and_verify_file_after_makedirs r main_url base_dir multi n t t1 Hmk).
  rewrite <- (digest_matches_lookup base_dir r t t1 Hend Hp).
  destruct (digest_matches base_dir t1 r) eqn:Hdm.
  - apply digest_matches_File in Hdm as (c & Hc & Hm).
    rewrite (download_and_verify_file_skip r main_url base_dir multi n c t1 Hd Hc Hm).
    eexists. split; [reflexivity |]. cbn [cwd server failed_resources fs set_opened].
    split_ands; try done.
    exists c. apply stat_File in Hc as (_ & _ & Hc). done.
  - destruct (download_and_verify_file_cases r main_url base_dir multi n t1)
      as (res & t' & E & K1 & K2 & _). cbn zeta in *.
    destruct (download_and_verify_file_faithful r main_url base_dir multi n content t1
                Hw Hdm Hn) as (t'' & E' & Hfs' & Hfailed').
    { unfold holds in Hsrv. rewrite Hserver. exact Hsrv. }
    cbn zeta in *. fold p in E, E', Hfs'.
    rewrite E in E'. injection E' as -> <-.
    apply String.eqb_eq in Hmd5. rewrite Hmd5 in *.
    exists t'. split; [done |]. split; [congruence |]. split; [congruence |].
    split; [by rewrite Hfailed', app_nil_r |].
    split.
    + intros q Hq. rewrite Hfs', lookup_insert_ne by done. apply Hfs.
    + exists content. rewrite Hfs', lookup_insert_eq. split; [done |].
      split; [by apply String.eqb_eq | done].
Qed.

Lemma no_clash_forall (paths : list string) :
  no_clash paths <->
  forall p q, p ∈ paths -> q ∈ paths -> p ∉ ancestors (strip_trailing (dirname q)).
Proof.
  unfold no_clash. rewrite Forall_forall. split.
  - intros H p q Hp Hq. specialize (H p Hp). rewrite Forall_forall in H. by apply H.
  - intros H p Hp. apply Forall_forall. intros q Hq. by apply H.
Qed.

Lemma submit_all_honest (main_url base_dir : string) (multi : bool) (n : Z)
    (content_of : Resource -> list byte) (rs : list Resource) (t : State) :
  0 < n ->
  NoDup (map (dest_path_of base_dir) rs) ->
  (forall r r', r ∈ rs -> r' ∈ rs ->
     dest_path_of base_dir r
       ∉ ancestors (strip_trailing (dirname (dest_path_of base_dir r')))) ->
  (forall r, r ∈ rs ->
     creatable (fs t) (dest_path_of base_dir r) /\
     md5_hexdigest (content_of r) = md5 r /\
     holds (server t) multi (url_of main_url r) (content_of r)) ->
  exists t',
    submit_all (map (file_task main_url base_dir multi n) rs) t
      = (Ok (map (fun _ => Ok true) rs), t') /\
    cwd t' = cwd t /\ server t' = server t /\
    failed_resources t' = failed_resources t /\
    (forall q,
       (forall r, r ∈ rs ->
          q <> dest_path_of base_dir r /\
          q ∉ ancestors (strip_trailing (dirname (dest_path_of base_dir r)))) ->
       fs t' !! q = fs t !! q) /\
    (forall r, r ∈ rs ->
       exists c, fs t' !! dest_path_of base_dir r = Some (File c) /\
                 md5_hexdigest c = md5 r /\
                 (digest_matches base_dir t r = false -> c = content_of r)).
Proof.
  intros Hn. revert t. induction rs as [|r rs IH]; intros t Hnd Hclash Hall.
  - exists t. cbn [map submit_all]. split_ands; try done.
    intros r Hr. by apply elem_of_nil in Hr.
  - cbn [map] in Hnd. apply NoDup_cons in Hnd as [Hnotin Hnd].
    set (p := dest_path_of base_dir r) in *.
    destruct (Hall r) as (Hcr & Hmd5 & Hsrv); [by left |].
    destruct (file_task_honest r main_url base_dir multi n (content_of r) t Hn Hcr
                (Hclash r r ltac:(by left) ltac:(by left)) Hmd5 Hsrv)
      as (t1 & E1 & Hcwd1 & Hsrv1 & Hfail1 & Hfs1 & c & Hc & Hm & Hcont).
    fold p in Hfs1, Hc.
    assert (forall r', r' ∈ rs -> dest_path_of base_dir r' <> p) as Hneq.
    { intros r' Hr' Heq. apply Hnotin. rewrite <- Heq.
      apply list_elem_of_fmap. by exists r'. }
    assert (forall r', r' ∈ rs ->
              fs t1 !! dest_path_of base_dir r' = fs t !! dest_path_of base_dir r') as Hsame.
    { intros r' Hr'. destruct (Hfs1 _ (Hneq r' Hr')) as [?|[Hin _]]; [done |].
      exfalso. by apply (Hclash r' r ltac:(by right) ltac:(by left)). }
    destruct (IH t1 Hnd) as (t' & E2 & Hcwd2 & Hsrv2 & Hfail2 & Hfs2 & Hfiles2).
    { intros r1 r2 H1 H2. apply Hclash; by right. }
    { intros r' Hr'. destruct (Hall r') as ((Hend & Hdir & Hne & Hfiles) & Hmd5' & Hsrv');
        [by right |].
      split; [| split; [done | by rewrite Hsrv1]].
      split; [done |]. split; [by rewrite (Hsame r' Hr') |]. split; [done |].
      apply existsb_false_Forall, Forall_forall. intros a Ha.
      apply existsb_false_Forall in Hfiles. rewrite Forall_forall in Hfiles.
      specialize (Hfiles a Ha). unfold is_file in *.
      assert (a <> p) as Hap.
      { intros ->. by apply (Hclash r r' ltac:(by left) ltac:(by right)). }
      destruct (Hfs1 a Hap) as [->|[_ ->]]; done. }
    exists t'. split.
    { cbn [map submit_all]. unfold file_task at 1. rewrite E1.
      unfold bind. rewrite E2. done. }
    split; [congruence |]. split; [congruence |]. split; [congruence |].
    split.
    { intros q Hq. rewrite Hfs2.
      - destruct (Hq r ltac:(by left)) as [Hqp Hqa].
        destruct (Hfs1 q Hqp) as [?|[? _]]; done.
      - intros r' Hr'. apply Hq. by right. }
    intros r0 Hr0. apply elem_of_cons in Hr0 as [->|Hr0].
    + exists c. split; [| done]. rewrite Hfs2; [done |].
      intros r' Hr'. split; [by apply not_eq_sym, Hneq |].
      by apply (Hclash r r' ltac:(by left) ltac:(by right)).
    + destruct (Hfiles2 r0 Hr0) as (c0 & Hc0 & Hm0 & Hcont0).
      exists c0. split; [done |]. split; [done |]. intros Hdm. apply Hcont0.
      destruct (Hall r0 ltac:(by right)) as ((Hend & _) & _).
      by rewrite (digest_matches_lookup base_dir r0 t t1 Hend (Hsame r0 Hr0)).
Qed.

Lemma first_raise_all_true {A} (rs : list A) :
  first_raise (map (fun _ => Ok true) rs) = None.
Proof. induction rs as [|r rs IH]; [done | exact IH]. Qed.

(** X19.  A whole run against a server that holds every file of the
    catalog with the catalogued checksum, over distinct destinations in
    normal form (so that distinct paths are distinct files) that can be
    created and none of which is a directory of another:
    the run returns normally, every future holds True, nothing is
    recorded as failed and no report is written; afterwards every
    destination carries its expected digest, and each file that was not
    already valid holds exactly the remote content.  The directories
    need not exist beforehand. *)
Theorem honest_run_downloads_everything (rs : list Resource)
    (main_url version json_name : string) (multi : bool) (n maxc : Z)
    (content_of : Resource -> list byte) (s sa : State) :
  let bd := base_dir_of (cwd s) version in
  0 < n ->
  0 < maxc ->
  makedirs (failed_dir_of (cwd s) version) s = (Ok tt, sa) ->
  Forall (fun r => normal_path (dest_path_of bd r) = true) rs ->
  NoDup (map (dest_path_of bd) rs) ->
  no_clash (map (dest_path_of bd) rs) ->
  Forall (fun r => creatable (fs sa) (dest_path_of bd r) /\
                   md5_hexdigest (content_of r) = md5 r /\
                   holds (server s) multi (url_of main_url r) (content_of r)) rs ->
  exists s',
    download_resources rs main_url version json_name multi n maxc s = (Ok tt, s') /\
    run_batch rs main_url bd multi n maxc (set_failed [] sa)
      = (Ok (map (fun _ => Ok true) rs), s') /\
    failed_resources s' = [] /\
    Forall (fun r => digest_matches bd s' r = true /\
                     (digest_matches bd sa r = false ->
                      stat (fs s') (dest_path_of bd r) = Some (File (content_of r)))) rs.
Proof.
  intros bd Hn Hmaxc Hmk _ Hnd Hclash Hall.
  assert (server sa = server s) as Hsrv.
  { pose proof (touches_makedirs EmptyString (failed_dir_of (cwd s) version) s) as H.
    rewrite Hmk in H. apply (to_server _ _ _ H). }
  destruct (submit_all_honest main_url bd multi n content_of rs (set_failed [] sa) Hn Hnd)
    as (s' & E & _ & _ & Hfail & _ & Hfiles).
  { rewrite no_clash_forall in Hclash. intros r r' Hr Hr'.
    apply Hclash; apply list_elem_of_fmap; eauto. }
  { rewrite Forall_forall in Hall. intros r Hr. cbn [fs server set_failed].
    rewrite Hsrv. by apply Hall. }
  cbn [failed_resources set_failed] in Hfail.
  assert (run_batch rs main_url bd multi n maxc (set_failed [] sa)
            = (Ok (map (fun _ => Ok true) rs), s')) as Hbatch.
  { unfold run_batch, thread_pool. destruct (Z.leb_spec maxc 0) as [?|_]; [lia |].
    unfold bind at 1. cbn [ret].
    change (map (fun resource => download_and_verify_file resource main_url bd multi n) rs)
      with (map (file_task main_url bd multi n) rs).
    unfold bind at 1. rewrite E. unfold bind.
    by rewrite wait_all_first_raise, first_raise_all_true. }
  exists s'. split.
  { rewrite download_resources_eq. fold bd. rewrite Hmk, Hbatch.
    by apply write_failure_report_none. }
  split; [done |]. split; [done |].
  apply Forall_forall. intros r Hr.
  destruct (Hfiles r Hr) as (c & Hc & Hm & Hcont).
  rewrite Forall_forall in Hall. destruct (Hall r Hr) as ((Hend & _ & Hne & _) & _ & _).
  assert (stat (fs s') (dest_path_of bd r) = Some (File c)) as Hst.
  { apply stat_File. split; [| by split]. intros Hp. apply Hne. by rewrite Hp. }
  split.
  - apply digest_matches_File. eauto.
  - intros Hdm. rewrite Hst. rewrite Hcont; [done |].
    rewrite <- Hdm. by apply digest_matches_lookup.
Qed.

Lemma honest_run_downloads_everything_witness :
  let content := Scenario.letters 10 in
  let b_bin := mkResource "/sub/b.bin" (md5 Scenario.a_bin) in
  let rs := [Scenario.a_bin; b_bin] in
  let s := Scenario.fresh (honest_server content) in
  let sa := (makedirs (failed_dir_of (cwd s) Scenario.version) s).2 in
  let bd := base_dir_of (cwd s) Scenario.version in
  exists s',
    download_resources rs Scenario.main_url Scenario.version Scenario.json_name
      true 3 4 s = (Ok tt, s') /\
    run_batch rs Scenario.main_url bd true 3 4 (set_failed [] sa)
      = (Ok (map (fun _ => Ok true) rs), s') /\
    failed_resources s' = [] /\
    Forall (fun r => digest_matches bd s' r = true /\
                     (digest_matches bd sa r = false ->
                      stat (fs s') (dest_path_of bd r) = Some (File content))) rs.
Proof.
  intros content b_bin rs s sa bd.
  apply (honest_run_downloads_everything rs Scenario.main_url Scenario.version
           Scenario.json_name true 3 4 (fun _ => content) s sa).
  - lia.
  - lia.
  - vm_compute. reflexivity.
  - repeat constructor.
  - apply (bool_decide_unpack _). vm_compute. exact I.
  - unfold no_clash. apply (bool_decide_unpack _). vm_compute. exact I.
  - repeat constructor; try (vm_compute; reflexivity); try (vm_compute; discriminate);
      show_serves.
Defined.

Lemma successful_run_leaves_valid_files_witness :
  let srv := Scenario.one_file_server "http://host/zip/a.bin" (Scenario.letters 10) in
  let s0 := Scenario.fresh srv in
  let s1 := (download_resources [Scenario.a_bin] Scenario.main_url Scenario.version
               Scenario.json_name false 2 4 s0).2 in
  Forall (fun r => digest_matches (base_dir_of (cwd s0) Scenario.version) s1 r = true)
         [Scenario.a_bin].
Proof.
  intros srv s0 s1.
  apply (successful_run_leaves_valid_files [Scenario.a_bin] Scenario.main_url
           Scenario.version Scenario.json_name false 2 4 s0 s1).
  - repeat constructor.
  - apply (bool_decide_unpack _). vm_compute. exact I.
  - vm_compute. reflexivity.
  - vm_compute. reflexivity.
Defined.

(** * Properties for every server answer *)

(** ** Chunk workers against arbitrary range answers *)











(** ** Exceptions are not caught, wherever they arise *)



(** ** A [HEAD] answer without content-length *)





